(** * The route planner, the book recommender and the inventory tracker

    A shallow embedding of [bookstore.py]: [haversine],
    [NearestNeighbourAlgorithm.compute], [BruteForceAlgorithm.compute],
    [GraphDrawer.draw] and the handlers of the planner's window; the
    recommender; the inventory manager.

    The route planner is read twice.  First with Python's floats as real
    numbers (exact arithmetic), the reading in which the distance
    properties are worded: there [haversine] always returns.  Then, in
    [Float64], with the floats as the IEEE 754 binary64 numbers they are,
    every operation rounded: there [haversine] can raise, and the
    statements about what a run returns, raises or shows are made on this
    second reading.  Python exceptions are an explicit outcome of every
    fallible step. *)

From Stdlib Require Import Reals Lra Lia List Arith ZArith Permutation Sorted.
From Stdlib Require String Ascii DecimalString.
From Stdlib Require Floats.
Import ListNotations.

Set Implicit Arguments.

(** ** Outcomes of Python code *)

Inductive exn : Type :=
| TypeError
| ValueError
| IndexError
| OverflowError.

(** A call returns a value, raises, or (for the fuelled [while] loop only)
    uses up its fuel. *)
Inductive outcome (A : Type) : Type :=
| Returns (a : A)
| Raises (e : exn)
| OutOfFuel.

Arguments Raises {A} e.
Arguments OutOfFuel {A}.

Definition bind {A B : Type} (m : outcome A) (k : A -> outcome B) : outcome B :=
  match m with
  | Returns a => k a
  | Raises e => Raises e
  | OutOfFuel => OutOfFuel
  end.

Notation "x <- m ;; k" := (bind m (fun x => k))
  (at level 61, m at next level, right associativity).
Notation "' pat <- m ;; k" := (bind m (fun x => match x with pat => k end))
  (at level 61, pat pattern, m at next level, right associativity).

Definition raised {A : Type} (m : outcome A) : Prop :=
  exists e, m = Raises e.

Open Scope R_scope.

(** ** The [math] functions the code calls *)

Module PyMath.

(** [math.radians] *)
Definition radians (deg : R) : R := deg * (PI / 180).

(** [math.sqrt]: a negative argument is a [ValueError]. *)
Definition sqrt (x : R) : outcome R :=
  if Rlt_dec x 0 then Raises ValueError else Returns (R_sqrt.sqrt x).

(** [math.atan2 y x], the angle of the point [(x, y)] in (-pi, pi]. *)
Definition atan2 (y x : R) : R :=
  if Rlt_dec 0 x then atan (y / x)
  else if Rlt_dec x 0 then
    (if Rle_dec 0 y then atan (y / x) + PI else atan (y / x) - PI)
  else if Rlt_dec 0 y then PI / 2
  else if Rlt_dec y 0 then - (PI / 2)
  else 0.

End PyMath.

(** ** Data *)

(** A coordinate pair [(lat, lon)], in degrees. *)
Definition point : Type := (R * R)%type.

(** A destination row [(lat, lon, name)] as the planner builds it. *)
Record destination : Type := mkDestination {
  dest_lat : R;
  dest_lon : R;
  dest_name : String.string
}.

(** [(points[i][0], points[i][1])] once [points[i]] is at hand. *)
Definition coords (p : destination) : point := (dest_lat p, dest_lon p).

(** [points[i]] for a non-negative index: out of range is an [IndexError]. *)
Definition getitem {A : Type} (l : list A) (i : nat) : outcome A :=
  match nth_error l i with
  | Some a => Returns a
  | None => Raises IndexError
  end.

(** [list(range(n))] *)
Definition range (n : nat) : list nat := seq 0 n.

(** [l.remove(x)]: drops the first occurrence, [ValueError] when absent. *)
Fixpoint list_remove (x : nat) (l : list nat) : outcome (list nat) :=
  match l with
  | [] => Raises ValueError
  | y :: l' =>
      if Nat.eq_dec y x then Returns l'
      else (r <- list_remove x l' ;; Returns (y :: r))
  end.

(** ** haversine *)

(** The quantity [x] of the source, on coordinates already in radians. *)
Definition hav_x (lat1 lon1 lat2 lon2 : R) : R :=
  let dlat := lat2 - lat1 in
  let dlon := lon2 - lon1 in
  sin (dlat / 2) ^ 2 + cos lat1 * cos lat2 * sin (dlon / 2) ^ 2.

Definition haversine (a b : point) : outcome R :=
  let R_ := 6371 in
  let lat1 := PyMath.radians (fst a) in
  let lon1 := PyMath.radians (snd a) in
  let lat2 := PyMath.radians (fst b) in
  let lon2 := PyMath.radians (snd b) in
  let x := hav_x lat1 lon1 lat2 lon2 in
  s1 <- PyMath.sqrt x ;;
  s2 <- PyMath.sqrt (1 - x) ;;
  Returns (R_ * 2 * PyMath.atan2 s1 s2).

Arguments haversine : simpl never.

(** The sentinel [10**9] both solvers start their minimum from. *)
Definition sentinel : R := 10 ^ 9.

(** ** NearestNeighbourAlgorithm *)

Module NearestNeighbourAlgorithm.

(** The inner [for i in unvisited] loop, threading [best] and [best_d]. *)
Fixpoint scan (current : point) (points : list destination)
    (unvisited : list nat) (best : option nat) (best_d : R)
    : outcome (option nat * R) :=
  match unvisited with
  | [] => Returns (best, best_d)
  | i :: rest =>
      p <- getitem points i ;;
      d <- haversine current (coords p) ;;
      if Rlt_dec d best_d
      then scan current points rest (Some i) d
      else scan current points rest best best_d
  end.

(** The [while unvisited] loop; every pass removes one index, so the
    length of [unvisited] is enough fuel. *)
Fixpoint loop (fuel : nat) (start : point) (points : list destination)
    (unvisited : list nat) (current : point) (order : list nat) (total : R)
    : outcome (list nat * R * point) :=
  match unvisited with
  | [] => Returns (order, total, current)
  | _ :: _ =>
      match fuel with
      | O => OutOfFuel
      | S fuel' =>
          '(best, best_d) <- scan current points unvisited None sentinel ;;
          match best with
          | None => Raises TypeError        (* points[None] *)
          | Some b =>
              p <- getitem points b ;;
              unvisited' <- list_remove b unvisited ;;
              loop fuel' start points unvisited' (coords p)
                   (order ++ [b]) (total + best_d)
          end
      end
  end.

Definition compute (start : point) (points : list destination)
    : outcome (list nat * R) :=
  let unvisited := range (length points) in
  '(order, total, current) <-
      loop (length unvisited) start points unvisited start [] 0 ;;
  d <- haversine current start ;;
  Returns (order, total + d).

End NearestNeighbourAlgorithm.

(** ** itertools.permutations *)

(** Every way to take one element out of a list, in list order. *)
Fixpoint selections {A : Type} (l : list A) : list (A * list A) :=
  match l with
  | [] => []
  | x :: xs => (x, xs) :: map (fun s => (fst s, x :: snd s)) (selections xs)
  end.

Fixpoint perms_upto {A : Type} (n : nat) (l : list A) : list (list A) :=
  match n with
  | O => [[]]
  | S n' =>
      flat_map (fun s => map (cons (fst s)) (perms_upto n' (snd s)))
               (selections l)
  end.

(** [permutations(pool)]: all full-length orderings, emitted in
    lexicographic order of positions in the pool, as the library documents. *)
Definition permutations {A : Type} (pool : list A) : list (list A) :=
  perms_upto (length pool) pool.

(** ** BruteForceAlgorithm *)

Module BruteForceAlgorithm.

(** The inner [for i in perm] loop, threading [current] and [total]. *)
Fixpoint walk (points : list destination) (perm : list nat)
    (current : point) (total : R) : outcome (point * R) :=
  match perm with
  | [] => Returns (current, total)
  | i :: rest =>
      q <- getitem points i ;;
      let p := coords q in
      d <- haversine current p ;;
      walk points rest p (total + d)
  end.

(** One pass of the outer loop up to the comparison. *)
Definition tour (start : point) (points : list destination)
    (perm : list nat) : outcome R :=
  '(current, total) <- walk points perm start 0 ;;
  d <- haversine current start ;;
  Returns (total + d).

(** The outer [for perm in permutations(...)] loop. *)
Fixpoint search (start : point) (points : list destination)
    (perms : list (list nat)) (best_order : option (list nat))
    (best_distance : R) : outcome (option (list nat) * R) :=
  match perms with
  | [] => Returns (best_order, best_distance)
  | perm :: rest =>
      total <- tour start points perm ;;
      if Rlt_dec total best_distance
      then search start points rest (Some perm) total
      else search start points rest best_order best_distance
  end.

Definition compute (start : point) (points : list destination)
    : outcome (list nat * R) :=
  '(best_order, best_distance) <-
      search start points (permutations (range (length points)))
             None sentinel ;;
  match best_order with
  | None => Raises TypeError               (* list(None) *)
  | Some perm => Returns (perm, best_distance)
  end.

End BruteForceAlgorithm.

(** * Specification-level definitions *)

(** The value [haversine] returns, as a plain real. *)
Definition hav (a b : point) : R :=
  let x := hav_x (PyMath.radians (fst a)) (PyMath.radians (snd a))
                 (PyMath.radians (fst b)) (PyMath.radians (snd b)) in
  6371 * 2 * PyMath.atan2 (sqrt x) (sqrt (1 - x)).

Arguments hav : simpl never.

(** Lexicographic order on index sequences. *)
Inductive lex_lt : list nat -> list nat -> Prop :=
| lex_lt_nil y ys : lex_lt [] (y :: ys)
| lex_lt_head x xs y ys : (x < y)%nat -> lex_lt (x :: xs) (y :: ys)
| lex_lt_tail x xs ys : lex_lt xs ys -> lex_lt (x :: xs) (x :: ys).

Definition lex_le (p q : list nat) : Prop := p = q \/ lex_lt p q.

(** ** Keeping the first strict minimum

    Both solvers scan a sequence with [if d < best_d], starting from the
    sentinel: the candidate kept is the first one that attains the minimum. *)

Section FirstMinDef.

Context {X : Type}.
Variable f : X -> R.

Fixpoint first_min (l : list X) (best : option X) (best_v : R)
    : option X * R :=
  match l with
  | [] => (best, best_v)
  | x :: rest =>
      if Rlt_dec (f x) best_v
      then first_min rest (Some x) (f x)
      else first_min rest best best_v
  end.

(** Either nothing got below the initial value, or the list splits around
    the kept candidate: strictly larger before it, no smaller after it. *)
Inductive first_min_result (l : list X) (best : option X) (best_v : R)
    : option X * R -> Prop :=
| fm_unchanged :
    (forall y, In y l -> best_v <= f y) ->
    first_min_result l best best_v (best, best_v)
| fm_found l1 x l2 :
    l = l1 ++ x :: l2 ->
    f x < best_v ->
    (forall y, In y l1 -> f x < f y) ->
    (forall y, In y l2 -> f x <= f y) ->
    first_min_result l best best_v (Some x, f x).

End FirstMinDef.

(** ** Round trips *)

(** The coordinates of destination [i]; indices of a visiting order are
    always below the number of destinations, where the default is unused. *)
Definition point_at (points : list destination) (i : nat) : point :=
  match nth_error points i with
  | Some q => coords q
  | None => (0, 0)
  end.

(** Start to first stop, then each consecutive leg. *)
Fixpoint legs (current : point) (stops : list point) : R :=
  match stops with
  | [] => 0
  | p :: rest => hav current p + legs p rest
  end.

(** The round-trip total of a visiting order: the legs, then the way back
    from the last stop to the start. *)
Definition round_trip (start : point) (points : list destination)
    (order : list nat) : R :=
  let stops := map (point_at points) order in
  legs start stops + hav (last stops start) start.

Definition valid_indices (points : list destination) (order : list nat) : Prop :=
  Forall (fun i => (i < length points)%nat) order.

(** The greedy rule as the specification words it: while indices remain,
    the next stop is an unvisited index at minimum distance from the current
    position, the lowest such index on a tie; it leaves the unvisited set
    and becomes the current position. *)
Inductive greedy_spec (points : list destination)
    : list nat -> point -> list nat -> Prop :=
| greedy_done current : greedy_spec points [] current []
| greedy_pick unvisited current b rest :
    In b unvisited ->
    (forall j, In j unvisited ->
       hav current (point_at points b) <= hav current (point_at points j)) ->
    (forall j, In j unvisited ->
       hav current (point_at points j) = hav current (point_at points b) ->
       (b <= j)%nat) ->
    greedy_spec points (remove Nat.eq_dec b unvisited) (point_at points b) rest ->
    greedy_spec points unvisited current (b :: rest).

(** Length N, no repeated index, no omitted index. *)
Definition index_permutation (n : nat) (order : list nat) : Prop :=
  length order = n /\ NoDup order /\ forall i, In i order <-> (i < n)%nat.

(** Coordinates a caller is expected to pass. *)
Definition in_range (p : point) : Prop :=
  Rabs (fst p) <= 90 /\ Rabs (snd p) <= 180.

(** A start point and a destination used to instantiate the statements. *)
Module Fixtures.
Import String.

Definition london : point := (51.5, -0.12).
Definition barnet : destination :=
  mkDestination 51.6 (-0.10) "Barnet"%string.
Definition enfield : destination :=
  mkDestination 51.6 (-0.10) "Enfield"%string.

End Fixtures.

(** * The rest of the route planner *)

(** ** Python values and exceptions outside the solvers *)

Module Py.

(** Exceptions raised by the code below. *)
Inductive exc : Type :=
| KeyError
| IndexError
| TypeError
| ValueError
| AttributeError
| OverflowError
| ZeroDivisionError
| OSError.

End Py.

(** A call that returns a value or raises. *)
Inductive result (A : Type) : Type :=
| Ok (a : A)
| Raise (e : Py.exc).

Arguments Raise {A} e.

(** ** build_edges (local to [App.compute]) *)

(** An edge [(i, j, d)] between nodes of the drawn graph; node 0 is the
    start and node [k] the k-th stop. *)
Definition edge : Type := (nat * nat * R)%type.

(** The [for pos, pt_idx in enumerate(order, start=1)] loop followed by the
    edge back to the start. *)
Fixpoint build_edges_from (start_loc : point) (points : list destination)
    (order : list nat) (pos prev_idx : nat) (prev_point : point)
    (edges : list edge) : outcome (list edge) :=
  match order with
  | [] =>
      d_back <- haversine prev_point start_loc ;;
      Returns (edges ++ [(prev_idx, 0%nat, d_back)])
  | pt_idx :: rest =>
      q <- getitem points pt_idx ;;
      let pt := coords q in
      d <- haversine prev_point pt ;;
      build_edges_from start_loc points rest (S pos) pos pt
                       (edges ++ [(prev_idx, pos, d)])
  end.

Definition build_edges (start_loc : point) (points : list destination)
    (order : list nat) : outcome (list edge) :=
  build_edges_from start_loc points order 1 0 start_loc [].

(** The node pairs of a closed walk 0 -> 1 -> ... -> n -> 0. *)
Definition closed_walk (n : nat) : list (nat * nat) :=
  map (fun k => (k, S k)) (seq 0 n) ++ [(n, 0%nat)].

Definition edge_ends (e : edge) : nat * nat := fst e.
Definition edge_km (e : edge) : R := snd e.

Definition total_km (edges : list edge) : R :=
  fold_right Rplus 0 (map edge_km edges).

(** ** GraphDrawer *)

Module GraphDrawer.
Import String.

(** The text of a canvas item: a node label, or a distance shown as
    [f"{d:.1f} km"]. *)
Inductive caption : Type :=
| Label (s : string)
| Km (d : R).

(** What [draw] puts on the canvas (the constant width and arrow options of
    a line are left out). *)
Inductive item : Type :=
| Oval (x1 y1 x2 y2 : R) (fill : string)
| Text (x y : R) (text : caption) (fill : string)
| Line (x1 y1 x2 y2 : R) (fill : string).

(** [min] and [max] of a non-empty list, first element apart. *)
Definition py_min (x : R) (xs : list R) : R :=
  fold_left (fun m v => if Rlt_dec v m then v else m) xs x.

Definition py_max (x : R) (xs : list R) : R :=
  fold_left (fun m v => if Rlt_dec m v then v else m) xs x.

Definition margin : Z := 30.

(** The local function [to_canvas] with the variables it closes over. *)
Definition to_canvas (w h : Z) (min_lon max_lat lon_span lat_span : R)
    (lat lon : R) : R * R :=
  (IZR margin + (lon - min_lon) / lon_span * IZR (w - 2 * margin),
   IZR margin + (max_lat - lat) / lat_span * IZR (h - 2 * margin)).

(** The node loop over [enumerate(zip(labels, coords))]: the positions
    recorded so far (keys 0, 1, ... in order) and the items drawn. *)
Fixpoint draw_nodes (place : R -> R -> R * R) (i : nat)
    (rows : list (string * point)) (positions : list (R * R))
    (items : list item) : list (R * R) * list item :=
  match rows with
  | [] => (positions, items)
  | (label, (lat, lon)) :: rest =>
      let '(x, y) := place lat lon in
      draw_nodes place (S i) rest (positions ++ [(x, y)])
        (items ++ [Oval (x - 15) (y - 15) (x + 15) (y + 15)
                        (if Nat.eqb i 0 then "#ff7043" else "#4aa3ff");
                   Text x (y - 22) (Label label) "black"])
  end.

(** [positions[i]]: a missing key is a KeyError. *)
Definition position (positions : list (R * R)) (i : nat) : result (R * R) :=
  match nth_error positions i with
  | Some p => Ok p
  | None => Raise Py.KeyError
  end.

(** The edge loop; an exception leaves what was drawn before it. *)
Fixpoint draw_edges (positions : list (R * R)) (line_color : string)
    (edges : list edge) (items : list item) : list item * option Py.exc :=
  match edges with
  | [] => (items, None)
  | (i, j, d) :: rest =>
      match position positions i with
      | Raise e => (items, Some e)
      | Ok (x1, y1) =>
          match position positions j with
          | Raise e => (items, Some e)
          | Ok (x2, y2) =>
              let mx := (x1 + x2) / 2 in
              let my := (y1 + y2) / 2 in
              draw_edges positions line_color rest
                (items ++ [Line x1 y1 x2 y2 line_color;
                           Text mx my (Km d) "red"])
          end
      end
  end.

(** [draw] on a canvas of width [w] and height [h]: the canvas is cleared
    first, so the result is its whole content afterwards. *)
Definition draw (w h : Z) (labels : list string) (coords : list point)
    (edges : list edge) (highlight : bool) : list item * option Py.exc :=
  match labels, coords with
  | [], _ => ([], None)
  | _ :: _, [] => ([], None)
  | _ :: _, c :: cs =>
      if negb (Nat.eqb (List.length labels) (List.length coords))
      then ([], None)
      else
        let lats := map fst cs in
        let lons := map snd cs in
        let min_lat := py_min (fst c) lats in
        let max_lat := py_max (fst c) lats in
        let min_lon := py_min (snd c) lons in
        let max_lon := py_max (snd c) lons in
        let lat_span := Rmax (max_lat - min_lat) (/ 10 ^ 9) in
        let lon_span := Rmax (max_lon - min_lon) (/ 10 ^ 9) in
        let place := to_canvas w h min_lon max_lat lon_span lat_span in
        let '(positions, items) :=
          draw_nodes place 0 (combine labels coords) [] [] in
        let line_color := (if highlight then "#2e7d32" else "#999999")%string in
        draw_edges positions line_color edges items
  end.

End GraphDrawer.

(** Every coordinate of an item lies in the rectangle of a [w] x [h] canvas. *)
Definition on_canvas (w h : Z) (it : GraphDrawer.item) : Prop :=
  match it with
  | GraphDrawer.Oval x1 y1 x2 y2 _ | GraphDrawer.Line x1 y1 x2 y2 _ =>
      0 <= x1 <= IZR w /\ 0 <= y1 <= IZR h /\
      0 <= x2 <= IZR w /\ 0 <= y2 <= IZR h
  | GraphDrawer.Text x y _ _ => 0 <= x <= IZR w /\ 0 <= y <= IZR h
  end.

(** A position inside the margins of a [w] x [h] canvas. *)
Definition in_margins (w h : Z) (p : R * R) : Prop :=
  30 <= fst p <= IZR w - 30 /\ 30 <= snd p <= IZR h - 30.

(** * The book recommender *)

(** ** Python containers used below

    A [dict] with string keys is an association list in insertion order
    with no key twice; a [set] of strings is a list with no element twice,
    in the order the set is iterated. *)

Module Dict.

Fixpoint get {V : Type} (d : list (String.string * V)) (k : String.string)
    : option V :=
  match d with
  | [] => None
  | (k', v) :: rest => if String.eqb k' k then Some v else get rest k
  end.

(** [d[k]] as an expression *)
Definition item {V : Type} (d : list (String.string * V)) (k : String.string)
    : result V :=
  match get d k with
  | Some v => Ok v
  | None => Raise Py.KeyError
  end.

(** [d[k] = v]: an existing key keeps its place, a new one goes last. *)
Fixpoint set {V : Type} (d : list (String.string * V)) (k : String.string)
    (v : V) : list (String.string * V) :=
  match d with
  | [] => [(k, v)]
  | (k', v') :: rest =>
      if String.eqb k' k then (k', v) :: rest else (k', v') :: set rest k v
  end.

(** [del d[k]] for a key that is present *)
Fixpoint del {V : Type} (d : list (String.string * V)) (k : String.string)
    : list (String.string * V) :=
  match d with
  | [] => []
  | (k', v') :: rest =>
      if String.eqb k' k then rest else (k', v') :: del rest k
  end.

Definition keys {V : Type} (d : list (String.string * V))
    : list String.string := map fst d.

Definition values {V : Type} (d : list (String.string * V)) : list V :=
  map snd d.

End Dict.

Module PySet.

(** [x in s] *)
Definition mem (x : String.string) (s : list String.string) : bool :=
  existsb (String.eqb x) s.

(** [a & b] *)
Definition inter (a b : list String.string) : list String.string :=
  filter (fun x => mem x b) a.

(** [a | b] *)
Definition union (a b : list String.string) : list String.string :=
  a ++ filter (fun x => negb (mem x a)) b.

End PySet.

Module PyList.

(** [l[:k]]: a negative [k] counts from the end. *)
Definition take {A : Type} (k : Z) (l : list A) : list A :=
  if (0 <=? k)%Z then firstn (Z.to_nat k) l
  else firstn (length l - Z.to_nat (- k)) l.

(** One step of a stable descending sort: [x], which came before every
    element of [l], goes in front of the first element whose key is not
    larger. *)
Fixpoint insert_desc {A : Type} (key : A -> R) (x : A) (l : list A)
    : list A :=
  match l with
  | [] => [x]
  | y :: rest =>
      if Rle_dec (key y) (key x) then x :: y :: rest
      else y :: insert_desc key x rest
  end.

(** [sorted(l, key=key, reverse=True)]: descending keys, equal keys in
    their original order. *)
Definition sorted_desc {A : Type} (key : A -> R) (l : list A) : list A :=
  fold_right (insert_desc key) [] l.

End PyList.

Module RecommenderSystem.

Record Book : Type := mkBook {
  book_id : String.string;
  title : String.string;
  genre : String.string
}.

Record User : Type := mkUser {
  user_id : String.string;
  name : String.string;
  purchased_books : list String.string
}.

Definition jaccard_similarity (a b : list String.string) : R :=
  match a, b with
  | [], [] => 0
  | _, _ =>
      let inter := length (PySet.inter a b) in
      let union := length (PySet.union a b) in
      if Nat.eqb union 0 then 0 else INR inter / INR union
  end.

(** The loop of [most_similar_users] over [self.users.items()]. *)
Fixpoint similarities (target_user_id : String.string) (target : User)
    (items : list (String.string * User)) (sims : list (User * R))
    : list (User * R) :=
  match items with
  | [] => sims
  | (uid, user) :: rest =>
      if String.eqb uid target_user_id
      then similarities target_user_id target rest sims
      else
        let sim := jaccard_similarity (purchased_books target)
                                      (purchased_books user) in
        if Rlt_dec 0 sim
        then similarities target_user_id target rest (sims ++ [(user, sim)])
        else similarities target_user_id target rest sims
  end.

Definition most_similar_users (users : list (String.string * User))
    (target_user_id : String.string) (top_k : Z)
    : result (list (User * R)) :=
  match Dict.item users target_user_id with
  | Raise e => Raise e
  | Ok target =>
      let sims := similarities target_user_id target users [] in
      Ok (PyList.take top_k (PyList.sorted_desc snd sims))
  end.

(** [score_map[book_id] = score_map.get(book_id, 0.0) + sim] *)
Definition add_score (score_map : list (String.string * R))
    (book_id : String.string) (sim : R) : list (String.string * R) :=
  Dict.set score_map book_id
    (match Dict.get score_map book_id with
     | Some s => s
     | None => 0
     end + sim).

(** The inner loop over one similar user's books. *)
Fixpoint score_books (target : User) (sim : R)
    (book_ids : list String.string) (score_map : list (String.string * R))
    : list (String.string * R) :=
  match book_ids with
  | [] => score_map
  | book_id :: rest =>
      if PySet.mem book_id (purchased_books target)
      then score_books target sim rest score_map
      else score_books target sim rest (add_score score_map book_id sim)
  end.

(** The outer loop over the similar users. *)
Fixpoint score_users (target : User) (similar_users : list (User * R))
    (score_map : list (String.string * R)) : list (String.string * R) :=
  match similar_users with
  | [] => score_map
  | (user, sim) :: rest =>
      score_users target rest
        (score_books target sim (purchased_books user) score_map)
  end.

(** The last loop: ranked ids that are in the catalogue. *)
Fixpoint collect (books : list (String.string * Book))
    (ranked : list (String.string * R)) (recs : list (Book * R))
    : list (Book * R) :=
  match ranked with
  | [] => recs
  | (bid, score) :: rest =>
      match Dict.get books bid with
      | Some book => collect books rest (recs ++ [(book, score)])
      | None => collect books rest recs
      end
  end.

Definition recommend_books (users : list (String.string * User))
    (books : list (String.string * Book)) (target_user_id : String.string)
    (max_recs : Z) : result (list (Book * R)) :=
  match Dict.item users target_user_id with
  | Raise e => Raise e
  | Ok target =>
      match most_similar_users users target_user_id 3 with
      | Raise e => Raise e
      | Ok similar_users =>
          let score_map := score_users target similar_users [] in
          let ranked := PyList.sorted_desc snd score_map in
          Ok (collect books (PyList.take max_recs ranked) [])
      end
  end.

End RecommenderSystem.

(** The similarity-weighted score the recommender gives a book: the sum of
    the similarities of those similar users who bought it. *)
Definition weight (book_id : String.string)
    (similar : list (RecommenderSystem.User * R)) : R :=
  fold_right
    (fun us acc =>
       (if PySet.mem book_id (RecommenderSystem.purchased_books (fst us))
        then snd us else 0) + acc)
    0 similar.

(** ** Statements about the recommender *)

(** Descending order of a key. *)
Definition desc {A : Type} (key : A -> R) (x y : A) : Prop := key y <= key x.

(** Descending order of the second component (similarity or score). *)
Definition by_score_desc {A : Type} (x y : A * R) : Prop := snd y <= snd x.

(** [u] is another user than the target, and [s] is its positive
    similarity to the target. *)
Definition similar_to_target (target_user_id : String.string)
    (target : RecommenderSystem.User)
    (items : list (String.string * RecommenderSystem.User))
    (u : RecommenderSystem.User) (s : R) : Prop :=
  exists uid,
    In (uid, u) items /\ uid <> target_user_id /\
    s = RecommenderSystem.jaccard_similarity
          (RecommenderSystem.purchased_books target)
          (RecommenderSystem.purchased_books u) /\
    0 < s.

(** What holds of every entry of the score map: the book is not the
    target's, its score is positive, and one of the users in [similar]
    bought it. *)
Definition scored (target : RecommenderSystem.User)
    (similar : list (RecommenderSystem.User * R))
    (entry : String.string * R) : Prop :=
  ~ In (fst entry) (RecommenderSystem.purchased_books target) /\
  0 < snd entry /\
  exists u s,
    In (u, s) similar /\
    In (fst entry) (RecommenderSystem.purchased_books u).

(** [score_map.get(b, 0.0)] *)
Definition score_in (m : list (String.string * R)) (b : String.string) : R :=
  match Dict.get m b with
  | Some s => s
  | None => 0
  end.

(** [DEFAULT_USERS] and [DEFAULT_BOOKS] as [load_data] turns them into
    dictionaries, and a user as [add_update_user] creates one. *)
Module Defaults.
Import String RecommenderSystem.

Definition alice : User := mkUser "U1" "Alice" ["B1"; "B2"]%string.
Definition bob : User := mkUser "U2" "Bob" ["B2"; "B3"; "B4"]%string.
Definition charlie : User := mkUser "U3" "Charlie" ["B1"; "B4"]%string.
Definition dana : User := mkUser "U4" "Dana" [].

Definition users : list (string * User) :=
  [("U1", alice); ("U2", bob); ("U3", charlie)]%string.

Definition books : list (string * Book) :=
  [("B1", mkBook "B1" "Python Made Easy" "Programming");
   ("B2", mkBook "B2" "AI Basics" "AI");
   ("B3", mkBook "B3" "Deep Learning" "AI");
   ("B4", mkBook "B4" "Story of Night" "Fiction")]%string.

(** The two books Alice does not own. *)
Definition deep_learning : Book := mkBook "B3" "Deep Learning" "AI".
Definition story_of_night : Book := mkBook "B4" "Story of Night" "Fiction".

End Defaults.

(** * The inventory tracker *)

(** ** String methods the tracker calls

    Strings are sequences of code points below 256. *)

Module PyStr.
Import Ascii String.

(** [c.isspace()] *)
Definition is_space (c : ascii) : bool :=
  let n := nat_of_ascii c in
  orb (orb (orb (andb (Nat.leb 9 n) (Nat.leb n 13))
                (andb (Nat.leb 28 n) (Nat.leb n 32)))
           (Nat.eqb n 133))
      (Nat.eqb n 160).

Fixpoint lstrip (s : string) : string :=
  match s with
  | EmptyString => EmptyString
  | String c rest => if is_space c then lstrip rest else s
  end.

(** [s.rstrip()], by structural recursion: a suffix of spaces goes. *)
Fixpoint rstrip (s : string) : string :=
  match s with
  | EmptyString => EmptyString
  | String c rest =>
      match rstrip rest with
      | EmptyString => if is_space c then EmptyString else String c EmptyString
      | r => String c r
      end
  end.

(** [s.strip()] *)
Definition strip (s : string) : string := rstrip (lstrip s).

(** [c.lower()] *)
Definition lower_char (c : ascii) : ascii :=
  let n := nat_of_ascii c in
  if orb (andb (Nat.leb 65 n) (Nat.leb n 90))
         (andb (andb (Nat.leb 192 n) (Nat.leb n 222)) (negb (Nat.eqb n 215)))
  then ascii_of_nat (n + 32)
  else c.

(** [s.lower()] *)
Fixpoint lower (s : string) : string :=
  match s with
  | EmptyString => EmptyString
  | String c rest => String (lower_char c) (lower rest)
  end.

(** [needle in hay] *)
Fixpoint contains (needle hay : string) : bool :=
  if prefix needle hay then true
  else
    match hay with
    | EmptyString => false
    | String _ rest => contains needle rest
    end.

Definition digit_value (c : ascii) : option Z :=
  let n := nat_of_ascii c in
  if andb (Nat.leb 48 n) (Nat.leb n 57) then Some (Z.of_nat (n - 48))
  else None.

(** The digits of an integer literal; single underscores may separate
    digits. *)
Fixpoint digits (acc : Z) (after_digit : bool) (s : string) : option Z :=
  match s with
  | EmptyString => if after_digit then Some acc else None
  | String c rest =>
      match digit_value c with
      | Some d => digits (10 * acc + d) true rest
      | None =>
          if andb (Ascii.eqb c "_") after_digit
          then digits acc false rest
          else None
      end
  end.

(** The number of digit characters of a string. *)
Fixpoint count_digits (s : string) : nat :=
  match s with
  | EmptyString => 0
  | String c rest =>
      match digit_value c with
      | Some _ => S (count_digits rest)
      | None => count_digits rest
      end
  end.

(** Whether a literal with [n] digits exceeds the interpreter's limit on
    integer string conversion: [max_str_digits] is
    [sys.get_int_max_str_digits()], 0 where there is no limit (4300 unless
    changed, on the interpreters that have the limit); literals of up to
    640 digits are never refused. *)
Definition too_long (max_str_digits n : nat) : bool :=
  andb (Nat.ltb 640 n)
       (andb (Nat.ltb 0 max_str_digits) (Nat.ltb max_str_digits n)).

(** [int(s)] for a string: [None] stands for ValueError. *)
Definition to_int (max_str_digits : nat) (s : string) : option Z :=
  if too_long max_str_digits (count_digits s) then None
  else
    match strip s with
    | String "+" rest => digits 0 false rest
    | String "-" rest => option_map Z.opp (digits 0 false rest)
    | t => digits 0 false t
    end.

End PyStr.

Module Inventory.

Record InventoryItem : Type := mkItem {
  id : String.string;
  name : String.string;
  quantity : Z;
  threshold : Z;
  reorder_amount : Z;
  group : String.string;
  supplier_id : String.string;
  last_reordered : option String.string
}.

(** [InventoryItem(...)]: a new item has never been reordered. *)
Definition new_item (item_id name : String.string)
    (quantity threshold reorder_amount : Z)
    (group supplier_id : String.string) : InventoryItem :=
  mkItem item_id name quantity threshold reorder_amount group supplier_id None.

Definition needs_reorder (item : InventoryItem) : bool :=
  (quantity item <? threshold item)%Z.

(** The manager with the part of the file system it touches: the [items]
    dict; what [INVENTORY_FILE] holds ([None] when there is no such file);
    and whether [open(INVENTORY_FILE, "w")] succeeds, which it does not
    when the folder of the path is missing (the code never creates it) or
    the file may not be written.  An entry of the file is what [to_dict]
    makes of an item, which carries the same eight fields. *)
Record InventoryManager : Type := mkManager {
  items : list (String.string * InventoryItem);
  file : option (list (String.string * InventoryItem));
  writable : bool
}.

(** How a method of the manager ends: with its return value or with an
    exception, and the manager as the call leaves it. *)
Definition ended (A : Type) : Type := (result A * InventoryManager)%type.

(** [save_data]: the file is replaced by the current items, or [open]
    raises [OSError] ([FileNotFoundError], [PermissionError]) and nothing
    is written. *)
Definition save_data (m : InventoryManager) : ended unit :=
  if writable m
  then (Ok tt, mkManager (items m) (Some (items m)) (writable m))
  else (Raise Py.OSError, m).

(** [self.save_data(); return b] *)
Definition save_and_return (b : bool) (m : InventoryManager) : ended bool :=
  match save_data m with
  | (Ok _, m') => (Ok b, m')
  | (Raise e, m') => (Raise e, m')
  end.

(** [k in self.items] *)
Definition has_key (m : InventoryManager) (k : String.string) : bool :=
  match Dict.get (items m) k with
  | Some _ => true
  | None => false
  end.

Definition add_item (m : InventoryManager) (item : InventoryItem)
    : ended bool :=
  if has_key m (id item) then (Ok false, m)
  else save_and_return true
         (mkManager (Dict.set (items m) (id item) item) (file m)
                    (writable m)).

Definition update_item (m : InventoryManager) (item_id name : String.string)
    (quantity threshold reorder_amount : Z) (group : String.string)
    : ended bool :=
  match Dict.get (items m) item_id with
  | None => (Ok false, m)
  | Some item =>
      let item' := mkItem (id item) name quantity threshold reorder_amount
                          group (supplier_id item) (last_reordered item) in
      save_and_return true
        (mkManager (Dict.set (items m) item_id item') (file m) (writable m))
  end.

(** [str(item.id).strip() == str(item_id).strip()] *)
Definition same_id (item : InventoryItem) (item_id : String.string) : bool :=
  String.eqb (PyStr.strip (id item)) (PyStr.strip item_id).

(** The search loop of [delete_item]: the key of the first matching entry. *)
Fixpoint find_key (entries : list (String.string * InventoryItem))
    (item_id : String.string) : option String.string :=
  match entries with
  | [] => None
  | (key, item) :: rest =>
      if same_id item item_id then Some key else find_key rest item_id
  end.

Definition delete_item (m : InventoryManager) (item_id : String.string)
    : ended bool :=
  match find_key (items m) item_id with
  | Some key_to_delete =>
      save_and_return true
        (mkManager (Dict.del (items m) key_to_delete) (file m) (writable m))
  | None => (Ok false, m)
  end.

(** The search loop of [set_quantity] followed by [target.quantity = q]:
    the first matching item is changed where it sits. *)
Fixpoint assign_quantity (entries : list (String.string * InventoryItem))
    (item_id : String.string) (q : Z)
    : option (list (String.string * InventoryItem)) :=
  match entries with
  | [] => None
  | (key, item) :: rest =>
      if same_id item item_id
      then Some ((key, mkItem (id item) (name item) q (threshold item)
                              (reorder_amount item) (group item)
                              (supplier_id item) (last_reordered item))
                 :: rest)
      else option_map (cons (key, item)) (assign_quantity rest item_id q)
  end.

(** [set_quantity]; [max_str_digits] is the interpreter's limit on integer
    string conversion (see [PyStr.too_long]). *)
Definition set_quantity (max_str_digits : nat) (m : InventoryManager)
    (item_id new_quantity : String.string) : ended bool :=
  match find_key (items m) item_id with
  | None => (Ok false, m)
  | Some _ =>
      match PyStr.to_int max_str_digits (PyStr.strip new_quantity) with
      | None => (Ok false, m)
      | Some q =>
          if (q <? 0)%Z then (Ok false, m)
          else
            match assign_quantity (items m) item_id q with
            | Some items' =>
                save_and_return true
                  (mkManager items' (file m) (writable m))
            | None => (Ok false, m)
            end
      end
  end.

(** The attributes the search box offers. *)
Inductive field : Type :=
| by_id
| by_name
| by_group
| by_supplier_id.

(** [getattr(item, field)] *)
Definition getattr (item : InventoryItem) (f : field) : String.string :=
  match f with
  | by_id => id item
  | by_name => name item
  | by_group => group item
  | by_supplier_id => supplier_id item
  end.

Definition search (m : InventoryManager) (f : field) (text : String.string)
    : list InventoryItem :=
  let text := PyStr.lower text in
  filter (fun item => PyStr.contains text (PyStr.lower (getattr item f)))
         (Dict.values (items m)).

(** One step of a stable ascending sort by group: [x], which came before
    every element of [l], goes in front of the first element whose group is
    not smaller. *)
Fixpoint insert_by_group (x : InventoryItem) (l : list InventoryItem)
    : list InventoryItem :=
  match l with
  | [] => [x]
  | y :: rest =>
      if String.leb (group x) (group y) then x :: y :: rest
      else y :: insert_by_group x rest
  end.

(** [sorted(self.items.values(), key=lambda x: x.group)] *)
Definition sort_by_group (m : InventoryManager) : list InventoryItem :=
  fold_right insert_by_group [] (Dict.values (items m)).

End Inventory.

(** ** Statements about the inventory *)

(** No entry's item has the given id, surrounding whitespace apart. *)
Definition no_match (item_id : String.string)
    (entries : list (String.string * Inventory.InventoryItem)) : Prop :=
  forall key item,
    In (key, item) entries -> Inventory.same_id item item_id = false.

Definition stock_nonnegative (m : Inventory.InventoryManager) : Prop :=
  Forall (fun entry => (0 <= Inventory.quantity (snd entry))%Z)
         (Inventory.items m).

(** The file holds exactly the current items. *)
Definition saved (m : Inventory.InventoryManager) : Prop :=
  Inventory.file m = Some (Inventory.items m).

(** A call that raised the [OSError] of [save_data]: the manager could not
    write, and the file is as it was. *)
Definition save_failed {A : Type} (m : Inventory.InventoryManager)
    (r : Inventory.ended A) : Prop :=
  fst r = Raise Py.OSError /\
  Inventory.writable m = false /\
  Inventory.file (snd r) = Inventory.file m /\
  Inventory.writable (snd r) = false.

Definition group_le (x y : Inventory.InventoryItem) : Prop :=
  String.leb (Inventory.group x) (Inventory.group y) = true.

(** A small inventory used to instantiate the statements. *)
Module Stock.
Import String Inventory.

Definition pens : InventoryItem :=
  new_item "P1" "Pens" 40 10 50 "Stationery" "SUP1234".
Definition rice : InventoryItem :=
  new_item "G7" "Rice" 3 5 20 "Grocery" "SUP4321".
Definition shelf : InventoryManager :=
  mkManager [("P1", pens)]%string None true.
Definition counted : string := " 25 ".

End Stock.

(** * The route planner on binary64 floats

    The same three functions with Python's [float] as it is: IEEE 754
    binary64 numbers, every operation rounded.  Addition, subtraction,
    multiplication, division, square root and comparison are the kernel's;
    the C library functions behind [math.sin], [math.cos], [math.atan2] and
    float [**], whose results no standard fixes, are a parameter. *)

Module Float64.
Import PrimFloat SpecFloat FloatOps.
Local Open Scope float_scope.

(** The C library functions the interpreter calls. *)
Record libm : Type := mkLibm {
  c_sin : float -> float;
  c_cos : float -> float;
  c_atan2 : float -> float -> float;
  c_pow : float -> float -> float
}.

Definition is_finite (x : float) : bool :=
  negb (orb (is_nan x) (is_infinity x)).

(** [math_1] of the interpreter's math module, which wraps [sin], [cos]
    and [sqrt]: a NaN from a number, or an infinity from a finite number,
    is [ValueError: math domain error]. *)
Definition math_1 (f : float -> float) (x : float) : outcome float :=
  let r := f x in
  if andb (is_nan r) (negb (is_nan x)) then Raises ValueError
  else if andb (is_infinity r) (is_finite x) then Raises ValueError
  else Returns r.

(** [math_2], which wraps [atan2]: a NaN from two numbers is a
    [ValueError], an infinity from two finite numbers an [OverflowError]. *)
Definition math_2 (f : float -> float -> float) (x y : float)
    : outcome float :=
  let r := f x y in
  if andb (is_nan r) (andb (negb (is_nan x)) (negb (is_nan y)))
  then Raises ValueError
  else if andb (is_infinity r) (andb (is_finite x) (is_finite y))
  then Raises OverflowError
  else Returns r.

Definition math_sin (m : libm) : float -> outcome float := math_1 (c_sin m).
Definition math_cos (m : libm) : float -> outcome float := math_1 (c_cos m).
Definition math_sqrt : float -> outcome float := math_1 sqrt.
Definition math_atan2 (m : libm) : float -> float -> outcome float :=
  math_2 (c_atan2 m).

(** [math.pi], and the constant [math.radians] multiplies by. *)
Definition pi : float := 0x1.921fb54442d18p+1.
Definition deg_to_rad : float := pi / 180.

(** [math.radians] *)
Definition radians (deg : float) : float := deg * deg_to_rad.

(** [v ** 2] for a float [v], as [float_pow] decides it: NaN, infinities,
    zero and one are answered without the C library, a negative base is
    negated first (the exponent is even), and an infinite result of [pow]
    is an [OverflowError]. *)
Definition float_pow2 (m : libm) (v : float) : outcome float :=
  if is_nan v then Returns v
  else if is_infinity v then Returns infinity
  else if v =? 0 then Returns 0
  else
    let iv := if v <? 0 then - v else v in
    if iv =? 1 then Returns 1
    else
      let ix := c_pow m iv 2 in
      if is_infinity ix then Raises OverflowError else Returns ix.

(** A coordinate pair [(lat, lon)], in degrees. *)
Definition point : Type := (float * float)%type.

(** A destination row [(lat, lon, name)]. *)
Record destination : Type := mkDestination {
  dest_lat : float;
  dest_lon : float;
  dest_name : String.string
}.

(** [(points[i][0], points[i][1])] *)
Definition coords (p : destination) : point := (dest_lat p, dest_lon p).

(** The quantity [x] of the source, on coordinates already in radians. *)
Definition hav_x (m : libm) (lat1 lon1 lat2 lon2 : float) : outcome float :=
  let dlat := lat2 - lat1 in
  let dlon := lon2 - lon1 in
  s1 <- math_sin m (dlat / 2) ;;
  q1 <- float_pow2 m s1 ;;
  c1 <- math_cos m lat1 ;;
  c2 <- math_cos m lat2 ;;
  s2 <- math_sin m (dlon / 2) ;;
  q2 <- float_pow2 m s2 ;;
  Returns (q1 + c1 * c2 * q2).

Definition haversine (m : libm) (a b : point) : outcome float :=
  let lat1 := radians (fst a) in
  let lon1 := radians (snd a) in
  let lat2 := radians (fst b) in
  let lon2 := radians (snd b) in
  x <- hav_x m lat1 lon1 lat2 lon2 ;;
  r1 <- math_sqrt x ;;
  r2 <- math_sqrt (1 - x) ;;
  t <- math_atan2 m r1 r2 ;;
  Returns (12742 * t).

(** Coordinates a caller is expected to pass. *)
Definition in_range (p : point) : bool :=
  andb (abs (fst p) <=? 90) (abs (snd p) <=? 180).

(** The sentinel [10**9]. *)
Definition sentinel : float := 1000000000.

Module NearestNeighbourAlgorithm.

(** The inner [for i in unvisited] loop, threading [best] and [best_d]. *)
Fixpoint scan (m : libm) (current : point) (points : list destination)
    (unvisited : list nat) (best : option nat) (best_d : float)
    : outcome (option nat * float) :=
  match unvisited with
  | [] => Returns (best, best_d)
  | i :: rest =>
      p <- getitem points i ;;
      d <- haversine m current (coords p) ;;
      if d <? best_d
      then scan m current points rest (Some i) d
      else scan m current points rest best best_d
  end.

(** The [while unvisited] loop; every pass removes one index, so the
    length of [unvisited] is enough fuel. *)
Fixpoint loop (fuel : nat) (m : libm) (points : list destination)
    (unvisited : list nat) (current : point) (order : list nat)
    (total : float) : outcome (list nat * float * point) :=
  match unvisited with
  | [] => Returns (order, total, current)
  | _ :: _ =>
      match fuel with
      | O => OutOfFuel
      | S fuel' =>
          '(best, best_d) <- scan m current points unvisited None sentinel ;;
          match best with
          | None => Raises TypeError        (* points[None] *)
          | Some b =>
              p <- getitem points b ;;
              unvisited' <- list_remove b unvisited ;;
              loop fuel' m points unvisited' (coords p)
                   (order ++ [b]) (total + best_d)
          end
      end
  end.

Definition compute (m : libm) (start : point) (points : list destination)
    : outcome (list nat * float) :=
  let unvisited := range (length points) in
  '(order, total, current) <-
      loop (length unvisited) m points unvisited start [] 0 ;;
  d <- haversine m current start ;;
  Returns (order, total + d).

End NearestNeighbourAlgorithm.

Module BruteForceAlgorithm.

(** The inner [for i in perm] loop, threading [current] and [total]. *)
Fixpoint walk (m : libm) (points : list destination) (perm : list nat)
    (current : point) (total : float) : outcome (point * float) :=
  match perm with
  | [] => Returns (current, total)
  | i :: rest =>
      q <- getitem points i ;;
      let p := coords q in
      d <- haversine m current p ;;
      walk m points rest p (total + d)
  end.

(** One pass of the outer loop up to the comparison. *)
Definition tour (m : libm) (start : point) (points : list destination)
    (perm : list nat) : outcome float :=
  '(current, total) <- walk m points perm start 0 ;;
  d <- haversine m current start ;;
  Returns (total + d).

(** The outer [for perm in permutations(...)] loop. *)
Fixpoint search (m : libm) (start : point) (points : list destination)
    (perms : list (list nat)) (best_order : option (list nat))
    (best_distance : float) : outcome (option (list nat) * float) :=
  match perms with
  | [] => Returns (best_order, best_distance)
  | perm :: rest =>
      total <- tour m start points perm ;;
      if total <? best_distance
      then search m start points rest (Some perm) total
      else search m start points rest best_order best_distance
  end.

Definition compute (m : libm) (start : point) (points : list destination)
    : outcome (list nat * float) :=
  '(best_order, best_distance) <-
      search m start points (permutations (range (length points)))
             None sentinel ;;
  match best_order with
  | None => Raises TypeError               (* list(None) *)
  | Some perm => Returns (perm, best_distance)
  end.

End BruteForceAlgorithm.

(** ** build_edges (local to [App.compute]) *)

(** An edge [(i, j, d)] between nodes of the drawn graph; node 0 is the
    start and node [k] the k-th stop. *)
Definition edge : Type := (nat * nat * float)%type.

(** The [for pos, pt_idx in enumerate(order, start=1)] loop followed by the
    edge back to the start. *)
Fixpoint build_edges_from (m : libm) (start_loc : point)
    (points : list destination) (order : list nat) (pos prev_idx : nat)
    (prev_point : point) (edges : list edge) : outcome (list edge) :=
  match order with
  | [] =>
      d_back <- haversine m prev_point start_loc ;;
      Returns (edges ++ [(prev_idx, 0%nat, d_back)])
  | pt_idx :: rest =>
      q <- getitem points pt_idx ;;
      let pt := coords q in
      d <- haversine m prev_point pt ;;
      build_edges_from m start_loc points rest (S pos) pos pt
                       (edges ++ [(prev_idx, pos, d)])
  end.

Definition build_edges (m : libm) (start_loc : point)
    (points : list destination) (order : list nat) : outcome (list edge) :=
  build_edges_from m start_loc points order 1 0 start_loc [].

Definition edge_ends (e : edge) : nat * nat := fst e.
Definition edge_km (e : edge) : float := snd e.

(** ** GraphDrawer *)

Module GraphDrawer.
Import String.

(** The text of a canvas item: a node label, or a distance shown as
    [f"{d:.1f} km"]. *)
Inductive caption : Type :=
| Label (s : string)
| Km (d : float).

(** What [draw] puts on the canvas (the constant width and arrow options of
    a line are left out). *)
Inductive item : Type :=
| Oval (x1 y1 x2 y2 : float) (fill : string)
| Text (x y : float) (text : caption) (fill : string)
| Line (x1 y1 x2 y2 : float) (fill : string).

(** [min] and [max] of a non-empty list, first element apart: the value
    kept changes when a later one compares strictly below (above) it. *)
Definition py_min (x : float) (xs : list float) : float :=
  fold_left (fun best v => if v <? best then v else best) xs x.

Definition py_max (x : float) (xs : list float) : float :=
  fold_left (fun best v => if best <? v then v else best) xs x.

(** [max(d, 1e-9)] *)
Definition span (d : float) : float :=
  if d <? 0x1.12e0be826d695p-30 then 0x1.12e0be826d695p-30 else d.

(** A Python int as a float operand: rounded to nearest, [OverflowError]
    when it is too large for a float. *)
Definition float_of_int (z : Z) : result float :=
  let r := SF2Prim (binary_normalize prec emax z 0 false) in
  if is_infinity r then Raise Py.OverflowError else Ok r.

(** Float division: a zero divisor is a [ZeroDivisionError]. *)
Definition float_div (a b : float) : result float :=
  if b =? 0 then Raise Py.ZeroDivisionError else Ok (a / b).

Definition margin : Z := 30.

(** One coordinate of [to_canvas]:
    [margin + offset / span * (size - 2 * margin)]. *)
Definition scaled (offset span : float) (size : Z) : result float :=
  match float_div offset span with
  | Raise e => Raise e
  | Ok ratio =>
      match float_of_int (size - 2 * margin) with
      | Raise e => Raise e
      | Ok room => Ok (30 + ratio * room)
      end
  end.

(** The local function [to_canvas] with the variables it closes over. *)
Definition to_canvas (w h : Z) (min_lon max_lat lon_span lat_span : float)
    (lat lon : float) : result (float * float) :=
  match scaled (lon - min_lon) lon_span w with
  | Raise e => Raise e
  | Ok x =>
      match scaled (max_lat - lat) lat_span h with
      | Raise e => Raise e
      | Ok y => Ok (x, y)
      end
  end.

(** The node loop over [enumerate(zip(labels, coords))]: the positions
    recorded so far (keys 0, 1, ... in order) and the items drawn; an
    exception leaves what was drawn before it. *)
Fixpoint draw_nodes (place : float -> float -> result (float * float))
    (i : nat) (rows : list (string * point)) (positions : list (float * float))
    (items : list item)
    : list (float * float) * list item * option Py.exc :=
  match rows with
  | [] => (positions, items, None)
  | (label, (lat, lon)) :: rest =>
      match place lat lon with
      | Raise e => (positions, items, Some e)
      | Ok (x, y) =>
          draw_nodes place (S i) rest (positions ++ [(x, y)])
            (items ++ [Oval (x - 15) (y - 15) (x + 15) (y + 15)
                            (if Nat.eqb i 0 then "#ff7043" else "#4aa3ff");
                       Text x (y - 22) (Label label) "black"])
      end
  end.

(** [positions[i]]: a missing key is a KeyError. *)
Definition position (positions : list (float * float)) (i : nat)
    : result (float * float) :=
  match nth_error positions i with
  | Some p => Ok p
  | None => Raise Py.KeyError
  end.

(** The edge loop. *)
Fixpoint draw_edges (positions : list (float * float)) (line_color : string)
    (edges : list edge) (items : list item) : list item * option Py.exc :=
  match edges with
  | [] => (items, None)
  | (i, j, d) :: rest =>
      match position positions i with
      | Raise e => (items, Some e)
      | Ok (x1, y1) =>
          match position positions j with
          | Raise e => (items, Some e)
          | Ok (x2, y2) =>
              let mx := (x1 + x2) / 2 in
              let my := (y1 + y2) / 2 in
              draw_edges positions line_color rest
                (items ++ [Line x1 y1 x2 y2 line_color;
                           Text mx my (Km d) "red"])
          end
      end
  end.

(** [draw] on a canvas of width [w] and height [h]: the canvas is cleared
    first, so the result is its whole content afterwards. *)
Definition draw (w h : Z) (labels : list string) (coords : list point)
    (edges : list edge) (highlight : bool) : list item * option Py.exc :=
  match labels, coords with
  | [], _ => ([], None)
  | _ :: _, [] => ([], None)
  | _ :: _, c :: cs =>
      if negb (Nat.eqb (List.length labels) (List.length coords))
      then ([], None)
      else
        let lats := map fst cs in
        let lons := map snd cs in
        let min_lat := py_min (fst c) lats in
        let max_lat := py_max (fst c) lats in
        let min_lon := py_min (snd c) lons in
        let max_lon := py_max (snd c) lons in
        let lat_span := span (max_lat - min_lat) in
        let lon_span := span (max_lon - min_lon) in
        let place := to_canvas w h min_lon max_lat lon_span lat_span in
        match draw_nodes place 0 (combine labels coords) [] [] with
        | (_, items, Some e) => (items, Some e)
        | (positions, items, None) =>
            let line_color :=
              (if highlight then "#2e7d32" else "#999999")%string in
            draw_edges positions line_color edges items
        end
  end.

End GraphDrawer.


(** ** Words for the statements *)

(** The coordinates of destination [i]; the default is unused for an index
    below the number of destinations. *)
Definition point_at (points : list destination) (i : nat) : point :=
  match nth_error points i with
  | Some q => coords q
  | None => (0, 0)
  end.

(** The legs of a round trip, as pairs (from, to): from the current
    position through the stops and back to the start. *)
Fixpoint legs_from (current : point) (stops : list point) (start : point)
    : list (point * point) :=
  match stops with
  | [] => [(current, start)]
  | p :: rest => (current, p) :: legs_from p rest start
  end.

Definition trip (start : point) (points : list destination)
    (order : list nat) : list (point * point) :=
  legs_from start (map (point_at points) order) start.

(** Adding distances one after the other, as both solvers do. *)
Definition add_up (total : float) (kms : list float) : float :=
  fold_left add kms total.



End Float64.

(** ** A pair of points almost opposite each other

    (8, 0) and (-8, 180) are in range, and the squared sine and cosine of
    the latitude add up, rounded, to the float above 1. *)

Module Antipodal.
Import PrimFloat String.
Local Open Scope float_scope.

Definition start : Float64.point := (8, 0).
Definition stop : Float64.destination :=
  Float64.mkDestination (-8) 180 "far side"%string.

(** The values of the C library that [haversine start (coords stop)]
    asks for, as the interpreter shows them:
    [math.sin(-0.13962634015954636) = -0.13917310096006544],
    [math.sin(1.5707963267948966) = 1.0],
    [math.cos(0.13962634015954636) = math.cos(-0.13962634015954636)
     = 0.9902680687415704] and
    [0.13917310096006544 ** 2 = 0.019369152030840567]. *)
Definition measured (m : Float64.libm) : Prop :=
  Float64.c_sin m (-0x1.1df46a2529d39p-3) = -0x1.1d06c968d9e19p-3 /\
  Float64.c_sin m 0x1.921fb54442d18p+0 = 1 /\
  Float64.c_cos m 0x1.1df46a2529d39p-3 = 0x1.fb046a930947ap-1 /\
  Float64.c_cos m (-0x1.1df46a2529d39p-3) = 0x1.fb046a930947ap-1 /\
  Float64.c_pow m 0x1.1d06c968d9e19p-3 2 = 0x1.3d581ca184804p-6.

End Antipodal.

(** * The route planner window *)

Module App.
Import String.
Local Open Scope string_scope.

(** A line inserted into the output box: a heading, one stop
    [" -> {label} ({address})"], or a total shown as [f"{total:.2f}"]. *)
Inductive out_line : Type :=
| Heading (text : string)
| Stop (label address : string)
| Total (km : PrimFloat.float).

(** The fields of the window the handlers below read or write; an
    attribute not assigned yet is [None]. *)
Record state : Type := mkApp {
  api_entry : string;
  start_entry : string;
  loc_postcode_entry : string;
  loc_label_entry : string;
  locations_list : list string;
  destinations_raw : list string;
  labels_raw : list string;
  start_loc : option Float64.point;
  points : option (list Float64.destination);
  point_labels : option (list string);
  order_nn : option (list nat);
  order_bf : option (list nat);
  out_box : list out_line;
  nn_canvas : list Float64.GraphDrawer.item;
  bf_canvas : list Float64.GraphDrawer.item
}.

(** How a handler ends: normally, after an error box, or with what a
    solver, [build_edges] or a lookup ended in. *)
Inductive finish : Type :=
| Finished
| ErrorBox (title message : string)
| SolverFailed (o : outcome (list nat * PrimFloat.float))
| EdgesFailed (o : outcome (list Float64.edge))
| LookupRaised (e : Py.exc).

(** [str(n)] for a non-negative integer *)
Definition str_of_nat (n : nat) : string :=
  DecimalString.NilEmpty.string_of_uint (Nat.to_uint n).




(** What the geocoding service answers: coordinates and an address, or
    nothing usable. *)
Definition answer : Type := option (PrimFloat.float * PrimFloat.float * string).

(** The geocoding loop of [compute]; [call] counts the requests made so
    far.  On a failure: the rows appended before it and the query. *)
Fixpoint geocode_all (geocode : nat -> string -> answer)
    (call : nat) (dests : list string) (rows : list Float64.destination)
    : list Float64.destination * option string :=
  match dests with
  | [] => (rows, None)
  | d :: rest =>
      match geocode call d with
      | None => (rows, Some d)
      | Some (lat, lon, address) =>
          geocode_all geocode (S call) rest
                      (rows ++ [Float64.mkDestination lat lon address])%list
      end
  end.

(** [[f"Location {i+1}" for i in range(n)]] *)
Definition default_labels (n : nat) : list string :=
  map (fun i => "Location " ++ str_of_nat (i + 1)) (range n).

(** The loop writing one line per stop of an order. *)
Fixpoint stop_lines (labels : list string) (rows : list Float64.destination)
    (order : list nat) (box : list out_line)
    : list out_line * option Py.exc :=
  match order with
  | [] => (box, None)
  | idx :: rest =>
      match nth_error labels idx, nth_error rows idx with
      | Some label, Some row =>
          stop_lines labels rows rest
                     (box ++ [Stop label (Float64.dest_name row)])%list
      | _, _ => (box, Some Py.IndexError)
      end
  end.

(** The label of the start node. *)
Definition start_name : string := "Start".

Definition canvas_width : Z := 800.
Definition canvas_height : Z := 400.

(** [compute]; [geocode api call query] is what the geocoding service
    answers to the [call]-th request of this run. *)
Definition compute (m : Float64.libm)
    (geocode : option string -> nat -> string -> answer)
    (a : state) : state * finish :=
  let api :=
    if String.eqb (PyStr.strip (api_entry a)) "" then None
    else Some (PyStr.strip (api_entry a)) in
  let start_q := PyStr.strip (start_entry a) in
  let dests := destinations_raw a in
  let raw_labels := labels_raw a in
  if String.eqb start_q "" then
    (a, ErrorBox "Missing" "Start address required")
  else
    match dests with
    | [] => (a, ErrorBox "Missing" "Need at least one destination")
    | _ :: _ =>
        match geocode api 0%nat start_q with
        | None => (a, ErrorBox "Error" "Failed geocoding start")
        | Some (lat, lon, _) =>
            let start := (lat, lon) in
            let with_rows (rows : option (list Float64.destination))
                          (labels : option (list string))
                          (nn bf : option (list nat))
                          (box : list out_line)
                          (c1 c2 : list Float64.GraphDrawer.item) : state :=
              mkApp (api_entry a) (start_entry a) (loc_postcode_entry a)
                    (loc_label_entry a) (locations_list a)
                    (destinations_raw a) (labels_raw a)
                    (Some start) rows labels nn bf box c1 c2 in
            match geocode_all (geocode api) 1 dests [] with
            | (rows, Some d) =>
                (with_rows (Some rows) (point_labels a) (order_nn a)
                           (order_bf a) (out_box a) (nn_canvas a)
                           (bf_canvas a),
                 ErrorBox "Error" ("Failed geocoding " ++ d))
            | (rows, None) =>
                let labels :=
                  match raw_labels with
                  | [] => default_labels (List.length rows)
                  | _ :: _ =>
                      if Nat.eqb (List.length raw_labels) (List.length rows)
                      then raw_labels
                      else default_labels (List.length rows)
                  end in
                match Float64.NearestNeighbourAlgorithm.compute m start rows
                with
                | Returns (order_nn', dist_nn) =>
                    match Float64.BruteForceAlgorithm.compute m start rows
                    with
                    | Returns (order_bf', dist_bf) =>
                        let done := with_rows (Some rows) (Some labels)
                                              (Some order_nn')
                                              (Some order_bf') in
                        match stop_lines labels rows order_nn'
                                         [Heading "Nearest Neighbour:"] with
                        | (box, Some e) =>
                            (done box (nn_canvas a) (bf_canvas a),
                             LookupRaised e)
                        | (box, None) =>
                            match stop_lines labels rows order_bf'
                                    (box ++ [Total dist_nn;
                                             Heading "Brute Force:"])%list
                            with
                            | (box, Some e) =>
                                (done box (nn_canvas a) (bf_canvas a),
                                 LookupRaised e)
                            | (box, None) =>
                                let box := (box ++ [Total dist_bf])%list in
                                let names := start_name :: labels in
                                let coords :=
                                  start :: map Float64.coords rows in
                                match Float64.build_edges m start rows
                                        order_nn' with
                                | Returns nn_edges =>
                                    match Float64.build_edges m start rows
                                            order_bf' with
                                    | Returns bf_edges =>
                                        let '(c1, e1) :=
                                          Float64.GraphDrawer.draw
                                            canvas_width canvas_height names
                                            coords nn_edges true in
                                        match e1 with
                                        | Some e =>
                                            (done box c1 (bf_canvas a),
                                             LookupRaised e)
                                        | None =>
                                            let '(c2, e2) :=
                                              Float64.GraphDrawer.draw
                                                canvas_width canvas_height
                                                names coords bf_edges true in
                                            (done box c1 c2,
                                             match e2 with
                                             | Some e => LookupRaised e
                                             | None => Finished
                                             end)
                                        end
                                    | failed =>
                                        (done box (nn_canvas a) (bf_canvas a),
                                         EdgesFailed failed)
                                    end
                                | failed =>
                                    (done box (nn_canvas a) (bf_canvas a),
                                     EdgesFailed failed)
                                end
                            end
                        end
                    | failed =>
                        (with_rows (Some rows) (Some labels) (Some order_nn')
                                   (order_bf a) (out_box a) (nn_canvas a)
                                   (bf_canvas a),
                         SolverFailed failed)
                    end
                | failed =>
                    (with_rows (Some rows) (Some labels) (order_nn a)
                               (order_bf a) (out_box a) (nn_canvas a)
                               (bf_canvas a),
                     SolverFailed failed)
                end
            end
        end
    end.

(** ** Words for the statements *)



Import PrimFloat.





End App.

(** Every index is below [n]. *)
Definition indices_below (n : nat) (order : list nat) : Prop :=
  Forall (fun i => (i < n)%nat) order.

(** The node pairs of the edges [build_edges] adds from position [pos] on,
    [n] stops being left. *)
Fixpoint chain (prev pos n : nat) : list (nat * nat) :=
  match n with
  | O => [(prev, 0%nat)]
  | S n' => (prev, pos) :: chain pos (S pos) n'
  end.

(** An arithmetic exception of [haversine]. *)
Definition arithmetic (e : exn) : Prop := e = ValueError \/ e = OverflowError.

(** A step that returns or stops on an arithmetic exception. *)
Definition sound {A : Type} (o : outcome A) : Prop :=
  (exists v, o = Returns v) \/ (exists e, arithmetic e /\ o = Raises e).

(** Edge [e] carries the distance [haversine] returns for [leg]. *)
Definition measures (m : Float64.libm) (e : Float64.edge)
    (leg : Float64.point * Float64.point) : Prop :=
  Float64.haversine m (fst leg) (snd leg) = Returns (Float64.edge_km e).

(** How a solver can end: with a result, with [TypeError] (nothing came
    below the sentinel) or on an arithmetic exception of [haversine]. *)
Definition solver_exit {A : Type} (o : outcome A) : Prop :=
  (exists r, o = Returns r) \/ o = Raises TypeError \/
  (exists e, arithmetic e /\ o = Raises e).

(** ** What the solvers keep, in words *)

(** [d] is the distance [haversine] returns from [current] to destination
    [j]. *)
Definition distance_to (m : Float64.libm) (points : list Float64.destination)
    (current : Float64.point) (j : nat) (d : PrimFloat.float) : Prop :=
  Float64.haversine m current (Float64.point_at points j) = Returns d.

(** Among the candidates, destination [b] at distance [d] is the nearest,
    the one of lowest index on a tie: [d] is below the sentinel; every
    candidate has a distance, and none is below [d]; and the distance of a
    candidate of lower index is not even equal to [d] (it is above [d], or
    not a number). *)
Definition nearest (m : Float64.libm) (points : list Float64.destination)
    (current : Float64.point) (unvisited : list nat) (b : nat)
    (d : PrimFloat.float) : Prop :=
  In b unvisited /\
  distance_to m points current b d /\
  PrimFloat.ltb d Float64.sentinel = true /\
  forall j, In j unvisited ->
    exists dj,
      distance_to m points current j dj /\
      PrimFloat.ltb dj d = false /\
      ((j < b)%nat -> PrimFloat.leb dj d = false).

(** The nearest-neighbour rule on float distances: while candidates
    remain, the next stop is the nearest one; it leaves the candidates and
    becomes the current position. *)
Inductive nearest_first (m : Float64.libm)
    (points : list Float64.destination)
    : list nat -> Float64.point -> list nat -> Prop :=
| nearest_first_done current : nearest_first m points [] current []
| nearest_first_next unvisited current b d rest :
    nearest m points current unvisited b d ->
    nearest_first m points (remove Nat.eq_dec b unvisited)
                  (Float64.point_at points b) rest ->
    nearest_first m points unvisited current (b :: rest).

(** Of the visiting orders [perms], taken in this order, [order] with the
    round-trip total [total] is the first minimum: [total] is below the
    sentinel; every order has a total, and none is below [total]; and the
    total of an order that comes earlier is not even equal to [total]. *)
Definition first_minimum (m : Float64.libm) (start : Float64.point)
    (points : list Float64.destination) (perms : list (list nat))
    (order : list nat) (total : PrimFloat.float) : Prop :=
  exists before after,
    perms = before ++ order :: after /\
    Float64.BruteForceAlgorithm.tour m start points order = Returns total /\
    PrimFloat.ltb total Float64.sentinel = true /\
    (forall q, In q before ->
       exists t,
         Float64.BruteForceAlgorithm.tour m start points q = Returns t /\
         PrimFloat.leb t total = false) /\
    (forall q, In q after ->
       exists t,
         Float64.BruteForceAlgorithm.tour m start points q = Returns t /\
         PrimFloat.ltb t total = false).

(** [total] is what adding the distances of the legs of the round trip of
    [order], one after the other from 0, gives. *)
Definition round_trip_total (m : Float64.libm) (start : Float64.point)
    (points : list Float64.destination) (order : list nat)
    (total : PrimFloat.float) : Prop :=
  exists kms,
    Forall2 (fun km leg =>
               Float64.haversine m (fst leg) (snd leg) = Returns km)
            kms (Float64.trip start points order) /\
    Float64.add_up PrimFloat.zero kms = total.

(** The places of a request: the start and the destinations. *)
Definition places (start : Float64.point)
    (points : list Float64.destination) : list Float64.point :=
  start :: map Float64.coords points.

(** Between any two places of the request [haversine] returns a distance
    below the sentinel. *)
Definition measurable (m : Float64.libm) (start : Float64.point)
    (points : list Float64.destination) : Prop :=
  forall a b,
    In a (places start points) -> In b (places start points) ->
    exists d,
      Float64.haversine m a b = Returns d /\
      PrimFloat.ltb d Float64.sentinel = true.

(** ** A start and two stops east of London

    Used to instantiate the statements.  [libm] holds the values of the C
    library at the arguments that runs on these three points (and on the
    pair above) ask for, as the interpreter returns them, and 0
    elsewhere. *)

Module Measured.
Import PrimFloat String.
Local Open Scope float_scope.

Definition libm : Float64.libm :=
  Float64.mkLibm
    (fun x =>
       if x =? (-0x1.921fb54442d18p+0) then -1 else
       if x =? (-0x1.1df46a2529d39p-3) then -0x1.1d06c968d9e19p-3 else
       if x =? (-0x1.4169c3154aa93p-10) then -0x1.4169bdce37544p-10 else
       if x =? (-0x1.99f1d94bce308p-11) then -0x1.99f1d68efd029p-11 else
       if x =? (-0x1.d1c359bd8e43cp-12) then -0x1.d1c358bc98bbap-12 else
       if x =? (-0x1.095db25fed800p-12) then -0x1.095db2306796dp-12 else
       if x =? (-0x1.371e6732ac800p-13) then -0x1.371e671f8704ap-13 else
       if x =? (-0x1.b739fb1a5d000p-14) then -0x1.b739fb0ce51a3p-14 else
       if x =? 0 then 0 else
       if x =? 0x1.b739fb1a5d000p-14 then 0x1.b739fb0ce51a3p-14 else
       if x =? 0x1.371e6732ac800p-13 then 0x1.371e671f8704ap-13 else
       if x =? 0x1.095db25fed800p-12 then 0x1.095db2306796dp-12 else
       if x =? 0x1.d1c359bd8e43cp-12 then 0x1.d1c358bc98bbap-12 else
       if x =? 0x1.99f1d94bce308p-11 then 0x1.99f1d68efd029p-11 else
       if x =? 0x1.4169c3154aa93p-10 then 0x1.4169bdce37544p-10 else
       if x =? 0x1.1df46a2529d39p-3 then 0x1.1d06c968d9e19p-3 else
       if x =? 0x1.921fb54442d18p+0 then 1 else
       0)
    (fun x =>
       if x =? (-0x1.1df46a2529d39p-3) then 0x1.fb046a930947ap-1 else
       if x =? 0x1.1df46a2529d39p-3 then 0x1.fb046a930947ap-1 else
       if x =? 0x1.ccf006ab541e6p-1 then 0x1.3e2810b7d0d9fp-1 else
       if x =? 0x1.cd0b7a4b05c43p-1 then 0x1.3e128e28fbcd2p-1 else
       if x =? 0x1.cd325e17ec19cp-1 then 0x1.3df413a3499c6p-1 else
       0)
    (fun y x =>
       if andb (y =? 0) (x =? 1) then 0 else
       if andb (y =? 0x1.3584eb99ff130p-12) (x =? 0x1.fffffe89c5d9bp-1) then 0x1.3584ebe568283p-12 else
       if andb (y =? 0x1.0a3d395c4bc1bp-11) (x =? 0x1.fffffbac72d3fp-1) then 0x1.0a3d3a1c455a7p-11 else
       if andb (y =? 0x1.a4ca5e6591d00p-11) (x =? 0x1.fffff5315d4bfp-1) then 0x1.a4ca615b7ed51p-11 else
       0)
    (fun x y =>
       if andb (x =? 0x1.b739fb0ce51a3p-14) (y =? 2) then 0x1.78cbf413fdd81p-27 else
       if andb (x =? 0x1.371e671f8704ap-13) (y =? 2) then 0x1.7a1ae22aeefb4p-26 else
       if andb (x =? 0x1.095db2306796dp-12) (y =? 2) then 0x1.13131d3329a8dp-24 else
       if andb (x =? 0x1.d1c358bc98bbap-12) (y =? 2) then 0x1.a7b39eb6b8764p-23 else
       if andb (x =? 0x1.99f1d68efd029p-11) (y =? 2) then 0x1.483b520548befp-21 else
       if andb (x =? 0x1.4169bdce37544p-10) (y =? 2) then 0x1.938a59ac66a4dp-20 else
       if andb (x =? 0x1.1d06c968d9e19p-3) (y =? 2) then 0x1.3d581ca184804p-6 else
       0).

(** (51.5816, 0.1837), (51.6106, 0.3242) and (51.5936, 0.2346) *)
Definition romford : Float64.point :=
  (0x1.9ca71de69ad43p+5, 0x1.7837b4a2339c1p-3).
Definition brentwood : Float64.destination :=
  Float64.mkDestination 0x1.9ce28240b7803p+5 0x1.4bfb15b573eabp-2
                        "Brentwood"%string.
Definition harold_wood : Float64.destination :=
  Float64.mkDestination 0x1.9cbfb15b573ebp+5 0x1.e075f6fd21ff3p-3
                        "Harold Wood"%string.

(** A geocoding service that knows these three places. *)
Definition geocode (api : option string) (call : nat) (query : string)
    : App.answer :=
  if String.eqb query "RM1 4AN"
  then Some (fst romford, snd romford, "Romford"%string)
  else if String.eqb query "CM13 3ES"
  then Some (Float64.dest_lat brentwood, Float64.dest_lon brentwood,
             Float64.dest_name brentwood)
  else if String.eqb query "RM3 0AG"
  then Some (Float64.dest_lat harold_wood, Float64.dest_lon harold_wood,
             Float64.dest_name harold_wood)
  else None.



End Measured.

(** * Facts about the distance model *)

Section Haversine.

Lemma sin_half_sq (d : R) : sin (d / 2) ^ 2 = (1 - cos d) / 2.
Proof.
  replace (cos d) with (cos (2 * (d / 2))) by (f_equal; lra).
  rewrite cos_2a_sin. simpl. lra.
Qed.

Lemma sin_sq_bounds (t : R) : 0 <= sin t ^ 2 <= 1.
Proof.
  pose proof (SIN_bound t) as [Hl Hu]. simpl. split; nra.
Qed.

(** [x] is a convex combination of [(1 - cos (lat2 - lat1)) / 2] and
    [(1 + cos (lat1 + lat2)) / 2], whatever the coordinates. *)
Lemma hav_x_bounds (lat1 lon1 lat2 lon2 : R) :
  0 <= hav_x lat1 lon1 lat2 lon2 <= 1.
Proof.
  unfold hav_x.
  rewrite (sin_half_sq (lat2 - lat1)).
  pose proof (sin_sq_bounds ((lon2 - lon1) / 2)) as Hs.
  set (s := sin ((lon2 - lon1) / 2) ^ 2) in *.
  pose proof (COS_bound (lat2 - lat1)) as Hm.
  pose proof (COS_bound (lat2 + lat1)) as Hp.
  rewrite cos_minus in Hm. rewrite cos_plus in Hp.
  rewrite cos_minus.
  set (C1 := cos lat1) in *. set (C2 := cos lat2) in *.
  set (S1 := sin lat1) in *. set (S2 := sin lat2) in *.
  split; nra.
Qed.

Lemma hav_x_sym (lat1 lon1 lat2 lon2 : R) :
  hav_x lat1 lon1 lat2 lon2 = hav_x lat2 lon2 lat1 lon1.
Proof.
  unfold hav_x.
  rewrite !sin_half_sq.
  replace (lat1 - lat2) with (- (lat2 - lat1)) by lra.
  replace (lon1 - lon2) with (- (lon2 - lon1)) by lra.
  rewrite !cos_neg. lra.
Qed.

Lemma hav_x_same (lat lon : R) : hav_x lat lon lat lon = 0.
Proof.
  unfold hav_x. rewrite !Rminus_diag.
  replace (0 / 2) with 0 by lra. rewrite sin_0. simpl. lra.
Qed.

Lemma py_sqrt_nonneg (x : R) : 0 <= x -> PyMath.sqrt x = Returns (sqrt x).
Proof.
  intros Hx. unfold PyMath.sqrt. destruct (Rlt_dec x 0); [lra | reflexivity].
Qed.

(** In exact arithmetic neither square root can fail. *)
Lemma haversine_returns (a b : point) : haversine a b = Returns (hav a b).
Proof.
  unfold haversine, hav.
  set (x := hav_x _ _ _ _).
  pose proof (hav_x_bounds (PyMath.radians (fst a)) (PyMath.radians (snd a))
                (PyMath.radians (fst b)) (PyMath.radians (snd b))) as Hx.
  fold x in Hx.
  rewrite (py_sqrt_nonneg (x:=x)) by lra. simpl.
  rewrite (py_sqrt_nonneg (x:=1 - x)) by lra. reflexivity.
Qed.

Lemma atan2_first_quadrant (y x : R) :
  0 <= y -> 0 <= x -> 0 <= PyMath.atan2 y x <= PI / 2.
Proof.
  intros Hy Hx. pose proof PI_RGT_0 as Hpi. unfold PyMath.atan2.
  destruct (Rlt_dec 0 x) as [Hx0 | Hx0].
  - pose proof (atan_bound (y / x)) as [_ Hub].
    split; [| lra].
    rewrite <- atan_0.
    destruct (Req_dec y 0) as [-> | Hy0].
    + unfold Rdiv. rewrite Rmult_0_l. lra.
    + left. apply atan_increasing. apply Rdiv_lt_0_compat; lra.
  - destruct (Rlt_dec x 0); [lra |].
    destruct (Rlt_dec 0 y); [lra |].
    destruct (Rlt_dec y 0); lra.
Qed.

Lemma hav_bounds (a b : point) : 0 <= hav a b <= 6371 * PI.
Proof.
  unfold hav. set (x := hav_x _ _ _ _).
  pose proof (atan2_first_quadrant (sqrt_pos x) (sqrt_pos (1 - x))) as [Hl Hu].
  split; nra.
Qed.

(** No single leg reaches the sentinel, nor even 25484 km. *)
Lemma hav_le_leg (a b : point) : hav a b <= 25484.
Proof.
  pose proof (hav_bounds a b) as [_ Hu]. pose proof PI_4. lra.
Qed.

Lemma sentinel_value : sentinel = 1000000000.
Proof. unfold sentinel. lra. Qed.

Lemma hav_lt_sentinel (a b : point) : hav a b < sentinel.
Proof.
  rewrite sentinel_value. pose proof (hav_le_leg a b). lra.
Qed.

Lemma hav_sym (a b : point) : hav a b = hav b a.
Proof.
  unfold hav. now rewrite hav_x_sym.
Qed.

Lemma hav_same (a : point) : hav a a = 0.
Proof.
  unfold hav. rewrite hav_x_same, Rminus_0_r, sqrt_0, sqrt_1.
  unfold PyMath.atan2. destruct (Rlt_dec 0 1); [| lra].
  unfold Rdiv. rewrite Rmult_0_l, atan_0. lra.
Qed.

End Haversine.

(** * Facts about the enumeration of permutations *)

Section Enumeration.

Context {A : Type}.

Lemma selections_perm (l : list A) (x : A) (r : list A) :
  In (x, r) (selections l) -> Permutation l (x :: r).
Proof.
  revert x r. induction l as [| y ys IH]; intros x r Hin; simpl in Hin.
  - contradiction.
  - destruct Hin as [Heq | Hin].
    + inversion Heq; subst. reflexivity.
    + apply in_map_iff in Hin as [[z zs] [Heq Hin]].
      simpl in Heq. inversion Heq; subst.
      rewrite (IH _ _ Hin). apply perm_swap.
Qed.

Lemma selections_length (l : list A) (x : A) (r : list A) :
  In (x, r) (selections l) -> length l = S (length r).
Proof.
  intros Hin. apply selections_perm in Hin.
  now rewrite (Permutation_length Hin).
Qed.

Lemma selections_complete (l : list A) (x : A) :
  In x l -> exists r, In (x, r) (selections l).
Proof.
  induction l as [| y ys IH]; intros Hin; simpl in *.
  - contradiction.
  - destruct Hin as [-> | Hin].
    + exists ys. now left.
    + destruct (IH Hin) as [r Hr]. exists (y :: r). right.
      apply in_map_iff. exists (x, r). auto.
Qed.

Lemma perms_upto_sound (n : nat) :
  forall (l p : list A),
    length l = n -> In p (perms_upto n l) -> Permutation p l.
Proof.
  induction n as [| n IH]; intros l p Hlen Hin; simpl in Hin.
  - destruct Hin as [<- | []]. destruct l; [reflexivity | discriminate].
  - apply in_flat_map in Hin as [[x r] [Hsel Hin]]. simpl in Hin.
    apply in_map_iff in Hin as [p' [<- Hp']].
    pose proof (selections_length _ _ _ Hsel) as Hl.
    rewrite (selections_perm _ _ _ Hsel).
    constructor. apply IH; [lia | assumption].
Qed.

Lemma perms_upto_complete (n : nat) :
  forall (l p : list A),
    length l = n -> Permutation p l -> In p (perms_upto n l).
Proof.
  induction n as [| n IH]; intros l p Hlen Hperm; simpl.
  - destruct l; [| discriminate].
    apply Permutation_sym, Permutation_nil in Hperm. now left.
  - destruct p as [| x p'].
    { apply Permutation_length in Hperm. simpl in Hperm. lia. }
    assert (Hx : In x l).
    { apply (Permutation_in _ Hperm). now left. }
    destruct (selections_complete _ _ Hx) as [r Hsel].
    apply in_flat_map. exists (x, r). split; [assumption |]. simpl.
    apply in_map. apply IH.
    + apply selections_length in Hsel. lia.
    + apply selections_perm in Hsel.
      apply Permutation_cons_inv with (a := x).
      now rewrite Hperm.
Qed.

(** The enumeration holds exactly the orderings of the pool. *)
Lemma permutations_spec (pool p : list A) :
  In p (permutations pool) <-> Permutation p pool.
Proof.
  unfold permutations. split.
  - now apply perms_upto_sound.
  - now apply perms_upto_complete.
Qed.

End Enumeration.

Section LexOrder.

Lemma sorted_app_iff {B : Type} (Rel : B -> B -> Prop) (l1 l2 : list B) :
  StronglySorted Rel (l1 ++ l2) <->
  StronglySorted Rel l1 /\ StronglySorted Rel l2 /\
  (forall a b, In a l1 -> In b l2 -> Rel a b).
Proof.
  induction l1 as [| x l1 IH]; simpl.
  - split.
    + intros H. repeat split; [constructor | assumption | contradiction].
    + now intros (_ & H & _).
  - split.
    + intros H. inversion H as [| ? ? Hs Hf]; subst.
      apply IH in Hs as (H1 & H2 & H12).
      rewrite Forall_app in Hf. destruct Hf as [Hf1 Hf2].
      repeat split; [now constructor | assumption |].
      intros a b [<- | Ha] Hb.
      * rewrite Forall_forall in Hf2. now apply Hf2.
      * now apply H12.
    + intros (H1 & H2 & H12).
      inversion H1 as [| ? ? Hs Hf]; subst.
      constructor.
      * apply IH. repeat split; auto.
      * rewrite Forall_app. split; [assumption |].
        apply Forall_forall. intros b Hb. apply H12; auto.
Qed.

Lemma sorted_map_cons (x : nat) (l : list (list nat)) :
  StronglySorted lex_lt l -> StronglySorted lex_lt (map (cons x) l).
Proof.
  induction 1 as [| p l Hs IH Hf]; simpl; constructor; [assumption |].
  rewrite Forall_map. eapply Forall_impl; [| exact Hf].
  intros q Hq. now apply lex_lt_tail.
Qed.

(** A selection from a sorted pool: the rest stays sorted, and the heads
    come out in increasing order. *)
Lemma selections_sorted (l : list nat) :
  StronglySorted lt l ->
  Forall (fun s => StronglySorted lt (snd s)) (selections l) /\
  StronglySorted (fun s t => (fst s < fst t)%nat) (selections l) /\
  Forall (fun s => In (fst s) l) (selections l).
Proof.
  induction 1 as [| x xs Hs IH Hf]; simpl.
  - repeat split; constructor.
  - destruct IH as (IH1 & IH2 & IH3).
    rewrite Forall_forall in Hf, IH1, IH3.
    repeat split.
    + constructor; [simpl; exact Hs |].
      rewrite Forall_map. apply Forall_forall. intros [y ys] Hin. simpl.
      constructor; [exact (IH1 _ Hin) |].
      apply Forall_forall. intros z Hz. apply Hf.
      apply selections_perm in Hin.
      apply (Permutation_in z (Permutation_sym Hin)). now right.
    + constructor.
      * clear - IH2. induction IH2 as [| s l Hs' IH Hf']; simpl; constructor.
        -- assumption.
        -- rewrite Forall_map. eapply Forall_impl; [| exact Hf'].
           intros t Ht. exact Ht.
      * rewrite Forall_map. apply Forall_forall. intros [y ys] Hin. simpl.
        apply Hf. exact (IH3 _ Hin).
    + constructor; [simpl; now left |].
      rewrite Forall_map. apply Forall_forall. intros s Hin. simpl.
      right. exact (IH3 _ Hin).
Qed.

Lemma perms_upto_sorted (n : nat) :
  forall l : list nat,
    StronglySorted lt l -> StronglySorted lex_lt (perms_upto n l).
Proof.
  induction n as [| n IH]; intros l Hl; simpl.
  - repeat constructor.
  - destruct (selections_sorted Hl) as (Hrest & Hheads & _).
    induction Hheads as [| s sels Hs IHs Hf]; simpl; [constructor |].
    inversion Hrest as [| ? ? Hr1 Hr2]; subst.
    apply sorted_app_iff. repeat split.
    + apply sorted_map_cons. now apply IH.
    + now apply IHs.
    + intros a b Ha Hb.
      apply in_map_iff in Ha as [a' [<- _]].
      apply in_flat_map in Hb as [t [Ht Hb]].
      apply in_map_iff in Hb as [b' [<- _]].
      apply lex_lt_head. rewrite Forall_forall in Hf. now apply Hf.
Qed.

(** On a sorted pool the enumeration is in lexicographic order. *)
Lemma permutations_sorted (pool : list nat) :
  StronglySorted lt pool -> StronglySorted lex_lt (permutations pool).
Proof. apply perms_upto_sorted. Qed.

Lemma range_sorted (n : nat) : StronglySorted lt (range n).
Proof.
  unfold range. generalize 0%nat. induction n as [| n IH]; intros s; simpl.
  - constructor.
  - constructor; [apply IH |].
    apply Forall_forall. intros y Hy. apply in_seq in Hy. lia.
Qed.

Lemma sorted_split_later {B : Type} (Rel : B -> B -> Prop)
    (l1 l2 : list B) (p q : B) :
  StronglySorted Rel (l1 ++ p :: l2) -> In q l2 -> Rel p q.
Proof.
  intros Hs Hq. apply sorted_app_iff in Hs as (_ & Hs & _).
  inversion Hs as [| ? ? _ Hf]; subst.
  rewrite Forall_forall in Hf. now apply Hf.
Qed.

End LexOrder.

(** * Keeping the first strict minimum: the scan's result *)

Section FirstMin.

Context {X : Type}.
Variable f : X -> R.

Lemma first_min_spec (l : list X) :
  forall best best_v,
    first_min_result f l best best_v (first_min f l best best_v).
Proof.
  induction l as [| x rest IH]; intros best best_v; simpl.
  - apply fm_unchanged. contradiction.
  - destruct (Rlt_dec (f x) best_v) as [Hlt | Hge].
    + destruct (IH (Some x) (f x)) as [Hall | l1 y l2 E Hy H1 H2].
      * apply fm_found with (l1 := []) (l2 := rest); auto. contradiction.
      * apply fm_found with (l1 := x :: l1) (l2 := l2); auto.
        -- now rewrite E.
        -- lra.
        -- intros z [<- | Hz]; auto.
    + destruct (IH best best_v) as [Hall | l1 y l2 E Hy H1 H2].
      * apply fm_unchanged. intros y [<- | Hy]; [lra | auto].
      * apply fm_found with (l1 := x :: l1) (l2 := l2); auto.
        -- now rewrite E.
        -- intros z [<- | Hz]; [lra | auto].
Qed.

End FirstMin.

(** * Round trips *)

Section RoundTrips.

Variable start : point.
Variable points : list destination.

Lemma getitem_valid (i : nat) :
  (i < length points)%nat ->
  exists q, getitem points i = Returns q /\ point_at points i = coords q.
Proof.
  intros Hi. unfold getitem, point_at.
  destruct (nth_error points i) as [q |] eqn:E.
  - now exists q.
  - apply nth_error_None in E. lia.
Qed.

Lemma last_cons_default {B : Type} (l : list B) :
  forall a d, last (a :: l) d = last l a.
Proof.
  induction l as [| b l IH]; intros a d; [reflexivity |].
  change (last (a :: b :: l) d) with (last (b :: l) d).
  rewrite (IH b d). symmetry. apply (IH b a).
Qed.

Lemma walk_returns (perm : list nat) :
  valid_indices points perm ->
  forall current total,
    BruteForceAlgorithm.walk points perm current total =
    Returns (last (map (point_at points) perm) current,
             total + legs current (map (point_at points) perm)).
Proof.
  induction 1 as [| i rest Hi _ IH]; intros current total.
  - simpl. f_equal. f_equal. lra.
  - cbn [BruteForceAlgorithm.walk map].
    destruct (getitem_valid Hi) as (q & -> & Hq). cbn [bind].
    rewrite haversine_returns. cbn [bind]. rewrite IH.
    rewrite last_cons_default, Hq. cbn [legs].
    f_equal. f_equal. lra.
Qed.

Lemma tour_returns (perm : list nat) :
  valid_indices points perm ->
  BruteForceAlgorithm.tour start points perm =
  Returns (round_trip start points perm).
Proof.
  intros Hv. unfold BruteForceAlgorithm.tour.
  rewrite (walk_returns Hv). simpl. rewrite haversine_returns. simpl.
  unfold round_trip. f_equal. lra.
Qed.

Lemma perm_of_range_valid (order : list nat) :
  Permutation order (range (length points)) -> valid_indices points order.
Proof.
  intros Hp. apply Forall_forall. intros i Hi.
  apply (Permutation_in _ Hp) in Hi. apply in_seq in Hi. lia.
Qed.

(** The outer loop is a first-strict-minimum scan over the round trips. *)
Lemma search_first_min (perms : list (list nat)) :
  Forall (valid_indices points) perms ->
  forall best_order best_distance,
    BruteForceAlgorithm.search start points perms best_order best_distance
    = Returns (first_min (round_trip start points) perms
                         best_order best_distance).
Proof.
  induction 1 as [| p rest Hp _ IH]; intros bo bd; simpl; [reflexivity |].
  rewrite (tour_returns Hp). simpl.
  destruct (Rlt_dec (round_trip start points p) bd); apply IH.
Qed.

Lemma permutations_valid :
  Forall (valid_indices points) (permutations (range (length points))).
Proof.
  apply Forall_forall. intros p Hp.
  apply perm_of_range_valid. now apply permutations_spec.
Qed.

(** What the exact solver does, in both of its cases. *)
Lemma bf_compute_cases :
  (BruteForceAlgorithm.compute start points = Raises TypeError /\
   forall q, Permutation q (range (length points)) ->
             sentinel <= round_trip start points q)
  \/
  (exists l1 p l2,
     permutations (range (length points)) = l1 ++ p :: l2 /\
     BruteForceAlgorithm.compute start points =
       Returns (p, round_trip start points p) /\
     round_trip start points p < sentinel /\
     (forall q, In q l1 -> round_trip start points p < round_trip start points q) /\
     (forall q, In q l2 -> round_trip start points p <= round_trip start points q)).
Proof.
  unfold BruteForceAlgorithm.compute.
  rewrite (search_first_min permutations_valid).
  destruct (first_min_spec (round_trip start points)
              (permutations (range (length points))) None sentinel)
    as [Hall | l1 p l2 E Hlt H1 H2]; simpl.
  - left. split; [reflexivity |].
    intros q Hq. apply Hall. now apply permutations_spec.
  - right. exists l1, p, l2. repeat split; auto.
Qed.

End RoundTrips.

(** * The nearest-neighbour rule *)

Section NearestNeighbour.

Variable start : point.
Variable points : list destination.

Lemma scan_first_min (current : point) (unvisited : list nat) :
  valid_indices points unvisited ->
  forall best best_d,
    NearestNeighbourAlgorithm.scan current points unvisited best best_d
    = Returns (first_min (fun i => hav current (point_at points i))
                         unvisited best best_d).
Proof.
  induction 1 as [| i rest Hi _ IH]; intros best best_d; simpl;
    [reflexivity |].
  destruct (getitem_valid points Hi) as (q & -> & Hq). simpl.
  rewrite haversine_returns, <- Hq. simpl.
  destruct (Rlt_dec (hav current (point_at points i)) best_d); apply IH.
Qed.

Lemma list_remove_split (b : nat) (l1 l2 : list nat) :
  ~ In b l1 -> list_remove b (l1 ++ b :: l2) = Returns (l1 ++ l2).
Proof.
  induction l1 as [| y l1 IH]; intros Hnin; simpl.
  - destruct (Nat.eq_dec b b); [reflexivity | congruence].
  - destruct (Nat.eq_dec y b) as [-> | _].
    + exfalso. apply Hnin. now left.
    + rewrite IH; [reflexivity |]. intros H. apply Hnin. now right.
Qed.

Lemma remove_split (b : nat) (l1 l2 : list nat) :
  ~ In b l1 -> ~ In b l2 ->
  remove Nat.eq_dec b (l1 ++ b :: l2) = l1 ++ l2.
Proof.
  intros H1 H2. rewrite remove_app, remove_cons.
  now rewrite !notin_remove.
Qed.

Lemma sorted_split (b : nat) (l1 l2 : list nat) :
  StronglySorted lt (l1 ++ b :: l2) ->
  StronglySorted lt (l1 ++ l2) /\
  (forall j, In j l1 -> (j < b)%nat) /\
  (forall j, In j l2 -> (b < j)%nat).
Proof.
  intros Hs. apply sorted_app_iff in Hs as (Hs1 & Hs2 & H12).
  inversion Hs2 as [| ? ? Hs2' Hf]; subst.
  rewrite Forall_forall in Hf.
  repeat split.
  - apply sorted_app_iff. repeat split; auto.
    intros a c Ha Hc. apply H12; [assumption | now right].
  - intros j Hj. apply H12; [assumption | now left].
  - exact Hf.
Qed.

(** The [while] loop from any sorted set of unvisited indices. *)
Lemma loop_spec (fuel : nat) :
  forall unvisited current order total,
    StronglySorted lt unvisited ->
    valid_indices points unvisited ->
    (length unvisited <= fuel)%nat ->
    exists rest,
      NearestNeighbourAlgorithm.loop fuel start points unvisited
                                     current order total
      = Returns (order ++ rest,
                 total + legs current (map (point_at points) rest),
                 last (map (point_at points) rest) current) /\
      Permutation rest unvisited /\
      greedy_spec points unvisited current rest.
Proof.
  induction fuel as [| fuel IH];
    intros unvisited current order total Hs Hv Hlen.
  - destruct unvisited; [| simpl in Hlen; lia].
    exists []. simpl. rewrite app_nil_r, Rplus_0_r.
    repeat split; constructor.
  - destruct unvisited as [| i u'].
    { exists []. simpl. rewrite app_nil_r, Rplus_0_r.
      repeat split; constructor. }
    cbn [NearestNeighbourAlgorithm.loop].
    rewrite (scan_first_min current Hv).
    set (dist := fun j => hav current (point_at points j)).
    destruct (first_min_spec dist (i :: u') None sentinel)
      as [Hall | l1 b l2 E Hlt H1 H2].
    { exfalso. pose proof (Hall i (or_introl eq_refl)).
      pose proof (hav_lt_sentinel current (point_at points i)).
      unfold dist in *. lra. }
    cbn [bind].
    rewrite E in Hs, Hv, Hlen |- *.
    destruct (sorted_split _ _ _ Hs) as (Hs' & Hlow & Hhigh).
    assert (Hb1 : ~ In b l1) by (intros H; apply Hlow in H; lia).
    assert (Hb2 : ~ In b l2) by (intros H; apply Hhigh in H; lia).
    assert (Hbv : (b < length points)%nat).
    { unfold valid_indices in Hv. rewrite Forall_forall in Hv.
      apply Hv. apply in_elt. }
    destruct (getitem_valid points Hbv) as (q & -> & Hq). cbn [bind].
    rewrite (@list_remove_split b l1 l2 Hb1). cbn [bind].
    assert (Hv' : valid_indices points (l1 ++ l2)).
    { unfold valid_indices in *. rewrite Forall_app in *.
      destruct Hv as [Hv1 Hv2]. inversion Hv2; subst. now split. }
    assert (Hlen' : (length (l1 ++ l2) <= fuel)%nat).
    { rewrite length_app in *. simpl in Hlen. lia. }
    destruct (IH (l1 ++ l2) (coords q) (order ++ [b]) (total + dist b)
                 Hs' Hv' Hlen') as (rest & -> & Hperm & Hgreedy).
    exists (b :: rest). repeat split.
    + cbn [map legs]. rewrite last_cons_default, <- app_assoc, Hq.
      unfold dist. rewrite Hq. simpl app.
      f_equal. f_equal. f_equal. lra.
    + rewrite Hperm. apply Permutation_middle.
    + apply greedy_pick.
      * apply in_elt.
      * intros j Hj. apply in_app_or in Hj as [Hj | [<- | Hj]].
        -- left. exact (H1 _ Hj).
        -- lra.
        -- exact (H2 _ Hj).
      * intros j Hj Etie. apply in_app_or in Hj as [Hj | [<- | Hj]].
        -- pose proof (H1 _ Hj). unfold dist in *. lra.
        -- lia.
        -- apply Hhigh in Hj. lia.
      * rewrite (@remove_split b l1 l2 Hb1 Hb2), Hq. exact Hgreedy.
Qed.

Lemma range_valid : valid_indices points (range (length points)).
Proof.
  apply perm_of_range_valid. reflexivity.
Qed.

(** What the heuristic solver does, for any number of destinations. *)
Lemma nn_compute_spec :
  exists order,
    NearestNeighbourAlgorithm.compute start points
    = Returns (order, round_trip start points order) /\
    Permutation order (range (length points)) /\
    greedy_spec points (range (length points)) start order.
Proof.
  unfold NearestNeighbourAlgorithm.compute.
  destruct (loop_spec (fuel := length (range (length points)))
              start [] 0 (range_sorted (length points)) range_valid
              (le_n _)) as (rest & -> & Hperm & Hgreedy).
  exists rest. cbn [bind app]. rewrite haversine_returns. cbn [bind].
  repeat split; auto.
  unfold round_trip. f_equal. f_equal. lra.
Qed.

End NearestNeighbour.

(** * Properties of the two solvers *)

Section SolverFacts.

Variable start : point.
Variable points : list destination.

(** When the exact solver returns, it returns a first minimum. *)
Lemma bf_returns_optimal (order : list nat) (total : R) :
  BruteForceAlgorithm.compute start points = Returns (order, total) ->
  total = round_trip start points order /\
  total < sentinel /\
  Permutation order (range (length points)) /\
  (forall q, Permutation q (range (length points)) ->
             total <= round_trip start points q) /\
  (forall q, Permutation q (range (length points)) ->
             round_trip start points q = total -> lex_le order q) /\
  (exists l1 l2,
      permutations (range (length points)) = l1 ++ order :: l2 /\
      forall q, In q l1 -> total < round_trip start points q).
Proof.
  intros Hc.
  destruct (bf_compute_cases start points)
    as [[Hr _] | (l1 & p & l2 & E & Hr & Hlt & H1 & H2)];
    rewrite Hr in Hc; [discriminate |].
  inversion Hc; subst order total. clear Hc.
  assert (Hall : forall q, Permutation q (range (length points)) ->
                   In q l1 \/ q = p \/ In q l2).
  { intros q Hq. apply permutations_spec in Hq. rewrite E in Hq.
    apply in_app_or in Hq as [Hq | [Hq | Hq]]; auto. }
  repeat split; auto.
  - apply permutations_spec. rewrite E. apply in_elt.
  - intros q Hq. destruct (Hall q Hq) as [Hq' | [-> | Hq']].
    + left. now apply H1.
    + lra.
    + now apply H2.
  - intros q Hq Heq. destruct (Hall q Hq) as [Hq' | [-> | Hq']].
    + apply H1 in Hq'. lra.
    + now left.
    + right. pose proof (permutations_sorted (range_sorted (length points)))
        as Hs.
      rewrite E in Hs. eapply sorted_split_later; eassumption.
  - exists l1, l2. split; [exact E | exact H1].
Qed.

End SolverFacts.

Lemma nn_compute_nil (start : point) :
  NearestNeighbourAlgorithm.compute start [] = Returns ([], 0).
Proof.
  unfold NearestNeighbourAlgorithm.compute. simpl.
  rewrite haversine_returns, hav_same. simpl. f_equal. f_equal. lra.
Qed.

Lemma bf_compute_nil (start : point) :
  BruteForceAlgorithm.compute start [] = Returns ([], 0).
Proof.
  assert (E : round_trip start [] [] = 0).
  { unfold round_trip. simpl. rewrite hav_same. lra. }
  unfold BruteForceAlgorithm.compute. simpl.
  rewrite (@tour_returns start [] []) by constructor. rewrite E. simpl.
  destruct (Rlt_dec 0 sentinel) as [_ | Hn].
  - reflexivity.
  - exfalso. apply Hn. rewrite sentinel_value. lra.
Qed.


(** * What the solvers read of a destination row *)

Section CoordinatesOnly.

Variables points points' : list destination.
Hypothesis same : map coords points = map coords points'.

Lemma getitem_same (i : nat) :
  (exists q q', getitem points i = Returns q /\
                getitem points' i = Returns q' /\ coords q = coords q')
  \/ (getitem points i = Raises IndexError /\
      getitem points' i = Raises IndexError).
Proof.
  unfold getitem.
  assert (E : nth_error (map coords points) i
              = nth_error (map coords points') i) by now rewrite same.
  rewrite !nth_error_map in E.
  destruct (nth_error points i) as [q |], (nth_error points' i) as [q' |];
    simpl in E; try discriminate.
  - left. exists q, q'. repeat split. congruence.
  - now right.
Qed.

Lemma scan_same (current : point) (unvisited : list nat) :
  forall best best_d,
    NearestNeighbourAlgorithm.scan current points unvisited best best_d
    = NearestNeighbourAlgorithm.scan current points' unvisited best best_d.
Proof.
  induction unvisited as [| i rest IH]; intros best best_d; simpl;
    [reflexivity |].
  destruct (getitem_same i) as [(q & q' & -> & -> & E) | [-> ->]];
    [| reflexivity].
  simpl. rewrite E.
  destruct (haversine current (coords q')) as [d | |]; simpl;
    [| reflexivity | reflexivity].
  destruct (Rlt_dec d best_d); apply IH.
Qed.

Lemma loop_same (start : point) (fuel : nat) :
  forall unvisited current order total,
    NearestNeighbourAlgorithm.loop fuel start points unvisited
                                   current order total
    = NearestNeighbourAlgorithm.loop fuel start points' unvisited
                                     current order total.
Proof.
  induction fuel as [| fuel IH]; intros unvisited current order total;
    destruct unvisited as [| i u]; try reflexivity.
  cbn [NearestNeighbourAlgorithm.loop]. rewrite scan_same.
  destruct (NearestNeighbourAlgorithm.scan current points' (i :: u)
              None sentinel) as [[[b |] d] | |]; try reflexivity.
  cbn [bind].
  destruct (getitem_same b) as [(q & q' & -> & -> & E) | [-> ->]];
    [| reflexivity].
  cbn [bind]. rewrite E.
  destruct (list_remove b (i :: u)); cbn [bind]; try reflexivity.
  apply IH.
Qed.

Lemma walk_same (perm : list nat) :
  forall current total,
    BruteForceAlgorithm.walk points perm current total
    = BruteForceAlgorithm.walk points' perm current total.
Proof.
  induction perm as [| i rest IH]; intros current total; simpl;
    [reflexivity |].
  destruct (getitem_same i) as [(q & q' & -> & -> & E) | [-> ->]];
    [| reflexivity].
  simpl. rewrite E.
  destruct (haversine current (coords q')); simpl; try reflexivity.
  apply IH.
Qed.

Lemma search_same (start : point) (perms : list (list nat)) :
  forall best_order best_distance,
    BruteForceAlgorithm.search start points perms best_order best_distance
    = BruteForceAlgorithm.search start points' perms
                                 best_order best_distance.
Proof.
  induction perms as [| p rest IH]; intros bo bd; simpl; [reflexivity |].
  unfold BruteForceAlgorithm.tour. rewrite walk_same.
  destruct (_ <- BruteForceAlgorithm.walk points' p start 0 ;; _)
    as [t | |]; simpl; try reflexivity.
  destruct (Rlt_dec t bd); apply IH.
Qed.

Lemma length_same : length points = length points'.
Proof.
  rewrite <- (length_map coords points), same. apply length_map.
Qed.

Lemma nn_compute_same (start : point) :
  NearestNeighbourAlgorithm.compute start points
  = NearestNeighbourAlgorithm.compute start points'.
Proof.
  unfold NearestNeighbourAlgorithm.compute.
  now rewrite length_same, loop_same.
Qed.

Lemma bf_compute_same (start : point) :
  BruteForceAlgorithm.compute start points
  = BruteForceAlgorithm.compute start points'.
Proof.
  unfold BruteForceAlgorithm.compute.
  now rewrite length_same, search_same.
Qed.

End CoordinatesOnly.


(** * Main results *)

Import Fixtures.

(** C5: under exact real arithmetic haversine(a, b) equals haversine(b, a)
    for all points, and haversine(a, a) is 0. *)
Theorem haversine_symmetric_and_zero_on_diagonal (a b : point) :
  haversine a b = haversine b a /\ haversine a a = Returns 0.
Proof.
  rewrite !haversine_returns. split.
  - f_equal. apply hav_sym.
  - f_equal. apply hav_same.
Qed.

(** C6 (as amended): on an empty destination list neither solver raises an
    error; each returns a result, and rejecting the empty list is left to
    the caller. *)
Theorem empty_request_is_not_rejected (start : point) :
  ~ raised (NearestNeighbourAlgorithm.compute start []) /\
  ~ raised (BruteForceAlgorithm.compute start []) /\
  (exists r, NearestNeighbourAlgorithm.compute start [] = Returns r) /\
  (exists r, BruteForceAlgorithm.compute start [] = Returns r).
Proof.
  rewrite nn_compute_nil, bf_compute_nil. unfold raised.
  repeat split; try (intros [e He]; discriminate); eexists; reflexivity.
Qed.

(** C6 fails as stated: at start (51.5, -0.12) with no destination both
    solvers return instead of raising. *)
Lemma empty_request_rejected_counterexample :
  NearestNeighbourAlgorithm.compute london [] = Returns ([], 0) /\
  BruteForceAlgorithm.compute london [] = Returns ([], 0) /\
  ~ raised (NearestNeighbourAlgorithm.compute london []) /\
  ~ raised (BruteForceAlgorithm.compute london []).
Proof.
  rewrite nn_compute_nil, bf_compute_nil. unfold raised.
  repeat split; intros [e He]; discriminate.
Qed.

(** C8: both solvers are deterministic: the outcome is a function of the
    start point and of the destination coordinates alone, so two invocations
    on requests with the same start and the same coordinate list yield the
    same order and the same total. *)
Theorem solvers_deterministic (start : point)
    (points points' : list destination) :
  map coords points = map coords points' ->
  NearestNeighbourAlgorithm.compute start points
  = NearestNeighbourAlgorithm.compute start points' /\
  BruteForceAlgorithm.compute start points
  = BruteForceAlgorithm.compute start points'.
Proof.
  intros Hsame. split.
  - now apply nn_compute_same.
  - now apply bf_compute_same.
Qed.

Lemma solvers_deterministic_witness :
  NearestNeighbourAlgorithm.compute london [barnet]
  = NearestNeighbourAlgorithm.compute london [enfield] /\
  BruteForceAlgorithm.compute london [barnet]
  = BruteForceAlgorithm.compute london [enfield].
Proof.
  apply (@solvers_deterministic london [barnet] [enfield]). reflexivity.
Defined.

Lemma in_range_london : in_range london.
Proof. unfold in_range, london. simpl. split; apply Rabs_le; lra. Qed.

Lemma in_range_barnet : in_range (coords barnet).
Proof. unfold in_range, coords, barnet. simpl. split; apply Rabs_le; lra. Qed.

(** C10: on an empty destination list both solvers return the empty order
    with total 0, and neither raises. *)
Theorem empty_request_returns_empty_tour (start : point) :
  NearestNeighbourAlgorithm.compute start [] = Returns ([], 0) /\
  BruteForceAlgorithm.compute start [] = Returns ([], 0) /\
  permutations (range 0) = [[]] /\
  haversine start start = Returns 0.
Proof.
  rewrite nn_compute_nil, bf_compute_nil, haversine_returns, hav_same.
  repeat split.
Qed.

Section BuildEdges.

Variable start_loc : point.
Variable points : list destination.

Lemma total_km_app (e1 e2 : list edge) :
  total_km (e1 ++ e2) = total_km e1 + total_km e2.
Proof.
  unfold total_km. induction e1 as [| e e1 IH]; simpl; [lra |].
  rewrite IH. lra.
Qed.

Lemma build_edges_from_spec (order : list nat) :
  valid_indices points order ->
  forall pos prev_point edges,
    exists tail,
      build_edges_from start_loc points order (S pos) pos prev_point edges
      = Returns (edges ++ tail) /\
      map edge_ends tail
      = map (fun k => (k, S k)) (seq pos (length order))
        ++ [((pos + length order)%nat, 0%nat)] /\
      total_km tail
      = legs prev_point (map (point_at points) order)
        + hav (last (map (point_at points) order) prev_point) start_loc.
Proof.
  induction 1 as [| i rest Hi _ IH]; intros pos prev_point edges.
  - exists [(pos, 0%nat, hav prev_point start_loc)]. simpl.
    rewrite haversine_returns. simpl. rewrite Nat.add_0_r.
    repeat split. unfold total_km, edge_km. simpl. lra.
  - cbn [build_edges_from].
    destruct (getitem_valid points Hi) as (q & -> & Hq). cbn [bind].
    rewrite haversine_returns. cbn [bind].
    destruct (IH (S pos) (coords q) (edges ++ [(pos, S pos, hav prev_point (coords q))]))
      as (tail & -> & Hends & Hsum).
    exists ((pos, S pos, hav prev_point (coords q)) :: tail).
    repeat split.
    + now rewrite <- app_assoc.
    + cbn [map length seq app]. rewrite Hends.
      unfold edge_ends at 1. cbn [fst].
      now rewrite Nat.add_succ_r.
    + cbn [map]. rewrite last_cons_default, Hq. cbn [legs].
      change ((pos, S pos, hav prev_point (coords q)) :: tail)
        with ([(pos, S pos, hav prev_point (coords q))] ++ tail).
      rewrite total_km_app, Hsum. unfold total_km, edge_km. simpl. lra.
Qed.

End BuildEdges.

Lemma valid_indices_dec (points : list destination) (order : list nat) :
  {valid_indices points order} + {~ valid_indices points order}.
Proof.
  unfold valid_indices. apply Forall_dec. intros i. apply lt_dec.
Qed.

Lemma build_edges_from_invalid (start_loc : point)
    (points : list destination) (order : list nat) :
  ~ valid_indices points order ->
  forall pos prev_idx prev_point edges,
    build_edges_from start_loc points order pos prev_idx prev_point edges
    = Raises IndexError.
Proof.
  induction order as [| i rest IH]; intros Hbad pos prev_idx prev_point edges.
  - exfalso. apply Hbad. constructor.
  - cbn [build_edges_from]. unfold getitem.
    destruct (nth_error points i) as [q |] eqn:E; cbn [bind]; [| reflexivity].
    rewrite haversine_returns. cbn [bind]. apply IH.
    intros Hrest. apply Hbad. constructor; [| exact Hrest].
    apply nth_error_Some. congruence.
Qed.

Lemma build_edges_cases (start_loc : point)
    (points : list destination) (order : list nat) :
  (~ valid_indices points order /\
   build_edges start_loc points order = Raises IndexError)
  \/
  (valid_indices points order /\
   exists edges,
     build_edges start_loc points order = Returns edges /\
     map edge_ends edges = closed_walk (length order) /\
     length edges = S (length order) /\
     total_km edges = round_trip start_loc points order).
Proof.
  destruct (valid_indices_dec points order) as [Hv | Hbad].
  - right. split; [exact Hv |].
    destruct (build_edges_from_spec start_loc Hv 0 start_loc [])
      as (tail & Hr & Hends & Hsum).
    exists tail. unfold build_edges. rewrite Hr.
    repeat split; auto.
    + rewrite <- (length_map edge_ends), Hends.
      rewrite length_app, length_map, length_seq. simpl. lia.
  - left. split; [exact Hbad |]. now apply build_edges_from_invalid.
Qed.

Lemma nn_compute_barnet :
  NearestNeighbourAlgorithm.compute london [barnet]
  = Returns ([0%nat], round_trip london [barnet] [0%nat]).
Proof.
  destruct (nn_compute_spec london [barnet]) as (order & Hc & Hp & _).
  apply Permutation_sym, Permutation_length_1_inv in Hp. now subst order.
Qed.

(** * Drawing a tour *)

Section Drawing.

Import GraphDrawer.

Lemma py_min_le (xs : list R) :
  forall x, py_min x xs <= x /\ forall v, In v xs -> py_min x xs <= v.
Proof.
  unfold py_min. induction xs as [| a xs IH]; intros x; simpl.
  - split; [lra | contradiction].
  - destruct (Rlt_dec a x) as [Hlt | Hge].
    + destruct (IH a) as [H1 H2]. split; [lra |].
      intros v [<- | Hv]; auto.
    + destruct (IH x) as [H1 H2]. split; [lra |].
      intros v [<- | Hv]; [lra | auto].
Qed.

Lemma py_max_ge (xs : list R) :
  forall x, x <= py_max x xs /\ forall v, In v xs -> v <= py_max x xs.
Proof.
  unfold py_max. induction xs as [| a xs IH]; intros x; simpl.
  - split; [lra | contradiction].
  - destruct (Rlt_dec x a) as [Hlt | Hge].
    + destruct (IH a) as [H1 H2]. split; [lra |].
      intros v [<- | Hv]; auto.
    + destruct (IH x) as [H1 H2]. split; [lra |].
      intros v [<- | Hv]; [lra | auto].
Qed.

(** A value between the bounds lands between the two margins. *)
Lemma scaled_inside (lo hi v span : R) (size : Z) :
  (60 <= size)%Z -> lo <= v <= hi -> span = Rmax (hi - lo) (/ 10 ^ 9) ->
  30 <= 30 + (v - lo) / span * IZR (size - 2 * 30) <= IZR size - 30 /\
  30 <= 30 + (hi - v) / span * IZR (size - 2 * 30) <= IZR size - 30.
Proof.
  intros Hsize Hv ->.
  assert (Hpos : 0 < Rmax (hi - lo) (/ 10 ^ 9)).
  { apply Rlt_le_trans with (/ 10 ^ 9); [| apply Rmax_r].
    apply Rinv_0_lt_compat. lra. }
  assert (Hle : hi - lo <= Rmax (hi - lo) (/ 10 ^ 9)) by apply Rmax_l.
  set (span := Rmax (hi - lo) (/ 10 ^ 9)) in *.
  rewrite minus_IZR, mult_IZR. apply IZR_le in Hsize.
  assert (Hfrac : forall t, 0 <= t <= hi - lo -> 0 <= t / span <= 1).
  { intros t Ht. split.
    - apply Rmult_le_pos; [lra |]. now apply Rlt_le, Rinv_0_lt_compat.
    - apply Rle_trans with (span / span).
      + apply Rmult_le_compat_r; [now apply Rlt_le, Rinv_0_lt_compat | lra].
      + right. field. lra. }
  pose proof (Hfrac (v - lo)) as H1. pose proof (Hfrac (hi - v)) as H2.
  split; nra.
Qed.


Lemma draw_nodes_spec (place : R -> R -> R * R) (w h : Z)
    (rows : list (String.string * point)) :
  (0 <= w)%Z -> (0 <= h)%Z ->
  (forall r, In r rows -> in_margins w h (place (fst (snd r)) (snd (snd r)))) ->
  forall i positions items,
    Forall (in_margins w h) positions ->
    Forall (on_canvas w h) items ->
    let '(positions', items') := draw_nodes place i rows positions items in
    Forall (in_margins w h) positions' /\
    Forall (on_canvas w h) items' /\
    length positions' = (length positions + length rows)%nat /\
    length items' = (length items + 2 * length rows)%nat.
Proof.
  intros Hw Hh. apply IZR_le in Hw, Hh.
  induction rows as [| [label [lat lon]] rest IH];
    intros Hin i positions items Hp Hi.
  - simpl. repeat split; auto; lia.
  - cbn [draw_nodes].
    pose proof (Hin _ (or_introl eq_refl)) as Hpl. cbn [fst snd] in Hpl.
    destruct (place lat lon) as [x y] eqn:E.
    destruct Hpl as [[Hx1 Hx2] [Hy1 Hy2]]. cbn [fst snd] in *.
    match goal with
    | |- context [draw_nodes place (S i) rest ?ps ?its] =>
        specialize (IH (fun r Hr => Hin r (or_intror Hr)) (S i) ps its)
    end.
    destruct (draw_nodes place (S i) rest _ _) as [positions' items'].
    destruct IH as (H1 & H2 & H3 & H4).
    + apply Forall_app. split; [assumption |]. constructor; [| constructor].
      split; cbn [fst snd]; lra.
    + apply Forall_app. split; [assumption |].
      constructor; [| constructor; [| constructor]]; simpl; lra.
    + repeat split; auto.
      * rewrite H3, length_app. simpl. lia.
      * rewrite H4, length_app. simpl. lia.
Qed.

Lemma draw_edges_spec (w h : Z) (positions : list (R * R))
    (line_color : String.string) (edges : list edge) :
  (0 <= w)%Z -> (0 <= h)%Z ->
  Forall (in_margins w h) positions ->
  forall items,
    Forall (on_canvas w h) items ->
    Forall (on_canvas w h)
           (fst (draw_edges positions line_color edges items)) /\
    (Forall (fun e => (fst (edge_ends e) < length positions)%nat /\
                      (snd (edge_ends e) < length positions)%nat) edges ->
     snd (draw_edges positions line_color edges items) = None /\
     length (fst (draw_edges positions line_color edges items))
     = (length items + 2 * length edges)%nat).
Proof.
  intros Hw Hh Hp. apply IZR_le in Hw, Hh.
  rewrite Forall_forall in Hp.
  induction edges as [| [[i j] d] rest IH]; intros items Hi.
  - simpl. split; [assumption |]. intros _. split; [reflexivity | lia].
  - cbn [draw_edges]. unfold position.
    destruct (nth_error positions i) as [[x1 y1] |] eqn:Ei.
    2:{ simpl. split; [assumption |]. intros Hv. inversion Hv as [| ? ? [Hlt _] _].
        subst. unfold edge_ends in Hlt. cbn [fst] in Hlt.
        apply nth_error_None in Ei. lia. }
    destruct (nth_error positions j) as [[x2 y2] |] eqn:Ej.
    2:{ simpl. split; [assumption |]. intros Hv. inversion Hv as [| ? ? [_ Hlt] _].
        subst. unfold edge_ends in Hlt. cbn [fst snd] in Hlt.
        apply nth_error_None in Ej. lia. }
    pose proof (Hp _ (nth_error_In _ _ Ei)) as [[Ha1 Ha2] [Hb1 Hb2]].
    pose proof (Hp _ (nth_error_In _ _ Ej)) as [[Hc1 Hc2] [Hd1 Hd2]].
    cbn [fst snd] in *.
    match goal with
    | |- context [draw_edges positions line_color rest ?its] =>
        destruct (IH its) as [IH1 IH2]
    end.
    + apply Forall_app. split; [assumption |].
      constructor; [| constructor; [| constructor]]; simpl; lra.
    + split; [exact IH1 |]. intros Hv. inversion Hv; subst.
      destruct (IH2 ltac:(assumption)) as [E1 E2]. split; [exact E1 |].
      rewrite E2, length_app. simpl. lia.
Qed.

Lemma draw_spec (w h : Z) (labels : list String.string)
    (coords : list point) (edges : list edge) (highlight : bool) :
  (60 <= w)%Z -> (60 <= h)%Z ->
  Forall (on_canvas w h) (fst (draw w h labels coords edges highlight)) /\
  (labels <> [] -> length labels = length coords ->
   Forall (fun e => (fst (edge_ends e) < length coords)%nat /\
                    (snd (edge_ends e) < length coords)%nat) edges ->
   snd (draw w h labels coords edges highlight) = None /\
   length (fst (draw w h labels coords edges highlight))
   = (2 * length coords + 2 * length edges)%nat).
Proof.
  intros Hw Hh. unfold draw.
  destruct labels as [| l ls].
  { split; [constructor | intros H; congruence]. }
  destruct coords as [| c cs].
  { split; [constructor | intros _ H; discriminate]. }
  destruct (Nat.eqb (length (l :: ls)) (length (c :: cs))) eqn:Elen; cbn [negb].
  2:{ split; [constructor |]. intros _ H. apply Nat.eqb_neq in Elen. congruence. }
  apply Nat.eqb_eq in Elen.
  set (min_lat := py_min (fst c) (map fst cs)).
  set (max_lat := py_max (fst c) (map fst cs)).
  set (min_lon := py_min (snd c) (map snd cs)).
  set (max_lon := py_max (snd c) (map snd cs)).
  set (place := to_canvas w h min_lon max_lat _ _).
  assert (Hplace : forall r, In r (combine (l :: ls) (c :: cs)) ->
                     in_margins w h (place (fst (snd r)) (snd (snd r)))).
  { intros [lab [lat lon]] Hr. apply in_combine_r in Hr. cbn [fst snd].
    assert (Hlat : min_lat <= lat <= max_lat).
    { destruct (py_min_le (map fst cs) (fst c)) as [H1 H2].
      destruct (py_max_ge (map fst cs) (fst c)) as [H3 H4].
      destruct Hr as [-> | Hr]; cbn [fst]; [split; assumption |].
      split; [apply H2 | apply H4];
        apply in_map_iff; exists (lat, lon); auto. }
    assert (Hlon : min_lon <= lon <= max_lon).
    { destruct (py_min_le (map snd cs) (snd c)) as [H1 H2].
      destruct (py_max_ge (map snd cs) (snd c)) as [H3 H4].
      destruct Hr as [-> | Hr]; cbn [snd]; [split; assumption |].
      split; [apply H2 | apply H4];
        apply in_map_iff; exists (lat, lon); auto. }
    unfold place, to_canvas, in_margins, margin. cbn [fst snd].
    destruct (scaled_inside Hw Hlon eq_refl) as [Hx _].
    destruct (scaled_inside Hh Hlat eq_refl) as [_ Hy].
    split; assumption. }
  pose proof (@draw_nodes_spec place w h (combine (l :: ls) (c :: cs))
                ltac:(lia) ltac:(lia) Hplace 0%nat [] []
                (Forall_nil _) (Forall_nil _)) as Hn.
  destruct (draw_nodes place 0 (combine (l :: ls) (c :: cs)) [] [])
    as [positions items].
  destruct Hn as (Hps & Hits & Hlp & Hli).
  rewrite length_combine, Elen, Nat.min_id in Hlp, Hli.
  match goal with
  | |- context [draw_edges positions ?color edges items] =>
      destruct (@draw_edges_spec w h positions color
                  edges ltac:(lia) ltac:(lia) Hps items Hits) as [H1 H2]
  end.
  split; [exact H1 |].
  intros _ _ Hv. simpl length in Hlp, Hli. rewrite Hlp in H2.
  destruct (H2 Hv) as [E1 E2]. split; [exact E1 |].
  rewrite E2, Hli. simpl. lia.
Qed.

End Drawing.

(** X3: for coordinates in range (latitudes within 90 degrees, longitudes
    within 180) and a canvas between 60 and 2^53 wide and high (sizes a
    float holds exactly), nothing [draw] puts on the canvas (node circles,
    labels, edge lines, distance texts) has a coordinate outside the
    canvas rectangle, also when a position lookup fails midway. *)
Theorem draw_stays_on_canvas (w h : Z) (labels : list String.string)
    (coords : list point) (edges : list edge) (highlight : bool) :
  (60 <= w <= 2 ^ 53)%Z -> (60 <= h <= 2 ^ 53)%Z ->
  Forall in_range coords ->
  Forall (on_canvas w h)
         (fst (GraphDrawer.draw w h labels coords edges highlight)).
Proof.
  intros [Hw _] [Hh _] _. now apply draw_spec.
Qed.

Lemma draw_stays_on_canvas_witness :
  Forall (on_canvas 800 400)
         (fst (GraphDrawer.draw 800 400 [dest_name barnet; dest_name enfield]
                 [london; coords barnet] [(0%nat, 1%nat, 1)] true)).
Proof.
  apply (@draw_stays_on_canvas 800 400); [lia | lia |].
  constructor; [exact in_range_london |].
  constructor; [exact in_range_barnet | constructor].
Defined.

(** X4: the way [App.compute] draws a solver's tour (labels: the start label
    then one label per destination; coordinates: the start then the
    destinations; edges from [build_edges]) never hits a missing position:
    [draw] ends without exception with N+1 circles, N+1 labels, N+1 lines
    and N+1 distance texts. *)
Theorem tour_is_drawn_completely (w h : Z) (start_loc : point)
    (points : list destination) (start_label : String.string)
    (point_labels : list String.string) (order : list nat) (total : R)
    (highlight : bool) :
  (60 <= w)%Z -> (60 <= h)%Z ->
  length point_labels = length points ->
  NearestNeighbourAlgorithm.compute start_loc points = Returns (order, total)
  \/ BruteForceAlgorithm.compute start_loc points = Returns (order, total) ->
  exists edges,
    build_edges start_loc points order = Returns edges /\
    snd (GraphDrawer.draw w h (start_label :: point_labels)
           (start_loc :: map coords points) edges highlight) = None /\
    length (fst (GraphDrawer.draw w h (start_label :: point_labels)
                   (start_loc :: map coords points) edges highlight))
    = (4 * (length points + 1))%nat.
Proof.
  intros Hw Hh Hlabels Hc.
  assert (Hp : Permutation order (range (length points))).
  { destruct Hc as [Hnn | Hbf].
    - destruct (nn_compute_spec start_loc points) as (o & Hc & Hp & _).
      rewrite Hc in Hnn. now inversion Hnn; subst.
    - now destruct (@bf_returns_optimal _ _ _ _ Hbf) as (_ & _ & Hp & _). }
  assert (Hlen : length order = length points).
  { rewrite (Permutation_length Hp). unfold range. apply length_seq. }
  destruct (build_edges_cases start_loc points order)
    as [[Hbad _] | (_ & edges & Hr & Hends & Hn & _)].
  { exfalso. apply Hbad. now apply perm_of_range_valid. }
  exists edges. split; [exact Hr |].
  destruct (@draw_spec w h (start_label :: point_labels)
              (start_loc :: map coords points) edges highlight Hw Hh)
    as [_ Hd].
  destruct Hd as [E1 E2].
  - discriminate.
  - simpl. now rewrite length_map, Hlabels.
  - apply Forall_forall. intros e He.
    assert (Hin : In (edge_ends e) (closed_walk (length order))).
    { rewrite <- Hends. now apply in_map. }
    unfold closed_walk in Hin. simpl length. rewrite length_map, <- Hlen.
    apply in_app_or in Hin as [Hin | [<- | []]].
    + apply in_map_iff in Hin as (k & <- & Hk). apply in_seq in Hk.
      simpl. lia.
    + simpl. lia.
  - split; [exact E1 |]. rewrite E2, Hn. simpl length.
    rewrite length_map, Hlen. lia.
Qed.

Lemma tour_is_drawn_completely_witness :
  exists edges,
    build_edges london [barnet] [0%nat] = Returns edges /\
    snd (GraphDrawer.draw 800 400 [dest_name enfield; dest_name barnet]
           (london :: map coords [barnet]) edges true) = None.
Proof.
  destruct (@tour_is_drawn_completely 800 400 london [barnet]
              (dest_name enfield) [dest_name barnet] [0%nat]
              (round_trip london [barnet] [0%nat]) true)
    as (edges & Hr & Hnone & _).
  - lia.
  - lia.
  - reflexivity.
  - left. exact nn_compute_barnet.
  - exists edges. split; assumption.
Defined.

(** * Sets and similarity *)

Section Sets.

Import PySet.

Lemma mem_spec (x : String.string) (s : list String.string) :
  mem x s = true <-> In x s.
Proof.
  unfold mem. rewrite existsb_exists. split.
  - intros (y & Hy & E). apply String.eqb_eq in E. now subst.
  - intros H. exists x. split; [assumption | apply String.eqb_refl].
Qed.

Lemma mem_false (x : String.string) (s : list String.string) :
  mem x s = false <-> ~ In x s.
Proof.
  rewrite <- mem_spec. destruct (mem x s); split; congruence.
Qed.

Lemma inter_spec (a b : list String.string) (x : String.string) :
  In x (inter a b) <-> In x a /\ In x b.
Proof.
  unfold inter. rewrite filter_In, mem_spec. tauto.
Qed.

Lemma union_spec (a b : list String.string) (x : String.string) :
  In x (union a b) <-> In x a \/ In x b.
Proof.
  unfold union. rewrite in_app_iff, filter_In, Bool.negb_true_iff, mem_false.
  destruct (in_dec String.string_dec x a); tauto.
Qed.

Lemma inter_NoDup (a b : list String.string) : NoDup a -> NoDup (inter a b).
Proof. apply NoDup_filter. Qed.

Lemma union_NoDup (a b : list String.string) :
  NoDup a -> NoDup b -> NoDup (union a b).
Proof.
  intros Ha Hb. unfold union. apply NoDup_app; [assumption | |].
  - now apply NoDup_filter.
  - intros x Hx Hf. apply filter_In in Hf as [_ Hf].
    apply Bool.negb_true_iff, mem_false in Hf. contradiction.
Qed.

Lemma inter_length_comm (a b : list String.string) :
  NoDup a -> NoDup b -> length (inter a b) = length (inter b a).
Proof.
  intros Ha Hb. apply Permutation_length, NoDup_Permutation.
  - now apply inter_NoDup.
  - now apply inter_NoDup.
  - intros x. rewrite !inter_spec. tauto.
Qed.

Lemma union_length_comm (a b : list String.string) :
  NoDup a -> NoDup b -> length (union a b) = length (union b a).
Proof.
  intros Ha Hb. apply Permutation_length, NoDup_Permutation.
  - now apply union_NoDup.
  - now apply union_NoDup.
  - intros x. rewrite !union_spec. tauto.
Qed.

Lemma inter_le_union (a b : list String.string) :
  (length (inter a b) <= length (union a b))%nat.
Proof.
  unfold inter, union. rewrite length_app.
  pose proof (filter_length_le (fun x => mem x b) a). lia.
Qed.

End Sets.

Section Jaccard.

Import RecommenderSystem.

Lemma jaccard_value (a b : list String.string) :
  jaccard_similarity a b
  = if Nat.eqb (length (PySet.union a b)) 0 then 0
    else INR (length (PySet.inter a b)) / INR (length (PySet.union a b)).
Proof.
  unfold jaccard_similarity. destruct a as [| x a], b as [| y b]; reflexivity.
Qed.

Lemma jaccard_bounds (a b : list String.string) :
  0 <= jaccard_similarity a b <= 1.
Proof.
  rewrite jaccard_value.
  destruct (Nat.eqb_spec (length (PySet.union a b)) 0) as [_ | Hne]; [lra |].
  pose proof (inter_le_union a b) as Hle. apply le_INR in Hle.
  assert (Hpos : 0 < INR (length (PySet.union a b))).
  { apply lt_0_INR. lia. }
  pose proof (pos_INR (length (PySet.inter a b))) as Hi.
  split.
  - apply Rmult_le_pos; [assumption |]. now apply Rlt_le, Rinv_0_lt_compat.
  - apply Rle_trans with (INR (length (PySet.union a b))
                          / INR (length (PySet.union a b))).
    + apply Rmult_le_compat_r; [now apply Rlt_le, Rinv_0_lt_compat | lra].
    + right. field. lra.
Qed.

Lemma jaccard_sym (a b : list String.string) :
  NoDup a -> NoDup b -> jaccard_similarity a b = jaccard_similarity b a.
Proof.
  intros Ha Hb. rewrite !jaccard_value.
  now rewrite (inter_length_comm Ha Hb), (union_length_comm Ha Hb).
Qed.

Lemma filter_none {A : Type} (f : A -> bool) (l : list A) :
  (forall x, In x l -> f x = false) -> filter f l = [].
Proof.
  induction l as [| x l IH]; intros H; simpl; [reflexivity |].
  rewrite (H x (or_introl eq_refl)). apply IH. intros y Hy. apply H. now right.
Qed.

Lemma jaccard_self (a : list String.string) :
  a <> [] -> jaccard_similarity a a = 1.
Proof.
  intros Hne. rewrite jaccard_value.
  assert (Ei : PySet.inter a a = a).
  { unfold PySet.inter. apply forallb_filter_id. apply forallb_forall.
    intros x Hx. now apply mem_spec. }
  assert (Eu : PySet.union a a = a).
  { unfold PySet.union. rewrite filter_none; [apply app_nil_r |].
    intros x Hx. apply Bool.negb_false_iff. now apply mem_spec. }
  rewrite Ei, Eu.
  destruct (Nat.eqb_spec (length a) 0) as [E | E].
  - destruct a; [congruence | discriminate].
  - field. apply not_0_INR. exact E.
Qed.

Lemma jaccard_positive (a b : list String.string) :
  0 < jaccard_similarity a b <-> exists x, In x a /\ In x b.
Proof.
  rewrite jaccard_value. split.
  - intros Hpos.
    destruct (Nat.eqb_spec (length (PySet.union a b)) 0) as [_ | Hne]; [lra |].
    destruct (PySet.inter a b) as [| x l] eqn:E.
    + simpl in Hpos. unfold Rdiv in Hpos. rewrite Rmult_0_l in Hpos. lra.
    + exists x. apply inter_spec. rewrite E. now left.
  - intros (x & Ha & Hb).
    assert (Hi : In x (PySet.inter a b)) by now apply inter_spec.
    assert (Hu : In x (PySet.union a b)) by (apply union_spec; now left).
    assert (Hil : (0 < length (PySet.inter a b))%nat).
    { destruct (PySet.inter a b); [contradiction | simpl; lia]. }
    assert (Hul : (0 < length (PySet.union a b))%nat).
    { destruct (PySet.union a b); [contradiction | simpl; lia]. }
    destruct (Nat.eqb_spec (length (PySet.union a b)) 0) as [E | _]; [lia |].
    apply Rdiv_lt_0_compat; now apply lt_0_INR.
Qed.

(** X5: the Jaccard similarity of two purchase sets lies in [0, 1], does not
    depend on the order of its arguments, and is 1 for a non-empty set
    compared with itself. *)
Theorem jaccard_similarity_range_and_symmetry (a b : list String.string) :
  NoDup a -> NoDup b ->
  0 <= jaccard_similarity a b <= 1 /\
  jaccard_similarity a b = jaccard_similarity b a /\
  (a <> [] -> jaccard_similarity a a = 1) /\
  jaccard_similarity [] [] = 0.
Proof.
  intros Ha Hb. split; [apply jaccard_bounds |].
  split; [now apply jaccard_sym |].
  split; [apply jaccard_self | reflexivity].
Qed.

(** X6: the similarity is positive exactly when the two sets share a book;
    in particular a user without purchases is similar to nobody. *)
Theorem jaccard_similarity_positive_iff_shared (a b : list String.string) :
  (0 < jaccard_similarity a b <-> exists x, In x a /\ In x b) /\
  jaccard_similarity [] b = 0.
Proof.
  split; [apply jaccard_positive |].
  pose proof (jaccard_bounds [] b) as [Hl _].
  destruct (Rle_lt_or_eq_dec _ _ Hl) as [Hlt | <-]; [| reflexivity].
  apply jaccard_positive in Hlt as (x & [] & _).
Qed.

End Jaccard.

(** * Sorting and slicing *)

Section SortTake.

Context {A : Type}.
Variable key : A -> R.


Lemma insert_desc_perm (x : A) (l : list A) :
  Permutation (PyList.insert_desc key x l) (x :: l).
Proof.
  induction l as [| y l IH]; simpl; [reflexivity |].
  destruct (Rle_dec (key y) (key x)); [reflexivity |].
  rewrite IH. apply perm_swap.
Qed.

Lemma sorted_desc_perm (l : list A) :
  Permutation (PyList.sorted_desc key l) l.
Proof.
  induction l as [| x l IH]; simpl; [reflexivity |].
  rewrite insert_desc_perm. now constructor.
Qed.

Lemma insert_desc_sorted (x : A) (l : list A) :
  StronglySorted (desc key) l -> StronglySorted (desc key) (PyList.insert_desc key x l).
Proof.
  induction 1 as [| y l Hs IH Hf]; simpl.
  - repeat constructor.
  - destruct (Rle_dec (key y) (key x)) as [Hle | Hgt].
    + constructor; [now constructor |].
      constructor; [exact Hle |].
      eapply Forall_impl; [| exact Hf]. unfold desc. intros z Hz. lra.
    + constructor; [exact IH |].
      apply Forall_forall. intros z Hz.
      apply (Permutation_in _ (insert_desc_perm x l)) in Hz.
      destruct Hz as [<- | Hz].
      * unfold desc. lra.
      * rewrite Forall_forall in Hf. now apply Hf.
Qed.

Lemma sorted_desc_sorted (l : list A) :
  StronglySorted (desc key) (PyList.sorted_desc key l).
Proof.
  induction l as [| x l IH]; simpl; [constructor |].
  now apply insert_desc_sorted.
Qed.

End SortTake.

Section Take.

Context {A : Type}.

Lemma firstn_in (n : nat) (l : list A) (x : A) :
  In x (firstn n l) -> In x l.
Proof.
  revert l. induction n as [| n IH]; intros [| y l]; simpl; try tauto.
  intros [<- | H]; [now left | right; now apply IH].
Qed.

Lemma firstn_sorted (Rel : A -> A -> Prop) (n : nat) (l : list A) :
  StronglySorted Rel l -> StronglySorted Rel (firstn n l).
Proof.
  intros Hs. revert n. induction Hs as [| x l Hs IH Hf]; intros [| n]; simpl;
    try constructor.
  - apply IH.
  - apply Forall_forall. intros y Hy. rewrite Forall_forall in Hf.
    apply Hf. eapply firstn_in; eassumption.
Qed.

Lemma take_in (k : Z) (l : list A) (x : A) :
  In x (PyList.take k l) -> In x l.
Proof.
  unfold PyList.take. destruct (0 <=? k)%Z; apply firstn_in.
Qed.

Lemma take_sorted (Rel : A -> A -> Prop) (k : Z) (l : list A) :
  StronglySorted Rel l -> StronglySorted Rel (PyList.take k l).
Proof.
  unfold PyList.take. destruct (0 <=? k)%Z; apply firstn_sorted.
Qed.

Lemma take_length (k : Z) (l : list A) :
  (0 <= k)%Z -> (length (PyList.take k l) <= Z.to_nat k)%nat.
Proof.
  intros Hk. unfold PyList.take.
  destruct (Z.leb_spec 0 k); [apply firstn_le_length |]. lia.
Qed.

Lemma take_all (k : Z) (l : list A) :
  (Z.of_nat (length l) <= k)%Z -> PyList.take k l = l.
Proof.
  intros Hk. unfold PyList.take.
  destruct (Z.leb_spec 0 k); [| lia]. apply firstn_all2. lia.
Qed.

End Take.

(** * Similar users *)

Section SimilarUsers.

Import RecommenderSystem.

Lemma dict_get_in {V : Type} (d : list (String.string * V))
    (k : String.string) (v : V) :
  Dict.get d k = Some v -> In (k, v) d.
Proof.
  induction d as [| [k' v'] d IH]; simpl; [discriminate |].
  destruct (String.eqb_spec k' k) as [-> | _].
  - intros E. inversion E. now left.
  - intros E. right. now apply IH.
Qed.

Lemma dict_get_none {V : Type} (d : list (String.string * V))
    (k : String.string) :
  Dict.get d k = None <-> ~ In k (Dict.keys d).
Proof.
  induction d as [| [k' v'] d IH]; simpl; [tauto |].
  destruct (String.eqb_spec k' k) as [-> | Hne].
  - split; [discriminate | intros H; exfalso; apply H; now left].
  - rewrite IH. tauto.
Qed.

Variable target_user_id : String.string.
Variable target : User.


Lemma similarities_spec (items : list (String.string * User)) :
  forall sims u s,
    In (u, s) (similarities target_user_id target items sims) <->
    In (u, s) sims \/ similar_to_target target_user_id target items u s.
Proof.
  unfold similar_to_target.
  induction items as [| [uid user] rest IH]; intros sims u s; simpl.
  - split; [auto | intros [H | (x & [] & _)]; exact H].
  - destruct (String.eqb_spec uid target_user_id) as [-> | Hne].
    + rewrite IH. split.
      * intros [H | (x & H1 & H2)]; [now left | right].
        exists x. split; [now right | exact H2].
      * intros [H | (x & [E | H1] & H2 & H3)]; [now left | | right].
        -- inversion E; subst. congruence.
        -- exists x. auto.
    + destruct (Rlt_dec 0 _) as [Hpos | Hn]; rewrite IH.
      * rewrite in_app_iff. simpl. split.
        -- intros [[H | [E | []]] | (x & H1 & H2)].
           ++ now left.
           ++ inversion E; subst. right. exists uid. auto.
           ++ right. exists x. split; [now right | exact H2].
        -- intros [H | (x & [E | H1] & H2 & H3 & H4)].
           ++ left. now left.
           ++ inversion E; subst. left. right. now left.
           ++ right. exists x. auto.
      * split.
        -- intros [H | (x & H1 & H2)]; [now left | right].
           exists x. split; [now right | exact H2].
        -- intros [H | (x & [E | H1] & H2 & H3 & H4)]; [now left | | right].
           ++ inversion E; subst. contradiction.
           ++ exists x. auto.
Qed.

(** The target's own entry never adds to the list. *)
Lemma similarities_length (items : list (String.string * User)) :
  forall sims,
    (length (similarities target_user_id target items sims)
     + match Dict.get items target_user_id with Some _ => 1 | None => 0 end
     <= length sims + length items)%nat.
Proof.
  induction items as [| [uid user] rest IH]; intros sims; simpl; [lia |].
  destruct (String.eqb_spec uid target_user_id) as [-> | Hne].
  - specialize (IH sims). destruct (Dict.get rest target_user_id); lia.
  - destruct (Rlt_dec 0 _).
    + specialize (IH (sims ++ [(user,
         jaccard_similarity (purchased_books target) (purchased_books user))])).
      rewrite length_app in IH. simpl in IH. lia.
    + specialize (IH sims). lia.
Qed.

End SimilarUsers.


Section MostSimilar.

Import RecommenderSystem.

Variable users : list (String.string * User).
Variable target_user_id : String.string.

Lemma most_similar_users_unknown (top_k : Z) :
  Dict.get users target_user_id = None ->
  most_similar_users users target_user_id top_k = Raise Py.KeyError.
Proof.
  intros E. unfold most_similar_users, Dict.item. now rewrite E.
Qed.

Lemma most_similar_users_known (top_k : Z) (target : User) :
  Dict.get users target_user_id = Some target ->
  exists sims,
    most_similar_users users target_user_id top_k = Ok sims /\
    (forall u s, In (u, s) sims ->
                 similar_to_target target_user_id target users u s) /\
    StronglySorted by_score_desc sims /\
    ((0 <= top_k)%Z -> (length sims <= Z.to_nat top_k)%nat) /\
    ((Z.of_nat (length users) - 1 <= top_k)%Z ->
     forall u s, similar_to_target target_user_id target users u s ->
                 In (u, s) sims).
Proof.
  intros E. unfold most_similar_users, Dict.item. rewrite E.
  set (all := similarities target_user_id target users []).
  exists (PyList.take top_k (PyList.sorted_desc snd all)).
  split; [reflexivity |].
  assert (Hall : forall u s, In (u, s) (PyList.sorted_desc snd all) <->
                             similar_to_target target_user_id target users u s).
  { intros u s. split.
    - intros H. apply (Permutation_in _ (sorted_desc_perm snd all)) in H.
      apply similarities_spec in H as [[] | H]. exact H.
    - intros H.
      apply (Permutation_in _ (Permutation_sym (sorted_desc_perm snd all))).
      apply similarities_spec. now right. }
  split; [| split; [| split]].
  - intros u s H. apply Hall. exact (take_in _ _ _ H).
  - apply take_sorted. apply (sorted_desc_sorted snd all).
  - apply take_length.
  - intros Hk u s H. rewrite take_all; [now apply Hall |].
    rewrite (Permutation_length (sorted_desc_perm snd all)).
    pose proof (similarities_length target_user_id target users []) as Hl.
    rewrite E in Hl. fold all in Hl. simpl in Hl. lia.
Qed.

End MostSimilar.

(** * Scores and recommendations *)

Section DictFacts.

Context {V : Type}.

Lemma dict_set_in (d : list (String.string * V)) (k : String.string) (v : V) :
  forall k' v', In (k', v') (Dict.set d k v) ->
                (k' = k /\ v' = v) \/ In (k', v') d.
Proof.
  induction d as [| [k0 v0] d IH]; intros k' v'; simpl.
  - intros [E | []]. inversion E. now left.
  - destruct (String.eqb_spec k0 k) as [-> | Hne]; simpl.
    + intros [E | H]; [inversion E; now left | right; now right].
    + intros [E | H]; [right; now left |].
      destruct (IH _ _ H) as [H' | H']; [now left | right; now right].
Qed.

Lemma dict_get_set (d : list (String.string * V)) (k k' : String.string)
    (v : V) :
  Dict.get (Dict.set d k v) k'
  = if String.eqb k k' then Some v else Dict.get d k'.
Proof.
  induction d as [| [k0 v0] d IH]; simpl.
  - reflexivity.
  - destruct (String.eqb_spec k0 k) as [-> | Hne]; simpl.
    + destruct (String.eqb_spec k k'); reflexivity.
    + rewrite IH. destruct (String.eqb_spec k0 k') as [-> | Hne'];
        [| reflexivity].
      destruct (String.eqb_spec k k'); [congruence | reflexivity].
Qed.

Lemma dict_set_keys (d : list (String.string * V)) (k : String.string)
    (v : V) (k' : String.string) :
  In k' (Dict.keys (Dict.set d k v)) <-> k' = k \/ In k' (Dict.keys d).
Proof.
  induction d as [| [k0 v0] d IH]; simpl.
  - intuition.
  - destruct (String.eqb_spec k0 k) as [-> | Hne]; simpl.
    + intuition.
    + rewrite IH. intuition.
Qed.

Lemma dict_set_NoDup (d : list (String.string * V)) (k : String.string)
    (v : V) :
  NoDup (Dict.keys d) -> NoDup (Dict.keys (Dict.set d k v)).
Proof.
  induction d as [| [k0 v0] d IH]; simpl; intros Hnd.
  - repeat constructor. intros [].
  - inversion Hnd as [| ? ? Hk Hd]; subst.
    destruct (String.eqb_spec k0 k) as [-> | Hne]; simpl.
    + now constructor.
    + constructor; [| now apply IH].
      intros H. apply dict_set_keys in H as [H | H]; [congruence | contradiction].
Qed.

Lemma dict_in_get (d : list (String.string * V)) (k : String.string) (v : V) :
  NoDup (Dict.keys d) -> In (k, v) d -> Dict.get d k = Some v.
Proof.
  induction d as [| [k0 v0] d IH]; simpl; intros Hnd Hin; [contradiction |].
  inversion Hnd as [| ? ? Hk Hd]; subst.
  destruct Hin as [E | Hin].
  - inversion E; subst. now rewrite String.eqb_refl.
  - destruct (String.eqb_spec k0 k) as [-> | Hne]; [| now apply IH].
    exfalso. apply Hk. change k with (fst (k, v)). now apply in_map.
Qed.

End DictFacts.

Section Scores.

Import RecommenderSystem.

Variable target : User.


Lemma score_books_scored (similar : list (User * R)) (u : User) (sim : R)
    (book_ids : list String.string) :
  0 < sim -> In (u, sim) similar ->
  (forall b, In b book_ids -> In b (purchased_books u)) ->
  forall score_map,
    Forall (scored target similar) score_map ->
    Forall (scored target similar) (score_books target sim book_ids score_map).
Proof.
  intros Hsim Hu.
  induction book_ids as [| b rest IH]; intros Hsub m Hm; simpl; [exact Hm |].
  destruct (PySet.mem b (purchased_books target)) eqn:Eb.
  - apply IH; [intros; apply Hsub; now right | exact Hm].
  - apply IH; [intros; apply Hsub; now right |].
    apply Forall_forall. intros [k v] Hin.
    unfold add_score in Hin. apply dict_set_in in Hin as [[-> ->] | Hin].
    + repeat split; cbn [fst snd].
      * now apply mem_false.
      * destruct (Dict.get m b) as [s |] eqn:Eg; [| lra].
        apply dict_get_in in Eg. rewrite Forall_forall in Hm.
        destruct (Hm _ Eg) as (_ & Hpos & _). cbn [snd] in Hpos. lra.
      * exists u, sim. split; [exact Hu | apply Hsub; now left].
    + rewrite Forall_forall in Hm. now apply Hm.
Qed.

Lemma scored_weaken (similar : list (User * R)) (x : User * R)
    (entry : String.string * R) :
  scored target similar entry -> scored target (x :: similar) entry.
Proof.
  intros (H1 & H2 & u & s & H3 & H4). repeat split; auto.
  exists u, s. split; [now right | exact H4].
Qed.

Lemma score_users_scored (all : list (User * R)) :
  (forall u s, In (u, s) all -> 0 < s) ->
  forall similar score_map,
    (forall x, In x similar -> In x all) ->
    Forall (scored target all) score_map ->
    Forall (scored target all) (score_users target similar score_map).
Proof.
  intros Hpos. induction similar as [| [u sim] rest IH]; intros m Hsub Hm;
    simpl; [exact Hm |].
  apply IH; [intros; apply Hsub; now right |].
  apply score_books_scored with (u := u); auto.
  - apply (Hpos u). apply Hsub. now left.
  - apply Hsub. now left.
Qed.

Lemma collect_in (books : list (String.string * Book))
    (ranked : list (String.string * R)) :
  forall recs book score,
    In (book, score) (collect books ranked recs) ->
    In (book, score) recs \/
    exists bid, In (bid, score) ranked /\ Dict.get books bid = Some book.
Proof.
  induction ranked as [| [bid sc] rest IH]; intros recs book score; simpl;
    [auto |].
  destruct (Dict.get books bid) as [b |] eqn:E; intros H;
    destruct (IH _ _ _ H) as [H' | (bid' & H1 & H2)].
  - apply in_app_or in H' as [H' | [E' | []]]; [now left |].
    inversion E'; subst. right. exists bid. split; [now left | exact E].
  - right. exists bid'. split; [now right | exact H2].
  - now left.
  - right. exists bid'. split; [now right | exact H2].
Qed.

Lemma collect_length (books : list (String.string * Book))
    (ranked : list (String.string * R)) :
  forall recs,
    (length (collect books ranked recs) <= length recs + length ranked)%nat.
Proof.
  induction ranked as [| [bid sc] rest IH]; intros recs; simpl; [lia |].
  destruct (Dict.get books bid).
  - specialize (IH (recs ++ [(b, sc)])). rewrite length_app in IH.
    simpl in IH. lia.
  - specialize (IH recs). lia.
Qed.

Lemma collect_sorted (books : list (String.string * Book))
    (ranked : list (String.string * R)) :
  StronglySorted by_score_desc ranked ->
  forall recs,
    StronglySorted by_score_desc recs ->
    (forall r x, In r recs -> In x ranked -> snd x <= snd r) ->
    StronglySorted by_score_desc (collect books ranked recs).
Proof.
  induction 1 as [| [bid sc] rest Hs IH Hf]; intros recs Hr Hle; simpl;
    [exact Hr |].
  rewrite Forall_forall in Hf.
  destruct (Dict.get books bid) as [b |].
  - apply IH.
    + apply sorted_app_iff. repeat split; [exact Hr | repeat constructor |].
      intros r x Hin [<- | []]. unfold by_score_desc. cbn [snd].
      exact (Hle r (bid, sc) Hin (or_introl eq_refl)).
    + intros r x Hin Hx. apply in_app_or in Hin as [Hin | [<- | []]].
      * apply Hle; [exact Hin | now right].
      * exact (Hf x Hx).
  - apply IH; [exact Hr |]. intros r x Hin Hx. apply Hle; [exact Hin | now right].
Qed.

End Scores.

Section Recommend.

Import RecommenderSystem.

Variable users : list (String.string * User).
Variable books : list (String.string * Book).
Variable target_user_id : String.string.

Lemma recommend_books_unknown (max_recs : Z) :
  Dict.get users target_user_id = None ->
  recommend_books users books target_user_id max_recs = Raise Py.KeyError.
Proof.
  intros E. unfold recommend_books, Dict.item. now rewrite E.
Qed.

Lemma recommend_books_known (max_recs : Z) (target : User) :
  Dict.get users target_user_id = Some target ->
  exists similar recs,
    most_similar_users users target_user_id 3 = Ok similar /\
    recommend_books users books target_user_id max_recs = Ok recs /\
    (forall book score,
        In (book, score) recs ->
        exists bid, Dict.get books bid = Some book /\
                    scored target similar (bid, score)) /\
    StronglySorted by_score_desc recs /\
    ((0 <= max_recs)%Z -> (length recs <= Z.to_nat max_recs)%nat) /\
    (similar = [] -> recs = []).
Proof.
  intros E.
  destruct (most_similar_users_known users target_user_id 3 E)
    as (similar & Hms & Hsim & _).
  unfold recommend_books, Dict.item. rewrite E, Hms.
  set (score_map := score_users target similar []).
  set (ranked := PyList.sorted_desc snd score_map).
  exists similar, (collect books (PyList.take max_recs ranked) []).
  split; [reflexivity |]. split; [reflexivity |].
  assert (Hscored : Forall (scored target similar) score_map).
  { apply score_users_scored; auto.
    intros u s H. now destruct (Hsim u s H) as (_ & _ & _ & _ & Hpos). }
  split; [| split; [| split]].
  - intros book score Hin.
    apply collect_in in Hin as [[] | (bid & Hin & Hget)].
    exists bid. split; [exact Hget |].
    apply take_in in Hin.
    apply (Permutation_in _ (sorted_desc_perm snd score_map)) in Hin.
    rewrite Forall_forall in Hscored. now apply Hscored.
  - apply collect_sorted.
    + apply take_sorted. apply (sorted_desc_sorted snd score_map).
    + constructor.
    + intros r x [].
  - intros Hk.
    pose proof (collect_length books (PyList.take max_recs ranked) []) as H1.
    pose proof (take_length ranked Hk) as H2. simpl in H1. lia.
  - intros ->. unfold ranked, score_map. simpl. unfold PyList.take.
    destruct (0 <=? max_recs)%Z; now rewrite firstn_nil.
Qed.

End Recommend.

Import RecommenderSystem.

(** X7: [most_similar_users] raises KeyError for an unknown user; otherwise
    it lists only other users, each with its positive Jaccard similarity to
    the target, in non-increasing order of similarity, at most [top_k] of
    them, and all of them when [top_k] is at least the number of users
    minus one. *)
Theorem most_similar_users_spec (users : list (String.string * User))
    (target_user_id : String.string) (top_k : Z) :
  match Dict.get users target_user_id with
  | None =>
      most_similar_users users target_user_id top_k = Raise Py.KeyError
  | Some target =>
      exists sims,
        most_similar_users users target_user_id top_k = Ok sims /\
        (forall u s, In (u, s) sims ->
           exists uid,
             In (uid, u) users /\ uid <> target_user_id /\
             s = jaccard_similarity (purchased_books target)
                                    (purchased_books u) /\
             0 < s) /\
        StronglySorted by_score_desc sims /\
        ((0 <= top_k)%Z -> (length sims <= Z.to_nat top_k)%nat) /\
        ((Z.of_nat (length users) - 1 <= top_k)%Z ->
         forall uid u,
           In (uid, u) users -> uid <> target_user_id ->
           0 < jaccard_similarity (purchased_books target)
                                  (purchased_books u) ->
           In (u, jaccard_similarity (purchased_books target)
                                     (purchased_books u)) sims)
  end.
Proof.
  destruct (Dict.get users target_user_id) as [target |] eqn:E.
  - destruct (most_similar_users_known users target_user_id top_k E)
      as (sims & Hr & Hsound & Hsorted & Hlen & Hall).
    exists sims. repeat split; auto.
    intros Hk uid u Hin Hne Hpos. apply (Hall Hk).
    exists uid. auto.
  - now apply most_similar_users_unknown.
Qed.

(** X8: [recommend_books] raises KeyError for an unknown user; otherwise
    every recommended book is a catalogue entry whose id the target has not
    purchased, was purchased by another user with positive similarity to
    the target, and carries a positive score. *)
Theorem recommendations_are_new_and_from_similar_users
    (users : list (String.string * User))
    (books : list (String.string * Book))
    (target_user_id : String.string) (max_recs : Z) :
  match Dict.get users target_user_id with
  | None =>
      recommend_books users books target_user_id max_recs
      = Raise Py.KeyError
  | Some target =>
      exists recs,
        recommend_books users books target_user_id max_recs = Ok recs /\
        forall book score,
          In (book, score) recs ->
          0 < score /\
          exists bid,
            Dict.get books bid = Some book /\
            ~ In bid (purchased_books target) /\
            exists uid u,
              In (uid, u) users /\ uid <> target_user_id /\
              In bid (purchased_books u) /\
              0 < jaccard_similarity (purchased_books target)
                                     (purchased_books u)
  end.
Proof.
  destruct (Dict.get users target_user_id) as [target |] eqn:E.
  - destruct (recommend_books_known users books target_user_id max_recs E)
      as (similar & recs & Hms & Hr & Hsound & _).
    exists recs. split; [exact Hr |].
    intros book score Hin.
    destruct (Hsound _ _ Hin) as (bid & Hget & Hnew & Hpos & u & s & Hu & Hb).
    cbn [fst snd] in *.
    split; [exact Hpos |]. exists bid. repeat split; auto.
    destruct (most_similar_users_known users target_user_id 3 E)
      as (similar' & Hms' & Hsim & _).
    rewrite Hms in Hms'. inversion Hms'; subst similar'.
    destruct (Hsim u s Hu) as (uid & H1 & H2 & H3 & H4).
    exists uid, u. repeat split; auto. now rewrite <- H3.
  - now apply recommend_books_unknown.
Qed.

(** X9: the list [recommend_books] returns is in non-increasing order of
    score, whatever [max_recs] is, and for [max_recs >= 0] it has at most
    [max_recs] entries. *)
Theorem recommendations_ranked_and_bounded
    (users : list (String.string * User))
    (books : list (String.string * Book))
    (target_user_id : String.string) (max_recs : Z) (recs : list (Book * R)) :
  recommend_books users books target_user_id max_recs = Ok recs ->
  StronglySorted by_score_desc recs /\
  ((0 <= max_recs)%Z -> (length recs <= Z.to_nat max_recs)%nat).
Proof.
  intros Hr.
  destruct (Dict.get users target_user_id) as [target |] eqn:E.
  - destruct (@recommend_books_known users books target_user_id max_recs
                target E)
      as (similar & recs' & _ & Hr' & _ & Hs & Hl & _).
    rewrite Hr in Hr'. inversion Hr'; subst recs'. now split.
  - rewrite (@recommend_books_unknown users books target_user_id max_recs E)
      in Hr. discriminate.
Qed.

Lemma nothing_shared_nothing_recommended
    (users : list (String.string * User))
    (books : list (String.string * Book))
    (target_user_id : String.string) (max_recs : Z) (target : User) :
  Dict.get users target_user_id = Some target ->
  (forall uid u b,
      In (uid, u) users -> uid <> target_user_id ->
      In b (purchased_books target) -> ~ In b (purchased_books u)) ->
  most_similar_users users target_user_id 3 = Ok [] /\
  recommend_books users books target_user_id max_recs = Ok [].
Proof.
  intros E Hdisjoint.
  destruct (recommend_books_known users books target_user_id max_recs E)
    as (similar & recs & Hms & Hr & _ & _ & _ & Hempty).
  destruct (most_similar_users_known users target_user_id 3 E)
    as (similar' & Hms' & Hsim & _).
  rewrite Hms in Hms'. inversion Hms'; subst similar'.
  assert (similar = []).
  { destruct similar as [| [u s] rest]; [reflexivity |].
    destruct (Hsim u s (or_introl eq_refl)) as (uid & H1 & H2 & H3 & H4).
    rewrite H3 in H4. apply jaccard_positive in H4 as (b & Hb1 & Hb2).
    exfalso. exact (Hdisjoint uid u b H1 H2 Hb1 Hb2). }
  subst similar. rewrite (Hempty eq_refl) in Hr. now split.
Qed.

(** X10: a user who shares no book with any other user (in particular a
    user with no purchases) gets no recommendation. *)
Theorem no_shared_book_no_recommendation
    (users : list (String.string * User))
    (books : list (String.string * Book))
    (target_user_id : String.string) (max_recs : Z) (target : User) :
  Dict.get users target_user_id = Some target ->
  (forall uid u b,
      In (uid, u) users -> uid <> target_user_id ->
      In b (purchased_books target) -> ~ In b (purchased_books u)) ->
  most_similar_users users target_user_id 3 = Ok [] /\
  recommend_books users books target_user_id max_recs = Ok [].
Proof. apply nothing_shared_nothing_recommended. Qed.

(** * The value of a score *)

Section ScoreValue.

Variable target : User.


Lemma add_score_value (m : list (String.string * R)) (b0 : String.string)
    (sim : R) (b : String.string) :
  score_in (add_score m b0 sim) b
  = score_in m b + (if String.eqb b0 b then sim else 0).
Proof.
  unfold score_in, add_score. rewrite dict_get_set.
  destruct (String.eqb_spec b0 b) as [-> | Hne]; [reflexivity | lra].
Qed.

Lemma score_books_value (sim : R) (book_ids : list String.string) :
  NoDup book_ids ->
  forall m,
    NoDup (Dict.keys m) ->
    NoDup (Dict.keys (score_books target sim book_ids m)) /\
    forall b,
      score_in (score_books target sim book_ids m) b
      = score_in m b
        + (if andb (PySet.mem b book_ids)
                   (negb (PySet.mem b (purchased_books target)))
           then sim else 0).
Proof.
  induction 1 as [| b0 rest Hb0 Hnd IH]; intros m Hm; simpl.
  - split; [exact Hm | intros; lra].
  - destruct (PySet.mem b0 (purchased_books target)) eqn:Eown.
    + destruct (IH m Hm) as [H1 H2]. split; [exact H1 |].
      intros b. rewrite H2.
      destruct (String.eqb_spec b b0) as [-> | Hne]; cbn [orb].
      * rewrite Eown. cbn [negb]. rewrite Bool.andb_false_r.
        destruct (PySet.mem b0 rest); reflexivity.
      * reflexivity.
    + destruct (IH (add_score m b0 sim)) as [H1 H2].
      { unfold add_score. now apply dict_set_NoDup. }
      split; [exact H1 |].
      intros b. rewrite H2, add_score_value.
      destruct (String.eqb_spec b0 b) as [<- | Hne].
      * rewrite String.eqb_refl. cbn [orb]. rewrite Eown. cbn [negb andb].
        apply mem_false in Hb0. rewrite Hb0. cbn [andb]. lra.
      * destruct (String.eqb_spec b b0) as [-> | _]; [congruence |].
        cbn [orb]. lra.
Qed.

Lemma score_users_value (similar : list (User * R)) :
  (forall u s, In (u, s) similar -> NoDup (purchased_books u)) ->
  forall m,
    NoDup (Dict.keys m) ->
    NoDup (Dict.keys (score_users target similar m)) /\
    forall b,
      score_in (score_users target similar m) b
      = score_in m b
        + (if PySet.mem b (purchased_books target) then 0
           else weight b similar).
Proof.
  induction similar as [| [u sim] rest IH]; intros Hnd m Hm; simpl.
  - split; [exact Hm |]. intros b.
    destruct (PySet.mem b (purchased_books target)); lra.
  - destruct (@score_books_value sim (purchased_books u)
                (Hnd u sim (or_introl eq_refl)) m Hm) as [H1 H2].
    destruct (IH (fun u' s' H => Hnd u' s' (or_intror H)) _ H1) as [H3 H4].
    split; [exact H3 |].
    intros b. rewrite H4, H2.
    destruct (PySet.mem b (purchased_books target)); cbn [negb];
      [rewrite Bool.andb_false_r; lra |].
    rewrite Bool.andb_true_r.
    destruct (PySet.mem b (purchased_books u)); lra.
Qed.

End ScoreValue.

(** X11: the score attached to a recommended book is the sum of the
    similarities of those among the (at most three) most similar users who
    bought it. *)
Theorem recommendation_score_is_weighted_sum
    (users : list (String.string * User))
    (books : list (String.string * Book))
    (target_user_id : String.string) (max_recs : Z) (target : User) :
  Dict.get users target_user_id = Some target ->
  (forall uid u, In (uid, u) users -> NoDup (purchased_books u)) ->
  exists similar recs,
    most_similar_users users target_user_id 3 = Ok similar /\
    (length similar <= 3)%nat /\
    recommend_books users books target_user_id max_recs = Ok recs /\
    forall book score,
      In (book, score) recs ->
      exists bid,
        Dict.get books bid = Some book /\ score = weight bid similar.
Proof.
  intros E Hnd.
  destruct (most_similar_users_known users target_user_id 3 E)
    as (similar & Hms & Hsim & _ & Hlen & _).
  exists similar, (collect books
                     (PyList.take max_recs
                        (PyList.sorted_desc snd
                           (score_users target similar []))) []).
  split; [exact Hms |]. split; [apply Hlen; lia |].
  split; [unfold recommend_books, Dict.item; now rewrite E, Hms |].
  intros book score Hin.
  apply collect_in in Hin as [[] | (bid & Hin & Hget)].
  exists bid. split; [exact Hget |].
  apply take_in in Hin.
  apply (Permutation_in _ (sorted_desc_perm snd _)) in Hin.
  destruct (@score_users_value target similar) with (m := @nil (String.string * R))
    as [Hkeys Hval].
  - intros u s Hu. destruct (Hsim u s Hu) as (uid & Hu' & _). eauto.
  - constructor.
  - pose proof (@dict_in_get _ _ _ _ Hkeys Hin) as Hg.
    specialize (Hval bid). unfold score_in in Hval. rewrite Hg in Hval.
    simpl in Hval.
    assert (Hscored : Forall (scored target similar)
                             (score_users target similar [])).
    { apply score_users_scored; auto.
      intros u s H. now destruct (Hsim u s H) as (_ & _ & _ & _ & Hpos). }
    rewrite Forall_forall in Hscored.
    destruct (Hscored _ Hin) as (Hnew & _). cbn [fst] in Hnew.
    apply mem_false in Hnew. rewrite Hnew in Hval. lra.
Qed.

(** ** The statements at the default data *)

(** Settles the comparisons of closed real numbers an evaluation meets. *)
Ltac decide_reals :=
  repeat match goal with
         | |- context [Rlt_dec ?a ?b] =>
             destruct (Rlt_dec a b); [| exfalso; simpl in *; lra]
         | |- context [Rlt_dec ?a ?b] =>
             destruct (Rlt_dec a b); [exfalso; simpl in *; lra |]
         | |- context [Rle_dec ?a ?b] =>
             destruct (Rle_dec a b); [| exfalso; simpl in *; lra]
         | |- context [Rle_dec ?a ?b] =>
             destruct (Rle_dec a b); [exfalso; simpl in *; lra |]
         end.

Section DefaultData.

Import Defaults.

Lemma default_sets_NoDup :
  forall uid u, In (uid, u) users -> NoDup (purchased_books u).
Proof.
  intros uid u [E | [E | [E | []]]]; inversion E; subst; simpl;
    repeat (constructor; [simpl; intuition discriminate |]); constructor.
Qed.

Lemma dana_shares_nothing :
  forall uid u b,
    In (uid, u) (users ++ [(user_id dana, dana)]) -> uid <> user_id dana ->
    In b (purchased_books dana) -> ~ In b (purchased_books u).
Proof. intros uid u b _ _ []. Qed.

Lemma dana_is_known :
  Dict.get (users ++ [(user_id dana, dana)]) (user_id dana) = Some dana.
Proof. reflexivity. Qed.

Lemma jaccard_similarity_range_and_symmetry_witness :
  0 <= jaccard_similarity (purchased_books alice) (purchased_books bob) <= 1 /\
  jaccard_similarity (purchased_books alice) (purchased_books bob)
  = jaccard_similarity (purchased_books bob) (purchased_books alice).
Proof.
  destruct (@jaccard_similarity_range_and_symmetry
              (purchased_books alice) (purchased_books bob))
    as (H1 & H2 & _).
  - exact (@default_sets_NoDup (user_id alice) alice (or_introl eq_refl)).
  - exact (@default_sets_NoDup (user_id bob) bob
             (or_intror (or_introl eq_refl))).
  - split; assumption.
Defined.

(** What Alice is recommended: the book both similar users bought comes
    first. *)
Lemma alice_recommendations :
  exists s4 s3,
    recommend_books users books (user_id alice) 5
    = Ok [(story_of_night, s4); (deep_learning, s3)] /\
    s4 = 7 / 12 /\ s3 = 1 / 4.
Proof.
  unfold recommend_books, most_similar_users, Dict.item.
  cbn [Dict.get users]. simpl.
  decide_reals. simpl. decide_reals. simpl. decide_reals.
  do 2 eexists. split; [reflexivity | split; lra].
Qed.

Lemma recommendations_ranked_and_bounded_witness :
  exists s4 s3,
    recommend_books users books (user_id alice) 5
    = Ok [(story_of_night, s4); (deep_learning, s3)] /\
    StronglySorted by_score_desc [(story_of_night, s4); (deep_learning, s3)] /\
    ((0 <= 5)%Z ->
     (length [(story_of_night, s4); (deep_learning, s3)] <= Z.to_nat 5)%nat).
Proof.
  destruct alice_recommendations as (s4 & s3 & Hr & _).
  exists s4, s3. split; [exact Hr |].
  exact (@recommendations_ranked_and_bounded users books (user_id alice) 5
           [(story_of_night, s4); (deep_learning, s3)] Hr).
Defined.

Lemma no_shared_book_no_recommendation_witness :
  most_similar_users (users ++ [(user_id dana, dana)]) (user_id dana) 3
  = Ok [] /\
  recommend_books (users ++ [(user_id dana, dana)]) books (user_id dana) 5
  = Ok [].
Proof.
  apply (@no_shared_book_no_recommendation
           (users ++ [(user_id dana, dana)]) books (user_id dana) 5 dana).
  - exact dana_is_known.
  - exact dana_shares_nothing.
Defined.

Lemma recommendation_score_is_weighted_sum_witness :
  exists similar recs,
    most_similar_users users (user_id alice) 3 = Ok similar /\
    (length similar <= 3)%nat /\
    recommend_books users books (user_id alice) 5 = Ok recs /\
    forall book score,
      In (book, score) recs ->
      exists bid,
        Dict.get books bid = Some book /\ score = weight bid similar.
Proof.
  apply (@recommendation_score_is_weighted_sum users books (user_id alice) 5
           alice).
  - reflexivity.
  - exact default_sets_NoDup.
Defined.

End DefaultData.

(** * The inventory *)

Section DictMore.

Context {V : Type}.

Lemma dict_set_new (d : list (String.string * V)) (k : String.string) (v : V) :
  Dict.get d k = None -> Dict.set d k v = d ++ [(k, v)].
Proof.
  induction d as [| [k0 v0] d IH]; simpl; [reflexivity |].
  destruct (String.eqb_spec k0 k); [discriminate |].
  intros E. now rewrite IH.
Qed.

Lemma dict_del_middle (before after : list (String.string * V))
    (k : String.string) (v : V) :
  ~ In k (Dict.keys before) ->
  Dict.del (before ++ (k, v) :: after) k = before ++ after.
Proof.
  induction before as [| [k0 v0] before IH]; simpl; intros Hk.
  - now rewrite String.eqb_refl.
  - destruct (String.eqb_spec k0 k) as [-> | Hne].
    + exfalso. apply Hk. now left.
    + rewrite IH; [reflexivity |]. intros H. apply Hk. now right.
Qed.

End DictMore.

Section Manager.

Import Inventory.


(** The scan shared by [delete_item] and [set_quantity]. *)
Lemma find_key_cases (entries : list (String.string * InventoryItem))
    (item_id : String.string) :
  (find_key entries item_id = None /\ no_match item_id entries)
  \/
  (exists before key item after,
      entries = before ++ (key, item) :: after /\
      find_key entries item_id = Some key /\
      same_id item item_id = true /\
      no_match item_id before).
Proof.
  induction entries as [| [key item] rest IH]; simpl.
  - left. split; [reflexivity |]. intros k i [].
  - destruct (same_id item item_id) eqn:E.
    + right. exists [], key, item, rest. repeat split; auto. intros k i [].
    + destruct IH as [[Hn Hno] | (before & k & i & after & -> & Hf & Hs & Hno)].
      * left. split; [exact Hn |].
        intros k i [H | H]; [inversion H; now subst | eapply Hno; eassumption].
      * right. exists ((key, item) :: before), k, i, after.
        repeat split; auto.
        intros k' i' [H | H]; [inversion H; now subst | eapply Hno; eassumption].
Qed.

Lemma assign_quantity_split (before after : list (String.string * InventoryItem))
    (key : String.string) (item : InventoryItem) (item_id : String.string)
    (q : Z) :
  no_match item_id before -> same_id item item_id = true ->
  assign_quantity (before ++ (key, item) :: after) item_id q
  = Some (before
          ++ (key, mkItem (id item) (name item) q (threshold item)
                          (reorder_amount item) (group item)
                          (supplier_id item) (last_reordered item))
          :: after).
Proof.
  intros Hno Hs. induction before as [| [k0 i0] before IH]; simpl.
  - now rewrite Hs.
  - rewrite (Hno k0 i0 (or_introl eq_refl)).
    rewrite IH; [reflexivity |].
    intros k i H. apply (Hno k i). now right.
Qed.



Lemma save_and_return_cases (b : bool) (m : InventoryManager) :
  (writable m = true /\
   save_and_return b m
   = (Ok b, mkManager (items m) (Some (items m)) true))
  \/
  (writable m = false /\ save_and_return b m = (Raise Py.OSError, m)).
Proof.
  unfold save_and_return, save_data.
  destruct (writable m) eqn:E; [left | right]; split; reflexivity.
Qed.

Lemma add_item_cases (m : InventoryManager) (item : InventoryItem) :
  (Dict.get (items m) (id item) <> None /\ add_item m item = (Ok false, m))
  \/
  (Dict.get (items m) (id item) = None /\
   add_item m item
   = save_and_return true
       (mkManager (items m ++ [(id item, item)]) (file m) (writable m))).
Proof.
  unfold add_item, has_key.
  destruct (Dict.get (items m) (id item)) eqn:E.
  - left. split; [discriminate | reflexivity].
  - right. split; [reflexivity |].
    now rewrite (@dict_set_new _ (items m) (id item) item E).
Qed.

Lemma delete_item_cases (m : InventoryManager) (item_id : String.string) :
  NoDup (Dict.keys (items m)) ->
  (no_match item_id (items m) /\ delete_item m item_id = (Ok false, m))
  \/
  (exists before key item after,
      items m = before ++ (key, item) :: after /\
      same_id item item_id = true /\
      no_match item_id before /\
      delete_item m item_id
      = save_and_return true
          (mkManager (before ++ after) (file m) (writable m))).
Proof.
  intros Hnd. unfold delete_item.
  destruct (find_key_cases (items m) item_id)
    as [[Hn Hno] | (before & key & item & after & E & Hf & Hs & Hno)].
  - left. rewrite Hn. now split.
  - right. exists before, key, item, after. rewrite Hf.
    repeat split; auto. rewrite E, dict_del_middle; [reflexivity |].
    rewrite E in Hnd. unfold Dict.keys in *. rewrite map_app in Hnd.
    simpl in Hnd. apply NoDup_remove_2 in Hnd.
    intros H. apply Hnd. apply in_or_app. now left.
Qed.

Lemma set_quantity_cases (max_str_digits : nat) (m : InventoryManager)
    (item_id new_quantity : String.string) :
  set_quantity max_str_digits m item_id new_quantity = (Ok false, m)
  \/
  (exists q before key item after,
      PyStr.to_int max_str_digits (PyStr.strip new_quantity) = Some q /\
      (0 <= q)%Z /\
      items m = before ++ (key, item) :: after /\
      same_id item item_id = true /\
      no_match item_id before /\
      set_quantity max_str_digits m item_id new_quantity
      = save_and_return true
          (mkManager
             (before
              ++ (key, mkItem (id item) (name item) q (threshold item)
                              (reorder_amount item) (group item)
                              (supplier_id item) (last_reordered item))
              :: after)
             (file m) (writable m))).
Proof.
  unfold set_quantity.
  destruct (find_key_cases (items m) item_id)
    as [[Hn Hno] | (before & key & item & after & E & Hf & Hs & Hno)].
  - left. now rewrite Hn.
  - rewrite Hf.
    destruct (PyStr.to_int max_str_digits (PyStr.strip new_quantity))
      as [q |] eqn:Eq; [| now left].
    destruct (Z.ltb_spec q 0) as [Hneg | Hpos]; [now left |].
    right. exists q, before, key, item, after.
    repeat split; auto.
    rewrite E, (@assign_quantity_split before after key item item_id q Hno Hs).
    reflexivity.
Qed.

End Manager.

Import Inventory.

(** X12: [add_item] never overwrites: when the item's id is already a key
    it returns False and changes nothing.  Otherwise the item goes last in
    [items], can be looked up under its id, and every other lookup is as
    before; then, if the file can be written, the file holds the new
    contents and the call returns True, and if not, the call raises the
    [OSError] of [save_data] with the item already in [items] and the file
    as it was. *)
Theorem add_item_spec (m : InventoryManager) (item : InventoryItem) :
  (Dict.get (items m) (id item) <> None /\ add_item m item = (Ok false, m))
  \/
  (Dict.get (items m) (id item) = None /\
   items (snd (add_item m item)) = items m ++ [(id item, item)] /\
   Dict.get (items (snd (add_item m item))) (id item) = Some item /\
   (forall k, k <> id item ->
      Dict.get (items (snd (add_item m item))) k = Dict.get (items m) k) /\
   ((writable m = true /\ fst (add_item m item) = Ok true /\
     saved (snd (add_item m item)))
    \/ save_failed m (add_item m item))).
Proof.
  destruct (add_item_cases m item) as [H | [E Hr]]; [now left | right].
  split; [exact E |]. rewrite Hr.
  assert (Hitems : forall r,
            r = save_and_return true
                  (mkManager (items m ++ [(id item, item)]) (file m)
                             (writable m)) ->
            items (snd r) = items m ++ [(id item, item)]).
  { intros r ->.
    destruct (save_and_return_cases true
                (mkManager (items m ++ [(id item, item)]) (file m)
                           (writable m))) as [[_ ->] | [_ ->]];
      reflexivity. }
  rewrite (Hitems _ eq_refl).
  rewrite <- (@dict_set_new _ (items m) (id item) item E).
  split; [reflexivity |]. split.
  { rewrite dict_get_set. now rewrite String.eqb_refl. }
  split.
  { intros k Hk. rewrite dict_get_set.
    destruct (String.eqb_spec (id item) k); [congruence | reflexivity]. }
  rewrite (@dict_set_new _ (items m) (id item) item E).
  destruct (save_and_return_cases true
              (mkManager (items m ++ [(id item, item)]) (file m)
                         (writable m))) as [[Hw ->] | [Hw ->]];
    cbn [writable] in Hw.
  - left. now repeat split.
  - right. unfold save_failed. cbn [fst snd file writable]. now repeat split.
Qed.

(** X13: [delete_item] returns False and changes nothing when no item's id
    equals the given one up to surrounding whitespace.  Otherwise it
    removes exactly the first such entry from [items] and keeps all others
    in order; then, if the file can be written, the file holds the new
    contents and the call returns True, and if not, the call raises the
    [OSError] of [save_data] with the entry already removed and the file
    as it was. *)
Theorem delete_item_spec (m : InventoryManager) (item_id : String.string) :
  NoDup (Dict.keys (items m)) ->
  (no_match item_id (items m) /\ delete_item m item_id = (Ok false, m))
  \/
  (exists before key item after,
      items m = before ++ (key, item) :: after /\
      same_id item item_id = true /\
      no_match item_id before /\
      items (snd (delete_item m item_id)) = before ++ after /\
      ((writable m = true /\ fst (delete_item m item_id) = Ok true /\
        saved (snd (delete_item m item_id)))
       \/ save_failed m (delete_item m item_id))).
Proof.
  intros Hnd.
  destruct (@delete_item_cases m item_id Hnd)
    as [H | (before & key & item & after & E & Hs & Hno & Hr)];
    [now left | right].
  exists before, key, item, after. rewrite Hr.
  split; [exact E |]. split; [exact Hs |]. split; [exact Hno |].
  destruct (save_and_return_cases true
              (mkManager (before ++ after) (file m) (writable m)))
    as [[Hw ->] | [Hw ->]]; cbn [writable] in Hw; cbn [fst snd items].
  - split; [reflexivity |]. left. now repeat split.
  - split; [reflexivity |]. right. unfold save_failed.
    cbn [fst snd file writable]. now repeat split.
Qed.

(** X14: where the file can be written, adding an item under a fresh id
    and deleting that id again returns True twice and leaves the items as
    they were, with the file holding them, provided no earlier item's id
    equals the new one up to surrounding whitespace. *)
Theorem add_then_delete (m : InventoryManager) (item : InventoryItem) :
  writable m = true ->
  NoDup (Dict.keys (items m)) ->
  Dict.get (items m) (id item) = None ->
  no_match (id item) (items m) ->
  exists m1,
    add_item m item = (Ok true, m1) /\
    delete_item m1 (id item)
    = (Ok true, mkManager (items m) (Some (items m)) true).
Proof.
  intros Hw Hnd Hnew Hno.
  destruct (add_item_cases m item) as [[H _] | [_ Hr]]; [contradiction |].
  destruct (save_and_return_cases true
              (mkManager (items m ++ [(id item, item)]) (file m)
                         (writable m))) as [[_ Hs] | [Hw' _]];
    [| cbn [writable] in Hw'; congruence].
  rewrite Hs in Hr. cbn [items] in Hr.
  eexists. split; [exact Hr |].
  assert (Hnd1 : NoDup (Dict.keys (items m ++ [(id item, item)]))).
  { unfold Dict.keys in *. rewrite map_app. simpl.
    apply NoDup_app; [exact Hnd | repeat constructor; intros [] |].
    intros x Hx [<- | []]. now apply dict_get_none in Hnew. }
  destruct (@delete_item_cases
              (mkManager (items m ++ [(id item, item)])
                         (Some (items m ++ [(id item, item)])) true)
              (id item) Hnd1)
    as [[Hno' _] | (before & key & it & after & E & Hsame & Hnb & Hr')].
  - exfalso. cbn [items] in Hno'.
    specialize (Hno' (id item) item (in_elt _ _ _)).
    unfold same_id in Hno'. now rewrite String.eqb_refl in Hno'.
  - cbn [items file writable] in E, Hr'. rewrite Hr'.
    assert (Hba : before = items m /\ after = []).
    { destruct after as [| a after'].
      - apply app_inj_tail in E as [-> _]. now split.
      - exfalso.
        assert (Hin : In (key, it) (items m)).
        { assert (H : In (key, it) (removelast (items m ++ [(id item, item)]))).
          { rewrite E. rewrite removelast_app by discriminate.
            apply in_or_app. right. simpl. now left. }
          now rewrite removelast_last in H. }
        specialize (Hno _ _ Hin). congruence. }
    destruct Hba as [-> ->]. rewrite app_nil_r. reflexivity.
Qed.

(** X15: [set_quantity] never makes stock negative: if every quantity was
    non-negative it still is afterwards.  Whatever the stock, the keys
    never change; when the call returns False the manager is untouched;
    when it returns True the file holds the new contents; and the only
    exception is the [OSError] of [save_data], with the file as it was. *)
Theorem set_quantity_keeps_stock_nonnegative (max_str_digits : nat)
    (m : InventoryManager) (item_id new_quantity : String.string) :
  (stock_nonnegative m ->
   stock_nonnegative (snd (set_quantity max_str_digits m item_id
                                        new_quantity))) /\
  Dict.keys (items (snd (set_quantity max_str_digits m item_id new_quantity)))
  = Dict.keys (items m) /\
  (fst (set_quantity max_str_digits m item_id new_quantity) = Ok false ->
   snd (set_quantity max_str_digits m item_id new_quantity) = m) /\
  (fst (set_quantity max_str_digits m item_id new_quantity) = Ok true ->
   saved (snd (set_quantity max_str_digits m item_id new_quantity))) /\
  (forall e,
     fst (set_quantity max_str_digits m item_id new_quantity) = Raise e ->
     save_failed m (set_quantity max_str_digits m item_id new_quantity)).
Proof.
  destruct (set_quantity_cases max_str_digits m item_id new_quantity)
    as [-> | (q & before & key & item & after & Hq & Hpos & E & Hs & Hno & ->)];
    cbn [fst snd].
  - repeat split; auto; discriminate.
  - match goal with
    | |- context [save_and_return true ?m'] =>
        destruct (save_and_return_cases true m') as [[Hw ->] | [Hw ->]]
    end; cbn [writable] in Hw; cbn [fst snd items file].
    + split.
      { unfold stock_nonnegative. cbn [items]. rewrite E. intros Hm.
        rewrite Forall_app in *. destruct Hm as [H1 H2]. split; [exact H1 |].
        inversion H2; subst. constructor; [exact Hpos | assumption]. }
      split; [rewrite E; unfold Dict.keys; now rewrite !map_app |].
      split; [discriminate |]. split; [reflexivity |].
      intros e He. discriminate.
    + split.
      { unfold stock_nonnegative. cbn [items]. rewrite E. intros Hm.
        rewrite Forall_app in *. destruct Hm as [H1 H2]. split; [exact H1 |].
        inversion H2; subst. constructor; [exact Hpos | assumption]. }
      split; [rewrite E; unfold Dict.keys; now rewrite !map_app |].
      split; [discriminate |]. split; [discriminate |].
      intros e He. unfold save_failed. cbn [fst snd file writable].
      now repeat split.
Qed.

(** * Searching and sorting the inventory *)

Section StringFacts.

Import String.

Lemma prefix_empty (s : string) : prefix EmptyString s = true.
Proof. destruct s; reflexivity. Qed.






Lemma leb_refl (s : string) : leb s s = true.
Proof. now destruct (leb_total s s). Qed.

End StringFacts.


Section SortByGroup.


Lemma insert_by_group_perm (x : InventoryItem) (l : list InventoryItem) :
  Permutation (insert_by_group x l) (x :: l).
Proof.
  induction l as [| y l IH]; simpl; [reflexivity |].
  destruct (String.leb (group x) (group y)); [reflexivity |].
  rewrite IH. apply perm_swap.
Qed.

Lemma insert_by_group_sorted (x : InventoryItem) (l : list InventoryItem) :
  Sorted group_le l -> Sorted group_le (insert_by_group x l).
Proof.
  induction 1 as [| y l Hs IH Hhd]; simpl.
  - repeat constructor.
  - destruct (String.leb (group x) (group y)) eqn:E.
    + constructor; [now constructor | now constructor].
    + constructor; [exact IH |].
      assert (Hyx : group_le y x).
      { unfold group_le. destruct (String.leb_total (group x) (group y));
          congruence. }
      destruct l as [| z l]; simpl.
      * now constructor.
      * destruct (String.leb (group x) (group z)); constructor;
          [exact Hyx | now inversion Hhd].
Qed.

Lemma insert_by_group_filter (g : String.string) (x : InventoryItem)
    (l : list InventoryItem) :
  filter (fun i => String.eqb (group i) g) (insert_by_group x l)
  = filter (fun i => String.eqb (group i) g) (x :: l).
Proof.
  induction l as [| y l IH]; [reflexivity |].
  cbn [insert_by_group].
  destruct (String.leb (group x) (group y)) eqn:E; [reflexivity |].
  cbn [filter] in *. rewrite IH.
  destruct (String.eqb_spec (group x) g) as [Hx | Hx];
    destruct (String.eqb_spec (group y) g) as [Hy | Hy]; try reflexivity.
  exfalso. rewrite Hx, Hy, leb_refl in E. discriminate.
Qed.

End SortByGroup.

(** X17: [sort_by_group] returns all items of the inventory, each once,
    in non-decreasing order of group, and items of the same group keep their
    order in the inventory. *)
Theorem sort_by_group_spec (m : InventoryManager) :
  Permutation (sort_by_group m) (Dict.values (items m)) /\
  Sorted group_le (sort_by_group m) /\
  forall g,
    filter (fun i => String.eqb (group i) g) (sort_by_group m)
    = filter (fun i => String.eqb (group i) g) (Dict.values (items m)).
Proof.
  unfold sort_by_group.
  induction (Dict.values (items m)) as [| x l (IH1 & IH2 & IH3)]; simpl.
  - repeat split; constructor.
  - split; [| split].
    + rewrite insert_by_group_perm. now constructor.
    + now apply insert_by_group_sorted.
    + intros g. rewrite insert_by_group_filter. cbn [filter].
      now rewrite IH3.
Qed.

(** ** The statements at a small inventory *)

Section SmallInventory.

Import Stock.

Lemma shelf_keys_NoDup : NoDup (Dict.keys (items shelf)).
Proof. repeat constructor. intros []. Qed.

Lemma shelf_has_no_rice : no_match (id rice) (items shelf).
Proof.
  intros key item [E | []]. inversion E; subst. reflexivity.
Qed.

Lemma delete_item_spec_witness :
  (no_match (id pens) (items shelf) /\
   delete_item shelf (id pens) = (Ok false, shelf))
  \/
  (exists before key item after,
      items shelf = before ++ (key, item) :: after /\
      same_id item (id pens) = true /\
      no_match (id pens) before /\
      items (snd (delete_item shelf (id pens))) = before ++ after /\
      ((writable shelf = true /\
        fst (delete_item shelf (id pens)) = Ok true /\
        saved (snd (delete_item shelf (id pens))))
       \/ save_failed shelf (delete_item shelf (id pens)))).
Proof.
  apply (@delete_item_spec shelf (id pens)). exact shelf_keys_NoDup.
Defined.

Lemma add_then_delete_witness :
  exists m1,
    add_item shelf rice = (Ok true, m1) /\
    delete_item m1 (id rice)
    = (Ok true, mkManager (items shelf) (Some (items shelf)) true).
Proof.
  apply (@add_then_delete shelf rice).
  - reflexivity.
  - exact shelf_keys_NoDup.
  - reflexivity.
  - exact shelf_has_no_rice.
Defined.

(** Counting 25 pens, typed with blanks around the number, on a shelf
    whose file can be written, and on one whose folder is missing. *)
Example set_quantity_counted :
  set_quantity 4300 shelf (id pens) counted
  = (Ok true,
     mkManager [(id pens, new_item (id pens) (name pens) 25 10 50
                                   (group pens) (supplier_id pens))]
               (Some [(id pens, new_item (id pens) (name pens) 25 10 50
                                         (group pens) (supplier_id pens))])
               true) /\
  set_quantity 4300 (mkManager (items shelf) None false) (id pens) counted
  = (Raise Py.OSError,
     mkManager [(id pens, new_item (id pens) (name pens) 25 10 50
                                   (group pens) (supplier_id pens))]
               None false).
Proof. split; reflexivity. Qed.

End SmallInventory.

(** * The planner on floats: how a run can end *)

Lemma sound_returns {A : Type} (v : A) : sound (Returns v).
Proof. left. now exists v. Qed.

Lemma sound_bind {A B : Type} (o : outcome A) (k : A -> outcome B) :
  sound o -> (forall v, sound (k v)) -> sound (bind o k).
Proof.
  intros [[v ->] | (e & He & ->)] Hk; [apply Hk |].
  right. exists e. now split.
Qed.

Lemma bind_returns {A B : Type} (o : outcome A) (k : A -> outcome B) (v : B) :
  bind o k = Returns v -> exists a, o = Returns a /\ k a = Returns v.
Proof.
  destruct o as [a | e |]; simpl; intros H; try discriminate.
  now exists a.
Qed.

Lemma list_remove_perm (b : nat) (l l' : list nat) :
  list_remove b l = Returns l' -> Permutation l (b :: l').
Proof.
  revert l'. induction l as [| y l IH]; intros l'; simpl; [discriminate |].
  destruct (Nat.eq_dec y b) as [-> | _].
  - intros H. inversion H. reflexivity.
  - intros H. apply bind_returns in H as (r & Hr & H). inversion H; subst.
    rewrite (IH r Hr). apply perm_swap.
Qed.

Section FloatRuns.
Import PrimFloat.
Local Open Scope float_scope.

Variable m : Float64.libm.

Lemma math_1_sound (f : float -> float) (x : float) :
  sound (Float64.math_1 f x).
Proof.
  unfold Float64.math_1.
  destruct (andb _ _); [right; exists ValueError; split; [now left | reflexivity] |].
  destruct (andb _ _); [right; exists ValueError; split; [now left | reflexivity] |].
  apply sound_returns.
Qed.

Lemma math_2_sound (f : float -> float -> float) (x y : float) :
  sound (Float64.math_2 f x y).
Proof.
  unfold Float64.math_2.
  destruct (andb _ _); [right; exists ValueError; split; [now left | reflexivity] |].
  destruct (andb _ _);
    [right; exists OverflowError; split; [now right | reflexivity] |].
  apply sound_returns.
Qed.

Lemma float_pow2_sound (v : float) : sound (Float64.float_pow2 m v).
Proof.
  unfold Float64.float_pow2.
  repeat match goal with
         | |- sound (if ?c then _ else _) => destruct c
         | |- sound (Returns _) => apply sound_returns
         | |- sound (let _ := _ in _) => cbv zeta
         end.
  right. exists OverflowError. split; [now right | reflexivity].
Qed.

Lemma hav_x_sound (lat1 lon1 lat2 lon2 : float) :
  sound (Float64.hav_x m lat1 lon1 lat2 lon2).
Proof.
  unfold Float64.hav_x, Float64.math_sin, Float64.math_cos. cbv zeta.
  repeat (apply sound_bind;
          [first [apply math_1_sound | apply float_pow2_sound] | intros ?]).
  apply sound_returns.
Qed.

(** [haversine] returns a float or raises [ValueError] or
    [OverflowError]. *)
Lemma haversine_sound (a b : Float64.point) :
  sound (Float64.haversine m a b).
Proof.
  unfold Float64.haversine, Float64.math_sqrt, Float64.math_atan2. cbv zeta.
  apply sound_bind; [apply hav_x_sound | intros x].
  apply sound_bind; [apply math_1_sound | intros r1].
  apply sound_bind; [apply math_1_sound | intros r2].
  apply sound_bind; [apply math_2_sound | intros t].
  apply sound_returns.
Qed.

Variable start : Float64.point.
Variable points : list Float64.destination.

Lemma getitem_point_at (i : nat) (q : Float64.destination) :
  getitem points i = Returns q -> Float64.point_at points i = Float64.coords q.
Proof.
  unfold getitem, Float64.point_at.
  destruct (nth_error points i); intros H; inversion H; reflexivity.
Qed.

Lemma getitem_cases (i : nat) :
  (exists q, getitem points i = Returns q /\ (i < length points)%nat) \/
  (getitem points i = Raises IndexError /\ ~ (i < length points)%nat).
Proof.
  unfold getitem. destruct (nth_error points i) as [q |] eqn:E.
  - left. exists q. split; [reflexivity |]. apply nth_error_Some. congruence.
  - right. split; [reflexivity |]. apply nth_error_None in E. lia.
Qed.

(** ** build_edges *)

Lemma chain_seq (n : nat) :
  forall prev,
    chain prev (S prev) n
    = map (fun k => (k, S k)) (seq prev n) ++ [((prev + n)%nat, 0%nat)].
Proof.
  induction n as [| n IH]; intros prev; simpl.
  - now rewrite Nat.add_0_r.
  - rewrite IH. now rewrite Nat.add_succ_r.
Qed.

Lemma chain_closed (n : nat) : chain 0 1 n = closed_walk n.
Proof. apply chain_seq. Qed.

(** What [build_edges] can end in, from any point of its loop. *)
Lemma build_edges_from_cases (order : list nat) :
  forall pos prev current edges,
    match Float64.build_edges_from m start points order pos prev current edges
    with
    | Returns out =>
        indices_below (length points) order /\
        exists tail,
          out = edges ++ tail /\
          map Float64.edge_ends tail = chain prev pos (length order) /\
          Forall2 (measures m) tail
                  (Float64.legs_from current
                     (map (Float64.point_at points) order) start)
    | Raises e =>
        (e = IndexError /\ ~ indices_below (length points) order) \/
        (arithmetic e /\
         exists leg,
           In leg (Float64.legs_from current
                     (map (Float64.point_at points) order) start) /\
           Float64.haversine m (fst leg) (snd leg) = Raises e)
    | OutOfFuel => False
    end.
Proof.
  induction order as [| i rest IH]; intros pos prev current edges.
  - cbn [Float64.build_edges_from map Float64.legs_from length chain].
    destruct (haversine_sound current start) as [[d Hd] | (e & He & Hd)];
      rewrite Hd; cbn [bind].
    + split; [constructor |]. exists [(prev, 0%nat, d)].
      split; [reflexivity |]. split; [reflexivity |].
      constructor; [exact Hd | constructor].
    + right. split; [exact He |]. exists (current, start).
      split; [now left | exact Hd].
  - cbn [Float64.build_edges_from map Float64.legs_from length chain].
    destruct (getitem_cases i) as [(q & Hq & Hi) | [Hq Hi]];
      rewrite Hq; cbn [bind].
    2:{ left. split; [reflexivity |]. intros Hv. inversion Hv. contradiction. }
    cbv zeta. rewrite (getitem_point_at _ Hq).
    destruct (haversine_sound current (Float64.coords q))
      as [[d Hd] | (e & He & Hd)]; rewrite Hd; cbn [bind].
    2:{ right. split; [exact He |]. exists (current, Float64.coords q).
        split; [now left | exact Hd]. }
    specialize (IH (S pos) pos (Float64.coords q) (edges ++ [(prev, pos, d)])).
    destruct (Float64.build_edges_from m start points rest (S pos) pos
                (Float64.coords q) (edges ++ [(prev, pos, d)]))
      as [out | e |].
    + destruct IH as (Hv & tail & -> & Hends & Hm).
      split; [now constructor |]. exists ((prev, pos, d) :: tail).
      split; [now rewrite <- app_assoc |].
      split; [cbn [map]; now rewrite Hends |].
      constructor; [exact Hd | exact Hm].
    + destruct IH as [[-> Hbad] | (He & leg & Hin & Hleg)].
      * left. split; [reflexivity |]. intros Hv. apply Hbad.
        now inversion Hv.
      * right. split; [exact He |]. exists leg. split; [now right | exact Hleg].
    + exact IH.
Qed.

(** ** The solvers and [build_edges] measure the same legs *)

Lemma walk_edges (order : list nat) :
  forall current total c t d,
    Float64.BruteForceAlgorithm.walk m points order current total
    = Returns (c, t) ->
    Float64.haversine m c start = Returns d ->
    forall pos prev edges,
      exists tail,
        Float64.build_edges_from m start points order pos prev current edges
        = Returns (edges ++ tail) /\
        Float64.add_up total (map Float64.edge_km tail) = t + d /\
        length tail = S (length order).
Proof.
  induction order as [| i rest IH]; intros current total c t d Hw Hd pos prev edges.
  - cbn [Float64.BruteForceAlgorithm.walk] in Hw. inversion Hw; subst.
    cbn [Float64.build_edges_from]. rewrite Hd. cbn [bind].
    exists [(prev, 0%nat, d)]. repeat split.
  - cbn [Float64.BruteForceAlgorithm.walk] in Hw.
    apply bind_returns in Hw as (q & Hq & Hw). cbv zeta in Hw.
    apply bind_returns in Hw as (d1 & Hd1 & Hw).
    cbn [Float64.build_edges_from]. rewrite Hq. cbn [bind]. cbv zeta.
    rewrite Hd1. cbn [bind].
    destruct (IH (Float64.coords q) (total + d1) c t d Hw Hd (S pos) pos
                (edges ++ [(prev, pos, d1)]))
      as (tail & -> & Hsum & Hlen).
    exists ((prev, pos, d1) :: tail). rewrite <- app_assoc.
    split; [reflexivity |]. split; [exact Hsum |].
    simpl. now rewrite Hlen.
Qed.

Lemma tour_edges (order : list nat) (t : float) :
  Float64.BruteForceAlgorithm.tour m start points order = Returns t ->
  exists edges,
    Float64.build_edges m start points order = Returns edges /\
    Float64.add_up 0 (map Float64.edge_km edges) = t /\
    length edges = S (length order).
Proof.
  unfold Float64.BruteForceAlgorithm.tour. intros H.
  apply bind_returns in H as ([c t1] & Hw & H).
  apply bind_returns in H as (d & Hd & H). inversion H; subst.
  destruct (@walk_edges order start 0 c t1 d Hw Hd 1%nat 0%nat [])
    as (tail & Hb & Hsum & Hlen).
  exists tail. now repeat split.
Qed.

(** ** NearestNeighbourAlgorithm *)

Lemma scan_kept (current : Float64.point) (unvisited : list nat) :
  forall best best_d b d,
    Float64.NearestNeighbourAlgorithm.scan m current points unvisited
                                           best best_d
    = Returns (Some b, d) ->
    (best = Some b /\ best_d = d) \/
    (In b unvisited /\
     exists q, getitem points b = Returns q /\
               Float64.haversine m current (Float64.coords q) = Returns d).
Proof.
  induction unvisited as [| i rest IH]; intros best best_d b d H.
  - simpl in H. inversion H. now left.
  - cbn [Float64.NearestNeighbourAlgorithm.scan] in H.
    apply bind_returns in H as (q & Hq & H).
    apply bind_returns in H as (d1 & Hd1 & H).
    destruct (d1 <? best_d).
    + apply IH in H as [[E1 E2] | [Hin H]].
      * inversion E1; subst. right. split; [now left | now exists q].
      * right. split; [now right | exact H].
    + apply IH in H as [H | [Hin H]]; [now left |].
      right. split; [now right | exact H].
Qed.

Lemma loop_walk (fuel : nat) :
  forall unvisited current order total order' total' current',
    Float64.NearestNeighbourAlgorithm.loop fuel m points unvisited current
                                           order total
    = Returns (order', total', current') ->
    exists rest,
      order' = order ++ rest /\
      Permutation rest unvisited /\
      Float64.BruteForceAlgorithm.walk m points rest current total
      = Returns (current', total').
Proof.
  induction fuel as [| fuel IH];
    intros unvisited current order total order' total' current' H.
  - destruct unvisited; simpl in H; [| discriminate].
    inversion H; subst. exists []. rewrite app_nil_r. now repeat split.
  - destruct unvisited as [| u us].
    { simpl in H. inversion H; subst. exists []. rewrite app_nil_r.
      now repeat split. }
    cbn [Float64.NearestNeighbourAlgorithm.loop] in H.
    apply bind_returns in H as ([best best_d] & Hs & H).
    destruct best as [b |]; [| discriminate].
    apply bind_returns in H as (p & Hp & H).
    apply bind_returns in H as (unvisited' & Hr & H).
    apply IH in H as (rest & -> & Hperm & Hw).
    apply scan_kept in Hs as [[E _] | (_ & q & Hq & Hd)]; [discriminate |].
    rewrite Hp in Hq. inversion Hq; subst q.
    exists (b :: rest). rewrite <- app_assoc. split; [reflexivity |].
    split.
    + apply list_remove_perm in Hr. rewrite Hr. now constructor.
    + cbn [Float64.BruteForceAlgorithm.walk]. rewrite Hp. cbn [bind].
      cbv zeta. rewrite Hd. cbn [bind]. exact Hw.
Qed.

(** The heuristic solver's total is the total the exact solver computes
    for the same order. *)
Lemma nn_compute_tour (order : list nat) (total : float) :
  Float64.NearestNeighbourAlgorithm.compute m start points
  = Returns (order, total) ->
  Permutation order (range (length points)) /\
  Float64.BruteForceAlgorithm.tour m start points order = Returns total.
Proof.
  unfold Float64.NearestNeighbourAlgorithm.compute. cbv zeta. intros H.
  apply bind_returns in H as ([[order' total'] current'] & Hl & H).
  apply bind_returns in H as (d & Hd & H). inversion H; subst.
  apply loop_walk in Hl as (rest & E & Hperm & Hw). simpl in E. subst rest.
  split; [exact Hperm |].
  unfold Float64.BruteForceAlgorithm.tour. rewrite Hw. cbn [bind].
  rewrite Hd. reflexivity.
Qed.

Lemma list_remove_in (b : nat) (l : list nat) :
  In b l -> exists l', list_remove b l = Returns l'.
Proof.
  induction l as [| y l IH]; intros Hin; [contradiction |]. simpl.
  destruct (Nat.eq_dec y b) as [-> | Hne]; [eauto |].
  destruct Hin as [-> | Hin]; [congruence |].
  destruct (IH Hin) as [l' ->]. simpl. eauto.
Qed.

Lemma scan_sound (current : Float64.point) (unvisited : list nat) :
  indices_below (length points) unvisited ->
  forall best best_d,
    sound (Float64.NearestNeighbourAlgorithm.scan m current points unvisited
                                                  best best_d).
Proof.
  induction 1 as [| i rest Hi _ IH]; intros best best_d.
  - apply sound_returns.
  - cbn [Float64.NearestNeighbourAlgorithm.scan].
    destruct (getitem_cases i) as [(q & -> & _) | [_ Hbad]]; [| contradiction].
    cbn [bind]. apply sound_bind; [apply haversine_sound | intros d].
    destruct (d <? best_d); apply IH.
Qed.

Lemma loop_exit (fuel : nat) :
  forall unvisited current order total,
    indices_below (length points) unvisited ->
    (length unvisited <= fuel)%nat ->
    solver_exit (Float64.NearestNeighbourAlgorithm.loop fuel m points
                   unvisited current order total).
Proof.
  induction fuel as [| fuel IH]; intros unvisited current order total Hv Hlen.
  - destruct unvisited; [| simpl in Hlen; lia].
    left. simpl. eauto.
  - destruct unvisited as [| u us]; [left; simpl; eauto |].
    cbn [Float64.NearestNeighbourAlgorithm.loop].
    destruct (@scan_sound current (u :: us) Hv None Float64.sentinel)
      as [[[best best_d] Hs] | (e & He & Hs)]; rewrite Hs; cbn [bind].
    2:{ right; right. now exists e. }
    destruct best as [b |]; [| now right; left].
    apply scan_kept in Hs as [[E _] | (Hin & q & Hq & _)]; [discriminate |].
    rewrite Hq. cbn [bind].
    destruct (list_remove_in _ _ Hin) as [l' Hr]. rewrite Hr. cbn [bind].
    pose proof (list_remove_perm _ _ Hr) as Hp.
    apply IH.
    + apply Forall_forall. intros i Hi.
      unfold indices_below in Hv. rewrite Forall_forall in Hv.
      apply Hv. apply (Permutation_in _ (Permutation_sym Hp)). now right.
    + apply Permutation_length in Hp. simpl in *. lia.
Qed.

Lemma range_below (n : nat) : indices_below n (range n).
Proof.
  apply Forall_forall. intros i Hi. apply in_seq in Hi. lia.
Qed.

(** The heuristic solver ends with a result, with [TypeError] or on an
    arithmetic exception of [haversine]; its fuel never runs out. *)
Lemma nn_compute_exit :
  solver_exit (Float64.NearestNeighbourAlgorithm.compute m start points).
Proof.
  unfold Float64.NearestNeighbourAlgorithm.compute. cbv zeta.
  destruct (@loop_exit (length (range (length points)))
              (range (length points)) start [] 0
              (range_below (length points)) (le_n _))
    as [[[[order total] current] ->] | [-> | (e & He & ->)]]; cbn [bind].
  - destruct (haversine_sound current start) as [[d ->] | (e & He & ->)];
      cbn [bind]; [left; eauto | right; right; now exists e].
  - now right; left.
  - right; right. now exists e.
Qed.

(** ** BruteForceAlgorithm *)

Lemma walk_sound (order : list nat) :
  indices_below (length points) order ->
  forall current total,
    sound (Float64.BruteForceAlgorithm.walk m points order current total).
Proof.
  induction 1 as [| i rest Hi _ IH]; intros current total.
  - apply sound_returns.
  - cbn [Float64.BruteForceAlgorithm.walk].
    destruct (getitem_cases i) as [(q & -> & _) | [_ Hbad]]; [| contradiction].
    cbn [bind]. cbv zeta. apply sound_bind; [apply haversine_sound | intros d].
    apply IH.
Qed.

Lemma tour_sound (order : list nat) :
  indices_below (length points) order ->
  sound (Float64.BruteForceAlgorithm.tour m start points order).
Proof.
  intros Hv. unfold Float64.BruteForceAlgorithm.tour.
  apply sound_bind; [now apply walk_sound | intros [c t]].
  apply sound_bind; [apply haversine_sound | intros d]. apply sound_returns.
Qed.

Lemma search_sound (perms : list (list nat)) :
  Forall (indices_below (length points)) perms ->
  forall best bd,
    sound (Float64.BruteForceAlgorithm.search m start points perms best bd).
Proof.
  induction 1 as [| p rest Hp _ IH]; intros best bd.
  - apply sound_returns.
  - cbn [Float64.BruteForceAlgorithm.search].
    apply sound_bind; [now apply tour_sound | intros t].
    destruct (t <? bd); apply IH.
Qed.

(** So does the exact solver. *)
Lemma bf_compute_exit :
  solver_exit (Float64.BruteForceAlgorithm.compute m start points).
Proof.
  unfold Float64.BruteForceAlgorithm.compute.
  destruct (@search_sound (permutations (range (length points))))
    with (best := @None (list nat)) (bd := Float64.sentinel)
    as [[[best bd] ->] | (e & He & ->)]; cbn [bind].
  - apply Forall_forall. intros p Hp. apply permutations_spec in Hp.
    apply Forall_forall. intros i Hi.
    apply (Permutation_in _ Hp) in Hi. apply in_seq in Hi. lia.
  - destruct best; [left; eauto | now right; left].
  - right; right. now exists e.
Qed.


Lemma search_kept (perms : list (list nat)) :
  forall best bd p d,
    Float64.BruteForceAlgorithm.search m start points perms best bd
    = Returns (Some p, d) ->
    (best = Some p /\ bd = d) \/
    (In p perms /\
     Float64.BruteForceAlgorithm.tour m start points p = Returns d).
Proof.
  induction perms as [| q rest IH]; intros best bd p d H.
  - simpl in H. inversion H. now left.
  - cbn [Float64.BruteForceAlgorithm.search] in H.
    apply bind_returns in H as (t & Ht & H).
    destruct (t <? bd).
    + apply IH in H as [[E1 E2] | [Hin Hp]].
      * inversion E1; subst. right. split; [now left | exact Ht].
      * right. split; [now right | exact Hp].
    + apply IH in H as [H | [Hin Hp]]; [now left |].
      right. split; [now right | exact Hp].
Qed.

Lemma bf_compute_tour (order : list nat) (total : float) :
  Float64.BruteForceAlgorithm.compute m start points
  = Returns (order, total) ->
  Permutation order (range (length points)) /\
  Float64.BruteForceAlgorithm.tour m start points order = Returns total.
Proof.
  unfold Float64.BruteForceAlgorithm.compute. intros H.
  apply bind_returns in H as ([best bd] & Hs & H).
  destruct best as [p |]; [| discriminate]. inversion H; subst.
  apply search_kept in Hs as [[E _] | [Hin Hp]]; [discriminate |].
  split; [now apply permutations_spec | exact Hp].
Qed.

End FloatRuns.


(** * Drawing on floats *)

Section FloatDrawing.
Import PrimFloat SpecFloat FloatOps FloatAxioms.
Import Float64.GraphDrawer.
Local Open Scope float_scope.










End FloatDrawing.

(** * The route planner window *)

Section Window.
Import App.





Lemma perm_range_below (n : nat) (order : list nat) :
  Permutation order (range n) -> indices_below n order.
Proof.
  intros Hp. apply Forall_forall. intros i Hi.
  apply (Permutation_in _ Hp) in Hi. apply in_seq in Hi. lia.
Qed.

Lemma perm_range_length (n : nat) (order : list nat) :
  Permutation order (range n) -> length order = n.
Proof.
  intros Hp. rewrite (Permutation_length Hp). unfold range. apply length_seq.
Qed.




End Window.

(** * Runs on floats at given inputs *)

Section AntipodalRun.
Import PrimFloat.
Local Open Scope float_scope.

Variable m : Float64.libm.
Hypothesis Hm : Antipodal.measured m.

Lemma antipodal_sin_dlat :
  Float64.math_sin m ((Float64.radians (-8) - Float64.radians 8) / 2)
  = Returns (-0x1.1d06c968d9e19p-3).
Proof.
  destruct Hm as (Hs1 & _).
  change ((Float64.radians (-8) - Float64.radians 8) / 2)
    with (-0x1.1df46a2529d39p-3).
  unfold Float64.math_sin, Float64.math_1. rewrite Hs1. reflexivity.
Qed.

Lemma antipodal_sin_dlon :
  Float64.math_sin m ((Float64.radians 180 - Float64.radians 0) / 2)
  = Returns 1.
Proof.
  destruct Hm as (_ & Hs2 & _).
  change ((Float64.radians 180 - Float64.radians 0) / 2)
    with 0x1.921fb54442d18p+0.
  unfold Float64.math_sin, Float64.math_1. rewrite Hs2. reflexivity.
Qed.

Lemma antipodal_cos_lat1 :
  Float64.math_cos m (Float64.radians 8) = Returns 0x1.fb046a930947ap-1.
Proof.
  destruct Hm as (_ & _ & Hc1 & _).
  change (Float64.radians 8) with 0x1.1df46a2529d39p-3.
  unfold Float64.math_cos, Float64.math_1. rewrite Hc1. reflexivity.
Qed.

Lemma antipodal_cos_lat2 :
  Float64.math_cos m (Float64.radians (-8)) = Returns 0x1.fb046a930947ap-1.
Proof.
  destruct Hm as (_ & _ & _ & Hc2 & _).
  change (Float64.radians (-8)) with (-0x1.1df46a2529d39p-3).
  unfold Float64.math_cos, Float64.math_1. rewrite Hc2. reflexivity.
Qed.

Lemma antipodal_square :
  Float64.float_pow2 m (-0x1.1d06c968d9e19p-3)
  = Returns 0x1.3d581ca184804p-6.
Proof.
  destruct Hm as (_ & _ & _ & _ & Hp).
  unfold Float64.float_pow2.
  change (is_nan (-0x1.1d06c968d9e19p-3)) with false.
  change (is_infinity (-0x1.1d06c968d9e19p-3)) with false.
  change (-0x1.1d06c968d9e19p-3 =? 0) with false.
  change (-0x1.1d06c968d9e19p-3 <? 0) with true.
  change (- -0x1.1d06c968d9e19p-3) with 0x1.1d06c968d9e19p-3.
  change (0x1.1d06c968d9e19p-3 =? 1) with false.
  cbv iota. cbv zeta. rewrite Hp. reflexivity.
Qed.

(** [x] comes out as 1.0000000000000002. *)
Lemma antipodal_x :
  Float64.hav_x m (Float64.radians 8) (Float64.radians 0)
                  (Float64.radians (-8)) (Float64.radians 180)
  = Returns 0x1.0000000000001p+0.
Proof.
  unfold Float64.hav_x. cbv zeta.
  rewrite antipodal_sin_dlat. cbn [bind].
  rewrite antipodal_square. cbn [bind].
  rewrite antipodal_cos_lat1, antipodal_cos_lat2. cbn [bind].
  rewrite antipodal_sin_dlon. cbn [bind].
  reflexivity.
Qed.

Lemma antipodal_haversine :
  Float64.haversine m Antipodal.start (Float64.coords Antipodal.stop)
  = Raises ValueError.
Proof.
  unfold Float64.haversine. cbv zeta.
  change (fst Antipodal.start) with 8.
  change (snd Antipodal.start) with 0.
  change (fst (Float64.coords Antipodal.stop)) with (-8).
  change (snd (Float64.coords Antipodal.stop)) with 180.
  rewrite antipodal_x. reflexivity.
Qed.

Lemma antipodal_nn :
  Float64.NearestNeighbourAlgorithm.compute m Antipodal.start [Antipodal.stop]
  = Raises ValueError.
Proof.
  unfold Float64.NearestNeighbourAlgorithm.compute.
  cbn [length range seq Float64.NearestNeighbourAlgorithm.loop
       Float64.NearestNeighbourAlgorithm.scan getitem nth_error bind].
  rewrite antipodal_haversine. reflexivity.
Qed.

Lemma antipodal_bf :
  Float64.BruteForceAlgorithm.compute m Antipodal.start [Antipodal.stop]
  = Raises ValueError.
Proof.
  unfold Float64.BruteForceAlgorithm.compute.
  change (permutations (range (length [Antipodal.stop]))) with [[0%nat]].
  cbn [Float64.BruteForceAlgorithm.search Float64.BruteForceAlgorithm.tour
       Float64.BruteForceAlgorithm.walk getitem nth_error bind].
  unfold Float64.BruteForceAlgorithm.tour.
  cbn [Float64.BruteForceAlgorithm.walk getitem nth_error bind].
  cbv zeta. rewrite antipodal_haversine. reflexivity.
Qed.

Lemma antipodal_scan :
  Float64.NearestNeighbourAlgorithm.scan m Antipodal.start [Antipodal.stop]
    [0%nat] None Float64.sentinel
  = Raises ValueError.
Proof.
  cbn [Float64.NearestNeighbourAlgorithm.scan getitem nth_error bind].
  rewrite antipodal_haversine. reflexivity.
Qed.

Lemma antipodal_tour :
  Float64.BruteForceAlgorithm.tour m Antipodal.start [Antipodal.stop]
                                   [0%nat]
  = Raises ValueError.
Proof.
  unfold Float64.BruteForceAlgorithm.tour.
  cbn [Float64.BruteForceAlgorithm.walk getitem nth_error bind].
  cbv zeta. rewrite antipodal_haversine. reflexivity.
Qed.

End AntipodalRun.

Lemma table_measured : Antipodal.measured Measured.libm.
Proof. repeat split. Qed.


Section MeasuredRun.
Import PrimFloat Measured.
Local Open Scope float_scope.

(** From Romford the heuristic solver goes to Harold Wood first; the
    exact solver keeps the order it tries first, whose total is the same
    float. *)
Lemma measured_nn :
  Float64.NearestNeighbourAlgorithm.compute libm romford
    [brentwood; harold_wood]
  = Returns ([1%nat; 0%nat], 0x1.47557f3db2bbep+4).
Proof. vm_compute. reflexivity. Qed.

Lemma measured_bf :
  Float64.BruteForceAlgorithm.compute libm romford [brentwood; harold_wood]
  = Returns ([0%nat; 1%nat], 0x1.47557f3db2bbep+4).
Proof. vm_compute. reflexivity. Qed.


End MeasuredRun.

(** * The claims at the pair of points almost opposite each other *)

Section Claims.
Import PrimFloat.
Local Open Scope float_scope.

(** C1: on the request with start (8, 0) and the one destination
    (-8, 180), both in range, the exact solver returns no permutation: the
    round trip of the only visiting order cannot be computed, because
    [haversine] raises [ValueError], and so does the solver. *)
Theorem exact_solver_raises_on_antipodal_pair (m : Float64.libm) :
  Antipodal.measured m ->
  (1 <= length [Antipodal.stop])%nat /\
  permutations (range (length [Antipodal.stop])) = [[0%nat]] /\
  Float64.BruteForceAlgorithm.tour m Antipodal.start [Antipodal.stop]
                                   [0%nat]
  = Raises ValueError /\
  Float64.BruteForceAlgorithm.compute m Antipodal.start [Antipodal.stop]
  = Raises ValueError.
Proof.
  intros Hm. split; [simpl; lia |]. split; [reflexivity |].
  split; [now apply antipodal_tour | now apply antipodal_bf].
Qed.

Lemma exact_solver_raises_on_antipodal_pair_witness :
  Float64.BruteForceAlgorithm.compute Measured.libm Antipodal.start
                                      [Antipodal.stop]
  = Raises ValueError.
Proof.
  exact (proj2 (proj2 (proj2
    (@exact_solver_raises_on_antipodal_pair Measured.libm table_measured)))).
Defined.





(** C4: on that request the heuristic solver does not get to select a
    nearest destination: measuring the distance to the only candidate
    raises [ValueError], and so does the solver. *)
Theorem heuristic_solver_raises_on_antipodal_pair (m : Float64.libm) :
  Antipodal.measured m ->
  (1 <= length [Antipodal.stop])%nat /\
  Float64.NearestNeighbourAlgorithm.scan m Antipodal.start [Antipodal.stop]
    (range (length [Antipodal.stop])) None Float64.sentinel
  = Raises ValueError /\
  Float64.NearestNeighbourAlgorithm.compute m Antipodal.start
                                            [Antipodal.stop]
  = Raises ValueError.
Proof.
  intros Hm. split; [simpl; lia |].
  split; [now apply antipodal_scan | now apply antipodal_nn].
Qed.

Lemma heuristic_solver_raises_on_antipodal_pair_witness :
  Float64.NearestNeighbourAlgorithm.compute Measured.libm Antipodal.start
                                            [Antipodal.stop]
  = Raises ValueError.
Proof.
  exact (proj2 (proj2
    (@heuristic_solver_raises_on_antipodal_pair Measured.libm
       table_measured))).
Defined.

(** C7: with the one destination p0 = (-8, 180) and start (8, 0) there is
    no distance haversine(start, p0) to double: [haversine] raises
    [ValueError], and neither solver returns the order [0]. *)
Theorem single_destination_domain_error (m : Float64.libm) :
  Antipodal.measured m ->
  Float64.haversine m Antipodal.start (Float64.coords Antipodal.stop)
  = Raises ValueError /\
  (forall total,
     Float64.NearestNeighbourAlgorithm.compute m Antipodal.start
                                               [Antipodal.stop]
     <> Returns ([0%nat], total)) /\
  (forall total,
     Float64.BruteForceAlgorithm.compute m Antipodal.start [Antipodal.stop]
     <> Returns ([0%nat], total)).
Proof.
  intros Hm. split; [now apply antipodal_haversine |]. split; intros total.
  - rewrite (antipodal_nn Hm). discriminate.
  - rewrite (antipodal_bf Hm). discriminate.
Qed.

Lemma single_destination_domain_error_witness :
  Float64.haversine Measured.libm Antipodal.start
                    (Float64.coords Antipodal.stop)
  = Raises ValueError.
Proof.
  exact (proj1
    (@single_destination_domain_error Measured.libm table_measured)).
Defined.

(** C9: (8, 0) and (-8, 180) are in range, yet the quantity x that
    [haversine] computes for them is the float 1.0000000000000002, above 1;
    [math.sqrt(1 - x)] has a negative argument and raises [ValueError], and
    so does [haversine]. *)
Theorem haversine_domain_error_in_range (m : Float64.libm) :
  Antipodal.measured m ->
  Float64.in_range Antipodal.start = true /\
  Float64.in_range (Float64.coords Antipodal.stop) = true /\
  Float64.hav_x m (Float64.radians 8) (Float64.radians 0)
                  (Float64.radians (-8)) (Float64.radians 180)
  = Returns 0x1.0000000000001p+0 /\
  (1 <? 0x1.0000000000001p+0) = true /\
  Float64.math_sqrt (1 - 0x1.0000000000001p+0) = Raises ValueError /\
  Float64.haversine m Antipodal.start (Float64.coords Antipodal.stop)
  = Raises ValueError.
Proof.
  intros Hm.
  split; [reflexivity |]. split; [reflexivity |].
  split; [now apply antipodal_x |]. split; [reflexivity |].
  split; [reflexivity | now apply antipodal_haversine].
Qed.

Lemma haversine_domain_error_in_range_witness :
  Float64.hav_x Measured.libm (Float64.radians 8) (Float64.radians 0)
                (Float64.radians (-8)) (Float64.radians 180)
  = Returns 0x1.0000000000001p+0.
Proof.
  exact (proj1 (proj2 (proj2
    (@haversine_domain_error_in_range Measured.libm table_measured)))).
Defined.

End Claims.

(** * The planner on floats: results *)

Section FloatResults.
Import PrimFloat.
Local Open Scope float_scope.

(** X1: [build_edges] ends in one of three ways.  When it returns, every
    index of the order is a destination, the edges are the closed walk
    0 -> 1 -> ... -> N -> 0 over the positions of the order, and each edge
    carries the distance [haversine] returns for its leg.  It raises
    [IndexError] only for an order with an index that is no destination,
    and otherwise only the [ValueError] or [OverflowError] that
    [haversine] raises on one of the legs. *)
Theorem build_edges_closed_walk (m : Float64.libm)
    (start_loc : Float64.point) (points : list Float64.destination)
    (order : list nat) :
  match Float64.build_edges m start_loc points order with
  | Returns edges =>
      indices_below (length points) order /\
      map Float64.edge_ends edges = closed_walk (length order) /\
      length edges = S (length order) /\
      Forall2 (measures m) edges (Float64.trip start_loc points order)
  | Raises e =>
      (e = IndexError /\ ~ indices_below (length points) order) \/
      (arithmetic e /\
       exists leg,
         In leg (Float64.trip start_loc points order) /\
         Float64.haversine m (fst leg) (snd leg) = Raises e)
  | OutOfFuel => False
  end.
Proof.
  pose proof (@build_edges_from_cases m start_loc points order 1%nat 0%nat
                start_loc []) as H.
  fold (Float64.build_edges m start_loc points order) in H.
  destruct (Float64.build_edges m start_loc points order) as [edges | e |];
    [| exact H | exact H].
  destruct H as (Hv & tail & E & Hends & Hm). simpl in E. subst tail.
  rewrite chain_closed in Hends.
  split; [exact Hv |]. split; [exact Hends |]. split; [| exact Hm].
  rewrite <- (length_map Float64.edge_ends), Hends.
  unfold closed_walk. rewrite length_app, length_map, length_seq. simpl. lia.
Qed.

(** X2: for the order and total either solver returns, [build_edges]
    raises nothing (each of its legs was measured by the solver already),
    gives one edge per leg, and the distances on the edges, added one
    after the other from 0 as the solvers add them, are exactly the
    solver's total. *)
Theorem drawn_distances_add_up (m : Float64.libm)
    (start_loc : Float64.point) (points : list Float64.destination)
    (order : list nat) (total : float) :
  Float64.NearestNeighbourAlgorithm.compute m start_loc points
  = Returns (order, total)
  \/ Float64.BruteForceAlgorithm.compute m start_loc points
     = Returns (order, total) ->
  exists edges,
    Float64.build_edges m start_loc points order = Returns edges /\
    length edges = S (length points) /\
    Float64.add_up 0 (map Float64.edge_km edges) = total.
Proof.
  intros H.
  assert (Hpt : Permutation order (range (length points)) /\
                Float64.BruteForceAlgorithm.tour m start_loc points order
                = Returns total).
  { destruct H as [H | H];
      [now apply nn_compute_tour | now apply bf_compute_tour]. }
  destruct Hpt as [Hp Ht].
  destruct (@tour_edges m start_loc points order total Ht)
    as (edges & Hb & Hsum & Hn).
  exists edges. split; [exact Hb |]. split; [| exact Hsum].
  now rewrite Hn, (@perm_range_length (length points) order Hp).
Qed.

Lemma drawn_distances_add_up_witness :
  exists edges,
    Float64.build_edges Measured.libm Measured.romford
      [Measured.brentwood; Measured.harold_wood] [1%nat; 0%nat]
    = Returns edges /\
    length edges = 3%nat /\
    Float64.add_up 0 (map Float64.edge_km edges) = 0x1.47557f3db2bbep+4.
Proof.
  apply (@drawn_distances_add_up Measured.libm Measured.romford
           [Measured.brentwood; Measured.harold_wood] [1%nat; 0%nat]
           0x1.47557f3db2bbep+4).
  left. vm_compute. reflexivity.
Defined.

End FloatResults.

Section WindowResults.
Import App.








End WindowResults.

(** * The order of floats *)

Section FloatOrder.
Import PrimFloat SpecFloat FloatAxioms.
Local Open Scope float_scope.

Ltac order_cases :=
  repeat match goal with
         | |- context [Pos.compare_cont Eq ?x ?y] =>
             change (Pos.compare_cont Eq x y) with (Pos.compare x y)
         | H : context [Pos.compare_cont Eq ?x ?y] |- _ =>
             change (Pos.compare_cont Eq x y) with (Pos.compare x y) in H
         end;
  repeat match goal with
         | H : context [Z.compare ?x ?y] |- _ =>
             destruct (Z.compare_spec x y); try discriminate H
         | |- context [Z.compare ?x ?y] =>
             destruct (Z.compare_spec x y)
         | H : context [Pos.compare ?x ?y] |- _ =>
             destruct (Pos.compare_spec x y); try discriminate H
         | |- context [Pos.compare ?x ?y] =>
             destruct (Pos.compare_spec x y)
         end;
  simpl in *; subst; try reflexivity; try discriminate; try lia.

Lemma SFltb_trans (a b c : spec_float) :
  SFltb a b = true -> SFltb b c = true -> SFltb a c = true.
Proof.
  unfold SFltb, SFcompare.
  destruct a as [[] | [] | | [] ma ea], b as [[] | [] | | [] mb eb],
           c as [[] | [] | | [] mc ec];
    intros H1 H2; try discriminate; try reflexivity; order_cases.
Qed.

Lemma SFleb_ltb_trans (a b c : spec_float) :
  SFleb a b = true -> SFltb b c = true -> SFltb a c = true.
Proof.
  unfold SFleb, SFltb, SFcompare.
  destruct a as [[] | [] | | [] ma ea], b as [[] | [] | | [] mb eb],
           c as [[] | [] | | [] mc ec];
    intros H1 H2; try discriminate; try reflexivity; order_cases.
Qed.

Lemma SFltb_not_leb (a b : spec_float) :
  SFltb a b = true -> SFleb b a = false.
Proof.
  unfold SFleb, SFltb, SFcompare.
  destruct a as [[] | [] | | [] ma ea], b as [[] | [] | | [] mb eb];
    intros H1; try discriminate; try reflexivity; order_cases.
Qed.

Lemma SFltb_leb (a b : spec_float) :
  SFltb a b = true -> SFleb a b = true.
Proof.
  unfold SFleb, SFltb. destruct (SFcompare a b) as [[] |]; auto.
Qed.

Lemma SFleb_total (a b : spec_float) :
  SFeqb a a = true -> SFeqb b b = true ->
  SFltb a b = false -> SFleb b a = true.
Proof.
  unfold SFleb, SFltb, SFeqb, SFcompare.
  destruct a as [[] | [] | | [] ma ea], b as [[] | [] | | [] mb eb];
    intros H0 H0' H1; try discriminate; try reflexivity; order_cases.
Qed.

Lemma SFltb_numbers (a b : spec_float) :
  SFltb a b = true -> SFeqb a a = true /\ SFeqb b b = true.
Proof.
  unfold SFltb, SFeqb, SFcompare.
  destruct a as [[] | [] | | [] ma ea], b as [[] | [] | | [] mb eb];
    intros H1; try discriminate; split; try reflexivity;
    rewrite ?Z.compare_refl; change (Pos.compare_cont Eq ?x ?x) with (Pos.compare x x);
    rewrite ?Pos.compare_refl; reflexivity.
Qed.

End FloatOrder.

Section FloatMinimum.
Import PrimFloat FloatAxioms.
Local Open Scope float_scope.

Lemma float_ltb_trans (a b c : float) :
  (a <? b) = true -> (b <? c) = true -> (a <? c) = true.
Proof. rewrite !ltb_spec. apply SFltb_trans. Qed.

Lemma float_leb_ltb_trans (a b c : float) :
  (a <=? b) = true -> (b <? c) = true -> (a <? c) = true.
Proof. rewrite leb_spec, !ltb_spec. apply SFleb_ltb_trans. Qed.

Lemma float_ltb_not_leb (a b : float) :
  (a <? b) = true -> (b <=? a) = false.
Proof. rewrite leb_spec, ltb_spec. apply SFltb_not_leb. Qed.

Lemma float_ltb_leb (a b : float) : (a <? b) = true -> (a <=? b) = true.
Proof. rewrite leb_spec, ltb_spec. apply SFltb_leb. Qed.

Lemma float_ltb_irrefl (a : float) : (a <? a) = false.
Proof.
  destruct (a <? a) eqn:E; [| reflexivity].
  pose proof (float_ltb_not_leb E). pose proof (float_ltb_leb E). congruence.
Qed.

Lemma float_not_leb_not_ltb (a b : float) :
  (a <=? b) = false -> (a <? b) = false.
Proof.
  intros H. destruct (a <? b) eqn:E; [| reflexivity].
  apply float_ltb_leb in E. congruence.
Qed.

Lemma float_leb_total (a b : float) :
  is_nan a = false -> is_nan b = false ->
  (a <? b) = false -> (b <=? a) = true.
Proof.
  unfold is_nan. rewrite !FloatAxioms.eqb_spec, ltb_spec, leb_spec.
  intros Ha Hb. apply SFleb_total; now apply Bool.negb_false_iff.
Qed.

Lemma float_ltb_numbers (a b : float) :
  (a <? b) = true -> is_nan a = false /\ is_nan b = false.
Proof.
  unfold is_nan. rewrite !FloatAxioms.eqb_spec, ltb_spec. intros H.
  apply SFltb_numbers in H as [-> ->]. now split.
Qed.

Variable m : Float64.libm.
Variable points : list Float64.destination.

(** The inner loop of the heuristic solver keeps the first strict
    minimum. *)
Lemma scan_keeps_first_minimum (current : Float64.point)
    (unvisited : list nat) :
  forall best best_d r,
    Float64.NearestNeighbourAlgorithm.scan m current points unvisited
                                           best best_d
    = Returns r ->
    (r = (best, best_d) /\
     forall j, In j unvisited ->
       exists dj, distance_to m points current j dj /\
                  (dj <? best_d) = false)
    \/
    (exists l1 b l2 d,
        unvisited = l1 ++ b :: l2 /\ r = (Some b, d) /\
        distance_to m points current b d /\ (d <? best_d) = true /\
        (forall j, In j l1 ->
           exists dj, distance_to m points current j dj /\
                      (dj <=? d) = false) /\
        (forall j, In j l2 ->
           exists dj, distance_to m points current j dj /\
                      (dj <? d) = false)).
Proof.
  induction unvisited as [| i rest IH]; intros best best_d r H.
  - simpl in H. inversion H. left. split; [reflexivity | intros j []].
  - cbn [Float64.NearestNeighbourAlgorithm.scan] in H.
    apply bind_returns in H as (q & Hq & H).
    apply bind_returns in H as (d1 & Hd1 & H).
    assert (Hdist : distance_to m points current i d1).
    { unfold distance_to. now rewrite (getitem_point_at _ _ Hq). }
    destruct (d1 <? best_d) eqn:Elt.
    + apply IH in H
        as [[-> Hall] | (l1 & b & l2 & d & E & -> & Hb & Hlt & H1 & H2)].
      * right. exists [], i, rest, d1. repeat split; auto. intros j [].
      * right. exists (i :: l1), b, l2, d.
        split; [now rewrite E |]. split; [reflexivity |].
        split; [exact Hb |]. split; [exact (float_ltb_trans Hlt Elt) |].
        split; [| exact H2].
        intros j [<- | Hj]; [| now apply H1].
        exists d1. split; [exact Hdist | now apply float_ltb_not_leb].
    + apply IH in H
        as [[-> Hall] | (l1 & b & l2 & d & E & -> & Hb & Hlt & H1 & H2)].
      * left. split; [reflexivity |].
        intros j [<- | Hj]; [now exists d1 | now apply Hall].
      * right. exists (i :: l1), b, l2, d.
        split; [now rewrite E |]. split; [reflexivity |].
        split; [exact Hb |]. split; [exact Hlt |]. split; [| exact H2].
        intros j [<- | Hj]; [| now apply H1].
        exists d1. split; [exact Hdist |].
        destruct (d1 <=? d) eqn:Ele; [| reflexivity].
        pose proof (float_leb_ltb_trans Ele Hlt). congruence.
Qed.

(** The [while] loop follows the nearest-neighbour rule. *)
Lemma loop_nearest_first (fuel : nat) :
  forall unvisited current order total order' total' current',
    StronglySorted lt unvisited ->
    Float64.NearestNeighbourAlgorithm.loop fuel m points unvisited current
                                           order total
    = Returns (order', total', current') ->
    exists rest,
      order' = order ++ rest /\
      nearest_first m points unvisited current rest.
Proof.
  induction fuel as [| fuel IH];
    intros unvisited current order total order' total' current' Hs H.
  - destruct unvisited; simpl in H; [| discriminate].
    inversion H; subst. exists []. rewrite app_nil_r.
    split; [reflexivity | constructor].
  - destruct unvisited as [| u us].
    { simpl in H. inversion H; subst. exists []. rewrite app_nil_r.
      split; [reflexivity | constructor]. }
    cbn [Float64.NearestNeighbourAlgorithm.loop] in H.
    apply bind_returns in H as ([best best_d] & Hscan & H).
    destruct best as [b |]; [| discriminate].
    apply bind_returns in H as (p & Hp & H).
    apply bind_returns in H as (unvisited' & Hr & H).
    apply scan_keeps_first_minimum in Hscan
      as [[E _] | (l1 & b' & l2 & d & E & Er & Hb & Hlt & H1 & H2)];
      [discriminate |].
    inversion Er; subst b' d. clear Er.
    rewrite E in Hs. destruct (sorted_split _ _ _ Hs) as (Hs' & Hlow & Hhigh).
    assert (Hb1 : ~ In b l1) by (intros X; apply Hlow in X; lia).
    assert (Hb2 : ~ In b l2) by (intros X; apply Hhigh in X; lia).
    rewrite E, (@list_remove_split b l1 l2 Hb1) in Hr.
    inversion Hr; subst unvisited'. clear Hr.
    apply IH in H as (rest & -> & Hg); [| exact Hs'].
    exists (b :: rest). split; [now rewrite <- app_assoc |].
    apply nearest_first_next with (d := best_d).
    + split; [rewrite E; apply in_elt |]. split; [exact Hb |].
      split; [exact Hlt |].
      intros j Hj. rewrite E in Hj.
      apply in_app_or in Hj as [Hj | [<- | Hj]].
      * destruct (H1 j Hj) as (dj & Hdj & Hle). exists dj.
        split; [exact Hdj |].
        split; [now apply float_not_leb_not_ltb | intros _; exact Hle].
      * exists best_d. split; [exact Hb |].
        split; [apply float_ltb_irrefl | intros X; lia].
      * destruct (H2 j Hj) as (dj & Hdj & Hnlt). exists dj.
        split; [exact Hdj |]. split; [exact Hnlt |].
        intros Hjb. apply Hhigh in Hj. lia.
    + rewrite E, (@remove_split b l1 l2 Hb1 Hb2).
      now rewrite (getitem_point_at _ _ Hp).
Qed.

Variable start : Float64.point.

Lemma nn_compute_nearest_first (order : list nat) (total : float) :
  Float64.NearestNeighbourAlgorithm.compute m start points
  = Returns (order, total) ->
  nearest_first m points (range (length points)) start order.
Proof.
  unfold Float64.NearestNeighbourAlgorithm.compute. cbv zeta. intros H.
  apply bind_returns in H as ([[order' total'] current'] & Hl & H).
  apply bind_returns in H as (d & Hd & H). inversion H; subst.
  apply loop_nearest_first in Hl as (rest & E & Hg);
    [| apply range_sorted].
  simpl in E. now subst.
Qed.

(** The outer loop of the exact solver keeps the first strict minimum. *)
Lemma search_keeps_first_minimum (perms : list (list nat)) :
  forall best bd r,
    Float64.BruteForceAlgorithm.search m start points perms best bd
    = Returns r ->
    (r = (best, bd) /\
     forall q, In q perms ->
       exists t,
         Float64.BruteForceAlgorithm.tour m start points q = Returns t /\
         (t <? bd) = false)
    \/
    (exists l1 p l2 d,
        perms = l1 ++ p :: l2 /\ r = (Some p, d) /\
        Float64.BruteForceAlgorithm.tour m start points p = Returns d /\
        (d <? bd) = true /\
        (forall q, In q l1 ->
           exists t,
             Float64.BruteForceAlgorithm.tour m start points q = Returns t /\
             (t <=? d) = false) /\
        (forall q, In q l2 ->
           exists t,
             Float64.BruteForceAlgorithm.tour m start points q = Returns t /\
             (t <? d) = false)).
Proof.
  induction perms as [| p rest IH]; intros best bd r H.
  - simpl in H. inversion H. left. split; [reflexivity | intros q []].
  - cbn [Float64.BruteForceAlgorithm.search] in H.
    apply bind_returns in H as (t1 & Ht1 & H).
    destruct (t1 <? bd) eqn:Elt.
    + apply IH in H
        as [[-> Hall] | (l1 & b & l2 & d & E & -> & Hb & Hlt & H1 & H2)].
      * right. exists [], p, rest, t1. repeat split; auto. intros q [].
      * right. exists (p :: l1), b, l2, d.
        split; [now rewrite E |]. split; [reflexivity |].
        split; [exact Hb |]. split; [exact (float_ltb_trans Hlt Elt) |].
        split; [| exact H2].
        intros q [<- | Hq]; [| now apply H1].
        exists t1. split; [exact Ht1 | now apply float_ltb_not_leb].
    + apply IH in H
        as [[-> Hall] | (l1 & b & l2 & d & E & -> & Hb & Hlt & H1 & H2)].
      * left. split; [reflexivity |].
        intros q [<- | Hq]; [now exists t1 | now apply Hall].
      * right. exists (p :: l1), b, l2, d.
        split; [now rewrite E |]. split; [reflexivity |].
        split; [exact Hb |]. split; [exact Hlt |]. split; [| exact H2].
        intros q [<- | Hq]; [| now apply H1].
        exists t1. split; [exact Ht1 |].
        destruct (t1 <=? d) eqn:Ele; [| reflexivity].
        pose proof (float_leb_ltb_trans Ele Hlt). congruence.
Qed.

Lemma bf_compute_first_minimum (order : list nat) (total : float) :
  Float64.BruteForceAlgorithm.compute m start points
  = Returns (order, total) ->
  first_minimum m start points (permutations (range (length points)))
                order total.
Proof.
  unfold Float64.BruteForceAlgorithm.compute. intros H.
  apply bind_returns in H as ([best bd] & Hs & H).
  destruct best as [p |]; [| discriminate]. inversion H; subst.
  apply search_keeps_first_minimum in Hs
    as [[E _] | (l1 & p' & l2 & d & E & Er & Hp & Hlt & H1 & H2)];
    [discriminate |].
  inversion Er; subst. exists l1, l2. now repeat split.
Qed.

Lemma measures_kms (edges : list Float64.edge)
    (legs : list (Float64.point * Float64.point)) :
  Forall2 (measures m) edges legs ->
  Forall2 (fun km leg =>
             Float64.haversine m (fst leg) (snd leg) = Returns km)
          (map Float64.edge_km edges) legs.
Proof.
  induction 1 as [| e leg es ls He _ IH]; simpl; constructor; auto.
Qed.

(** The total of a tour is the sum of the distances of its legs. *)
Lemma tour_round_trip_total (order : list nat) (total : float) :
  Float64.BruteForceAlgorithm.tour m start points order = Returns total ->
  round_trip_total m start points order total.
Proof.
  intros Ht.
  destruct (@tour_edges m start points order total Ht)
    as (edges & Hb & Hsum & _).
  pose proof (@build_edges_from_cases m start points order 1%nat 0%nat
                start []) as Hc.
  fold (Float64.build_edges m start points order) in Hc.
  rewrite Hb in Hc. destruct Hc as (_ & tail & E & _ & Hm).
  simpl in E. subst tail.
  exists (map Float64.edge_km edges). split; [| exact Hsum].
  now apply measures_kms.
Qed.

End FloatMinimum.

Lemma perm_range_index_permutation (n : nat) (order : list nat) :
  Permutation order (range n) -> index_permutation n order.
Proof.
  intros Hp. repeat split.
  - rewrite (Permutation_length Hp). apply length_seq.
  - apply (Permutation_NoDup (Permutation_sym Hp)). apply seq_NoDup.
  - intros Hi. apply (Permutation_in _ Hp) in Hi. apply in_seq in Hi. lia.
  - intros Hi. apply (Permutation_in _ (Permutation_sym Hp)).
    apply in_seq. lia.
Qed.

(** * The solvers on floats: results *)

Section SolverResults.
Import PrimFloat Measured.
Local Open Scope float_scope.

Lemma measured_nn_one :
  Float64.NearestNeighbourAlgorithm.compute libm romford [brentwood]
  = Returns ([0%nat], 0x1.4740c4a7402b8p+4).
Proof. vm_compute. reflexivity. Qed.

Lemma measured_bf_one :
  Float64.BruteForceAlgorithm.compute libm romford [brentwood]
  = Returns ([0%nat], 0x1.4740c4a7402b8p+4).
Proof. vm_compute. reflexivity. Qed.

(** X21: each solver ends in one of three ways: it returns; it raises
    [TypeError], when nothing came below the sentinel 10**9; or it raises
    the [ValueError] or [OverflowError] of a call of [haversine].  It
    raises no [IndexError], and the [while] loop of the heuristic solver
    comes to an end. *)
Theorem solvers_end_in_three_ways (m : Float64.libm)
    (start : Float64.point) (points : list Float64.destination) :
  solver_exit (Float64.NearestNeighbourAlgorithm.compute m start points) /\
  solver_exit (Float64.BruteForceAlgorithm.compute m start points).
Proof.
  split; [apply nn_compute_exit | apply bf_compute_exit].
Qed.

(** X22: the order a solver returns is a permutation of the index set
    {0, ..., N-1} (length N, no repeated index, no omitted index), and the
    total it returns is what adding the distances of the legs of that
    round trip, one after the other from 0, gives. *)
Theorem returned_order_is_permutation (m : Float64.libm)
    (start : Float64.point) (points : list Float64.destination)
    (order : list nat) (total : float) :
  Float64.NearestNeighbourAlgorithm.compute m start points
  = Returns (order, total)
  \/ Float64.BruteForceAlgorithm.compute m start points
     = Returns (order, total) ->
  index_permutation (length points) order /\
  round_trip_total m start points order total.
Proof.
  intros H.
  assert (Hpt : Permutation order (range (length points)) /\
                Float64.BruteForceAlgorithm.tour m start points order
                = Returns total).
  { destruct H as [H | H];
      [now apply nn_compute_tour | now apply bf_compute_tour]. }
  destruct Hpt as [Hp Ht].
  split; [now apply perm_range_index_permutation |].
  now apply tour_round_trip_total.
Qed.

Lemma returned_order_is_permutation_witness :
  index_permutation 2 [1%nat; 0%nat] /\
  round_trip_total libm romford [brentwood; harold_wood] [1%nat; 0%nat]
                   0x1.47557f3db2bbep+4.
Proof.
  apply (@returned_order_is_permutation libm romford
           [brentwood; harold_wood] [1%nat; 0%nat] 0x1.47557f3db2bbep+4).
  left. vm_compute. reflexivity.
Defined.

(** X23: the order the heuristic solver returns follows the
    nearest-neighbour rule on the float distances: from the start, the
    next stop is each time the unvisited destination at minimum distance
    from the current position, the one of lowest index on a tie. *)
Theorem heuristic_order_is_nearest_first (m : Float64.libm)
    (start : Float64.point) (points : list Float64.destination)
    (order : list nat) (total : float) :
  Float64.NearestNeighbourAlgorithm.compute m start points
  = Returns (order, total) ->
  nearest_first m points (range (length points)) start order.
Proof.
  apply nn_compute_nearest_first.
Qed.

Lemma heuristic_order_is_nearest_first_witness :
  nearest_first libm [brentwood; harold_wood] (range 2) romford
                [1%nat; 0%nat].
Proof.
  apply (@heuristic_order_is_nearest_first libm romford
           [brentwood; harold_wood] [1%nat; 0%nat] 0x1.47557f3db2bbep+4).
  vm_compute. reflexivity.
Defined.

(** X24: the order the exact solver returns is the first minimum of the
    enumeration: every permutation of the destination indices has a float
    total, none is below the returned total, and the total of a
    permutation enumerated earlier is not even equal to it. *)
Theorem exact_order_is_first_minimum (m : Float64.libm)
    (start : Float64.point) (points : list Float64.destination)
    (order : list nat) (total : float) :
  Float64.BruteForceAlgorithm.compute m start points
  = Returns (order, total) ->
  first_minimum m start points (permutations (range (length points)))
                order total /\
  (forall q, In q (permutations (range (length points)))
             <-> Permutation q (range (length points))) /\
  StronglySorted lex_lt (permutations (range (length points))).
Proof.
  intros H. split; [now apply bf_compute_first_minimum |].
  split; [intros q; apply permutations_spec |].
  apply permutations_sorted, range_sorted.
Qed.

Lemma exact_order_is_first_minimum_witness :
  first_minimum libm romford [brentwood; harold_wood]
                (permutations (range 2)) [0%nat; 1%nat]
                0x1.47557f3db2bbep+4.
Proof.
  apply (@exact_order_is_first_minimum libm romford
           [brentwood; harold_wood] [0%nat; 1%nat] 0x1.47557f3db2bbep+4).
  vm_compute. reflexivity.
Defined.

(** X25: when both solvers return, the heuristic total is not below the
    exact total; and unless the heuristic total is not a number, the exact
    total is less than or equal to it. *)
Theorem exact_total_not_above_heuristic_total (m : Float64.libm)
    (start : Float64.point) (points : list Float64.destination)
    (order_nn order_bf : list nat) (total_nn total_bf : float) :
  Float64.NearestNeighbourAlgorithm.compute m start points
  = Returns (order_nn, total_nn) ->
  Float64.BruteForceAlgorithm.compute m start points
  = Returns (order_bf, total_bf) ->
  (total_nn <? total_bf) = false /\
  (is_nan total_nn = false -> (total_bf <=? total_nn) = true).
Proof.
  intros Hnn Hbf.
  apply nn_compute_tour in Hnn as [Hp Hnn].
  apply bf_compute_first_minimum in Hbf
    as (before & after & E & Ht & Hlt & H1 & H2).
  assert (Hno : (total_nn <? total_bf) = false).
  { apply permutations_spec in Hp. rewrite E in Hp.
    apply in_app_or in Hp as [Hin | [<- | Hin]].
    - destruct (H1 _ Hin) as (t & Ht' & Hle). rewrite Hnn in Ht'.
      inversion Ht'; subst t. now apply float_not_leb_not_ltb.
    - rewrite Hnn in Ht. inversion Ht; subst. apply float_ltb_irrefl.
    - destruct (H2 _ Hin) as (t & Ht' & Hn). rewrite Hnn in Ht'.
      now inversion Ht'; subst t. }
  split; [exact Hno |].
  intros Hnum. apply float_leb_total; [exact Hnum | | exact Hno].
  now apply float_ltb_numbers in Hlt.
Qed.

Lemma exact_total_not_above_heuristic_total_witness :
  (0x1.47557f3db2bbep+4 <? 0x1.47557f3db2bbep+4) = false /\
  (is_nan 0x1.47557f3db2bbep+4 = false ->
   (0x1.47557f3db2bbep+4 <=? 0x1.47557f3db2bbep+4) = true).
Proof.
  apply (@exact_total_not_above_heuristic_total libm romford
           [brentwood; harold_wood] [1%nat; 0%nat] [0%nat; 1%nat]);
    vm_compute; reflexivity.
Defined.

(** X26: with exactly one destination p0, a solver that returns returns
    the order [0] and the total 0 + d + d_back, where d is the distance
    [haversine] returns from the start to p0 and d_back the one from p0
    back to the start; so when both solvers return, their results are the
    same. *)
Theorem single_destination_result (m : Float64.libm)
    (start : Float64.point) (p0 : Float64.destination)
    (order : list nat) (total : float) :
  Float64.NearestNeighbourAlgorithm.compute m start [p0]
  = Returns (order, total)
  \/ Float64.BruteForceAlgorithm.compute m start [p0]
     = Returns (order, total) ->
  order = [0%nat] /\
  exists d d_back,
    Float64.haversine m start (Float64.coords p0) = Returns d /\
    Float64.haversine m (Float64.coords p0) start = Returns d_back /\
    total = 0 + d + d_back.
Proof.
  intros H.
  assert (Hpt : Permutation order (range (length [p0])) /\
                Float64.BruteForceAlgorithm.tour m start [p0] order
                = Returns total).
  { destruct H as [H | H];
      [now apply nn_compute_tour | now apply bf_compute_tour]. }
  destruct Hpt as [Hp Ht].
  apply Permutation_sym, Permutation_length_1_inv in Hp. subst order.
  split; [reflexivity |].
  unfold Float64.BruteForceAlgorithm.tour in Ht.
  apply bind_returns in Ht as ([c t] & Hw & Ht).
  cbn [Float64.BruteForceAlgorithm.walk getitem nth_error bind] in Hw.
  cbv zeta in Hw.
  apply bind_returns in Hw as (d & Hd & Hw). inversion Hw; subst c t.
  apply bind_returns in Ht as (d_back & Hb & Ht). inversion Ht; subst.
  exists d, d_back. now repeat split.
Qed.

Lemma single_destination_result_witness :
  [0%nat] = [0%nat] /\
  exists d d_back,
    Float64.haversine libm romford (Float64.coords brentwood) = Returns d /\
    Float64.haversine libm (Float64.coords brentwood) romford
    = Returns d_back /\
    0x1.4740c4a7402b8p+4 = 0 + d + d_back.
Proof.
  apply (@single_destination_result libm romford brentwood [0%nat]
           0x1.4740c4a7402b8p+4).
  left. exact measured_nn_one.
Defined.

End SolverResults.

Section WindowCompletes.
Import App.




End WindowCompletes.

(** * When the solvers return *)

Section FloatReturns.
Import PrimFloat.
Local Open Scope float_scope.

Variable m : Float64.libm.
Variable start : Float64.point.
Variable points : list Float64.destination.
Hypothesis Hd : measurable m start points.

Lemma coords_in_places (i : nat) (q : Float64.destination) :
  getitem points i = Returns q ->
  In (Float64.coords q) (places start points).
Proof.
  unfold getitem. destruct (nth_error points i) as [q' |] eqn:E;
    intros H; inversion H; subst.
  right. apply in_map. now apply nth_error_In in E.
Qed.

Lemma scan_returns (current : Float64.point) (unvisited : list nat) :
  In current (places start points) ->
  indices_below (length points) unvisited ->
  forall best best_d,
    exists r,
      Float64.NearestNeighbourAlgorithm.scan m current points unvisited
                                             best best_d
      = Returns r.
Proof.
  intros Hc. induction 1 as [| i rest Hi _ IH]; intros best best_d.
  - simpl. eauto.
  - cbn [Float64.NearestNeighbourAlgorithm.scan].
    destruct (getitem_cases points i) as [(q & Hq & _) | [_ Hbad]];
      [| contradiction].
    rewrite Hq. cbn [bind].
    destruct (Hd Hc (coords_in_places _ Hq)) as (d & -> & _). cbn [bind].
    destruct (d <? best_d); apply IH.
Qed.

Lemma loop_returns (fuel : nat) :
  forall unvisited current order total,
    In current (places start points) ->
    indices_below (length points) unvisited ->
    (length unvisited <= fuel)%nat ->
    exists order' total' current',
      Float64.NearestNeighbourAlgorithm.loop fuel m points unvisited current
                                             order total
      = Returns (order', total', current') /\
      In current' (places start points).
Proof.
  induction fuel as [| fuel IH];
    intros unvisited current order total Hc Hv Hlen.
  - destruct unvisited; [| simpl in Hlen; lia]. simpl. eauto.
  - destruct unvisited as [| u us]; [simpl; eauto |].
    cbn [Float64.NearestNeighbourAlgorithm.loop].
    destruct (@scan_returns current (u :: us) Hc Hv None Float64.sentinel)
      as [[best best_d] Hs].
    rewrite Hs. cbn [bind].
    apply scan_keeps_first_minimum in Hs
      as [[E Hall] | (l1 & b & l2 & d & E & Er & Hb & _)].
    + exfalso. destruct (Hall u (or_introl eq_refl)) as (du & Hu & Hn).
      unfold distance_to in Hu.
      assert (Hin : In (Float64.point_at points u) (places start points)).
      { inversion Hv as [| ? ? Hu' _]; subst.
        destruct (getitem_cases points u) as [(q & Hq & _) | [_ Hbad]];
          [| contradiction].
        rewrite (getitem_point_at _ _ Hq). exact (coords_in_places _ Hq). }
      destruct (Hd Hc Hin) as (d & Hd' & Hlt).
      rewrite Hu in Hd'. inversion Hd'; subst. congruence.
    + inversion Er; subst best best_d. clear Er.
      assert (Hin : In b (u :: us)) by (rewrite E; apply in_elt).
      assert (Hbv : (b < length points)%nat).
      { unfold indices_below in Hv. rewrite Forall_forall in Hv.
        now apply Hv. }
      destruct (getitem_cases points b) as [(q & Hq & _) | [_ Hbad]];
        [| contradiction].
      rewrite Hq. cbn [bind].
      destruct (list_remove_in _ _ Hin) as [l' Hr]. rewrite Hr. cbn [bind].
      pose proof (list_remove_perm _ _ Hr) as Hp.
      apply IH.
      * exact (coords_in_places _ Hq).
      * apply Forall_forall. intros i Hi.
        unfold indices_below in Hv. rewrite Forall_forall in Hv.
        apply Hv. apply (Permutation_in _ (Permutation_sym Hp)). now right.
      * apply Permutation_length in Hp. simpl in *. lia.
Qed.

Lemma nn_compute_returns :
  exists order total,
    Float64.NearestNeighbourAlgorithm.compute m start points
    = Returns (order, total).
Proof.
  unfold Float64.NearestNeighbourAlgorithm.compute. cbv zeta.
  destruct (@loop_returns (length (range (length points)))
              (range (length points)) start [] 0
              (or_introl eq_refl) (range_below (length points)) (le_n _))
    as (order & total & current & -> & Hc).
  cbn [bind].
  destruct (Hd Hc (or_introl eq_refl)) as (d & -> & _). cbn [bind]. eauto.
Qed.

Lemma walk_returns_on_places (order : list nat) :
  indices_below (length points) order ->
  forall current total,
    In current (places start points) ->
    exists c t,
      Float64.BruteForceAlgorithm.walk m points order current total
      = Returns (c, t) /\
      In c (places start points).
Proof.
  induction 1 as [| i rest Hi _ IH]; intros current total Hc.
  - simpl. eauto.
  - cbn [Float64.BruteForceAlgorithm.walk].
    destruct (getitem_cases points i) as [(q & Hq & _) | [_ Hbad]];
      [| contradiction].
    rewrite Hq. cbn [bind]. cbv zeta.
    destruct (Hd Hc (coords_in_places _ Hq)) as (d & -> & _). cbn [bind].
    apply IH. exact (coords_in_places _ Hq).
Qed.

Lemma tour_returns_on_places (order : list nat) :
  indices_below (length points) order ->
  exists t,
    Float64.BruteForceAlgorithm.tour m start points order = Returns t.
Proof.
  intros Hv. unfold Float64.BruteForceAlgorithm.tour.
  destruct (@walk_returns_on_places order Hv start 0 (or_introl eq_refl))
    as (c & t & -> & Hc).
  cbn [bind].
  destruct (Hd Hc (or_introl eq_refl)) as (d & -> & _). cbn [bind]. eauto.
Qed.

Lemma search_returns (perms : list (list nat)) :
  Forall (indices_below (length points)) perms ->
  forall best bd,
    exists r,
      Float64.BruteForceAlgorithm.search m start points perms best bd
      = Returns r.
Proof.
  induction 1 as [| p rest Hp _ IH]; intros best bd.
  - simpl. eauto.
  - cbn [Float64.BruteForceAlgorithm.search].
    destruct (tour_returns_on_places Hp) as [t ->]. cbn [bind].
    destruct (t <? bd); apply IH.
Qed.

Lemma bf_compute_returns (q : list nat) (t : float) :
  Permutation q (range (length points)) ->
  Float64.BruteForceAlgorithm.tour m start points q = Returns t ->
  (t <? Float64.sentinel) = true ->
  exists order total,
    Float64.BruteForceAlgorithm.compute m start points
    = Returns (order, total).
Proof.
  intros Hq Ht Hlt. unfold Float64.BruteForceAlgorithm.compute.
  destruct (@search_returns (permutations (range (length points))))
    with (best := @None (list nat)) (bd := Float64.sentinel)
    as [[best bd] Hs].
  { apply Forall_forall. intros p Hp. apply permutations_spec in Hp.
    now apply perm_range_below. }
  rewrite Hs. cbn [bind].
  apply search_keeps_first_minimum in Hs
    as [[E Hall] | (l1 & p & l2 & d & _ & Er & _)].
  - exfalso. apply permutations_spec in Hq.
    destruct (Hall q Hq) as (t' & Ht' & Hn).
    rewrite Ht in Ht'. inversion Ht'; subst. congruence.
  - inversion Er; subst. eauto.
Qed.

End FloatReturns.

Section ReturnResults.
Import PrimFloat Measured.
Local Open Scope float_scope.

Lemma measured_measurable : measurable libm romford [brentwood; harold_wood].
Proof.
  intros a b Ha Hb. simpl in Ha, Hb.
  destruct Ha as [<- | [<- | [<- | []]]];
    destruct Hb as [<- | [<- | [<- | []]]];
    eexists; split; vm_compute; reflexivity.
Qed.

(** X27: when [haversine] returns a distance below 10**9 between any two
    places of the request (the start and the destinations), the heuristic
    solver returns a result; and so does the exact solver, provided the
    round-trip total of some permutation of the destination indices is
    below 10**9. *)
Theorem solvers_return_on_measurable_requests (m : Float64.libm)
    (start : Float64.point) (points : list Float64.destination) :
  measurable m start points ->
  (exists order total,
      Float64.NearestNeighbourAlgorithm.compute m start points
      = Returns (order, total)) /\
  ((exists q t,
       Permutation q (range (length points)) /\
       Float64.BruteForceAlgorithm.tour m start points q = Returns t /\
       (t <? Float64.sentinel) = true) ->
   exists order total,
     Float64.BruteForceAlgorithm.compute m start points
     = Returns (order, total)).
Proof.
  intros Hd. split; [now apply nn_compute_returns |].
  intros (q & t & Hq & Ht & Hlt). now apply (bf_compute_returns Hd Hq Ht).
Qed.

Lemma solvers_return_on_measurable_requests_witness :
  (exists order total,
      Float64.NearestNeighbourAlgorithm.compute libm romford
        [brentwood; harold_wood]
      = Returns (order, total)) /\
  (exists order total,
      Float64.BruteForceAlgorithm.compute libm romford
        [brentwood; harold_wood]
      = Returns (order, total)).
Proof.
  destruct (@solvers_return_on_measurable_requests libm romford
              [brentwood; harold_wood] measured_measurable) as [Hnn Hbf].
  split; [exact Hnn |]. apply Hbf.
  exists [0%nat; 1%nat], 0x1.47557f3db2bbep+4.
  split; [reflexivity |]. split; vm_compute; reflexivity.
Defined.

End ReturnResults.
